(** * EIN chart widget: the data reader

    A shallow embedding of [src/data-reader.js] (class [EINDataReader]):
    the CSV record parser, the series normaliser with its retention window,
    the axis scale kept in the reader instance, and the tooltip positioner;
    then the sources that fetchData falls back on and the callback that
    labels the ticks of the y axis.

    Conventions of the embedding.
    - A JavaScript string is a [string]: a sequence of code units, of which
      only the units below 256 are represented.
    - A JavaScript number is a [number]: [NaN], the two infinities, or a
      finite binary64 value held as the rational it stands for. Every
      operation that rounds in the language rounds here, to the nearest
      binary64 value with ties to the even one, and overflows to an
      infinity. The sign of zero is not represented: the reader divides by
      no zero that could be negative unless the instance is handed a
      negative maximum.
    - A [DataRow] is an object made by an object literal, held as the map of
      its own properties; assigning to the key [__proto__] makes no
      property.
    - A [Date] object is a cell of a store holding its time value
      (milliseconds since the epoch, or [None] for an invalid date); two
      variables bound to the same object share the cell.
    - What ECMAScript leaves to the host, the parser behind
      [new Date(string)] and the local time zone adjustment, is a
      [Variable] of a section; so are the network behind [fetch] and the
      digits that a number is printed with.
    - A promise is what it settles to when it is awaited. *)

From Stdlib Require Import ZArith QArith Qround Qabs Qpower Lia Lqa Ascii.
From Stdlib Require String.
From stdpp Require Import gmap strings list pretty sorting.

Open Scope Z_scope.

(** ** Built-ins of the language that the reader calls *)

Module JS.

(** *** Exceptions *)

Inductive result (A : Type) : Type :=
| Ok (a : A)
| Throw (message : string).
Arguments Ok {A} a.
Arguments Throw {A} message.

(** *** Strings *)

Definition dquote : ascii := "034"%char.
Definition comma : ascii := ","%char.
Definition newline : ascii := "010"%char.

(** [WhiteSpace] and [LineTerminator] code units below 256: TAB, LF, VT, FF,
    CR, SP and NBSP. *)
Definition isWhiteSpace (c : ascii) : bool :=
  let n := nat_of_ascii c in
  (Nat.leb 9 n && Nat.leb n 13) || Nat.eqb n 32 || Nat.eqb n 160.

(** A string used as a condition is true exactly when it is not empty. *)
Definition truthy (s : string) : bool :=
  match s with
  | EmptyString => false
  | String _ _ => true
  end.

Fixpoint trimStart (s : string) : string :=
  match s with
  | EmptyString => EmptyString
  | String c s' => if isWhiteSpace c then trimStart s' else s
  end.

Fixpoint trimEnd (s : string) : string :=
  match s with
  | EmptyString => EmptyString
  | String c s' =>
      match trimEnd s' with
      | EmptyString => if isWhiteSpace c then EmptyString else String c EmptyString
      | t => String c t
      end
  end.

(** [String.prototype.trim] *)
Definition trim (s : string) : string := trimEnd (trimStart s).

(** [String.prototype.split] with a separator of one code unit: the result
    always has at least one element. *)
Fixpoint split (sep : ascii) (s : string) : list string :=
  match s with
  | EmptyString => [EmptyString]
  | String c s' =>
      if Ascii.eqb c sep then EmptyString :: split sep s'
      else match split sep s' with
           | field :: fields => String c field :: fields
           | [] => [String c EmptyString]
           end
  end.

(** [replace] with the global pattern matching one quote character and an
    empty replacement: every quote character is deleted. *)
Fixpoint removeQuotes (s : string) : string :=
  match s with
  | EmptyString => EmptyString
  | String c s' => if Ascii.eqb c dquote then removeQuotes s' else String c (removeQuotes s')
  end.

(** [current += char] *)
Definition appendChar (s : string) (c : ascii) : string := s +:+ String c EmptyString.

Definition startsWithWhiteSpace (s : string) : bool :=
  match s with
  | EmptyString => false
  | String c _ => isWhiteSpace c
  end.

Fixpoint endsWithWhiteSpace (s : string) : bool :=
  match s with
  | EmptyString => false
  | String c EmptyString => isWhiteSpace c
  | String _ s' => endsWithWhiteSpace s'
  end.

Fixpoint allWhiteSpace (s : string) : bool :=
  match s with
  | EmptyString => true
  | String c s' => isWhiteSpace c && allWhiteSpace s'
  end.

Fixpoint hasQuote (s : string) : bool :=
  match s with
  | EmptyString => false
  | String c s' => Ascii.eqb c dquote || hasQuote s'
  end.

(** No code unit of [s] is a dash. *)
Fixpoint dashFree (s : string) : bool :=
  match s with
  | EmptyString => true
  | String c s' => negb (Ascii.eqb c "-") && dashFree s'
  end.

Definition stringTail (s : string) : string :=
  match s with
  | String _ s' => s'
  | EmptyString => EmptyString
  end.

(** *** Numbers *)

Inductive number : Type :=
| NaN
| PosInf
| NegInf
| Fin (q : Q).

Definition ofZ (z : Z) : number := Fin (inject_Z z).

(** *** Rounding to binary64 *)

Definition pow2 (e : Z) : Q := (2 ^ e)%Q.

(** The exponent [e] with [2 ^ e <= |q| < 2 ^ (e + 1)], for [q] other than
    zero. *)
Definition binade (q : Q) : Z :=
  let e0 := Z.log2 (Z.abs (Qnum q)) - Z.log2 (Zpos (Qden q)) in
  if Qle_bool (pow2 e0) (Qabs q) then e0 else e0 - 1.

(** The exponent of the unit in the last place of the binary64 values
    around [q]: 53 significant bits, and [2 ^ -1074] for the subnormal
    values. *)
Definition ulpExponent (q : Q) : Z := Z.max (binade q - 52) (-1074).

(** The nearest integer, the even one of two that are equally near. *)
Definition nearestEven (x : Q) : Z :=
  let k := Qfloor x in
  match (x - inject_Z k ?= 1 # 2)%Q with
  | Lt => k
  | Gt => k + 1
  | Eq => if Z.even k then k else k + 1
  end.

(** The multiple of the unit in the last place nearest to [q]. *)
Definition nearest64 (q : Q) : Q :=
  (inject_Z (nearestEven (q / pow2 (ulpExponent q))) * pow2 (ulpExponent q))%Q.

(** The Number value for [q]: the nearest binary64 value, an infinity from
    [2 ^ 1024] on. *)
Definition round64 (q : Q) : number :=
  let r := nearest64 q in
  if Qle_bool (pow2 1024) r then PosInf
  else if Qle_bool r (- pow2 1024) then NegInf
  else Fin (Qred r).

(** [q] is a binary64 value: a significand below [2 ^ 53] times a power of
    two from [2 ^ -1074] on. *)
Definition binary64 (q : Q) : Prop :=
  exists j ex : Z, -1074 <= ex /\ Z.abs j < 2 ^ 53 /\ (q == inject_Z j * pow2 ex)%Q.

(** [v] is a number of the language: when it is finite, a binary64
    value. *)
Definition isNumber (v : number) : Prop :=
  match v with
  | Fin q => binary64 q
  | _ => True
  end.

Definition isFinite (a : number) : bool :=
  match a with
  | Fin _ => true
  | _ => false
  end.


(** A number used as a condition: [NaN] and zero are false. *)
Definition numTruthy (a : number) : bool :=
  match a with
  | NaN => false
  | Fin q => negb (Qeq_bool q 0)
  | _ => true
  end.

(** [a || 0] *)
Definition orZero (a : number) : number := if numTruthy a then a else ofZ 0.

(** [a < b], [a <= b], [a >= b]: false as soon as one side is [NaN]. *)
Definition ltb (a b : number) : bool :=
  match a, b with
  | NaN, _ | _, NaN => false
  | _, NegInf | PosInf, _ => false
  | NegInf, _ | _, PosInf => true
  | Fin p, Fin q => negb (Qle_bool q p)
  end.

Definition leb (a b : number) : bool :=
  match a, b with
  | NaN, _ | _, NaN => false
  | NegInf, _ | _, PosInf => true
  | _, NegInf | PosInf, _ => false
  | Fin p, Fin q => Qle_bool p q
  end.

Definition geb (a b : number) : bool := leb b a.

Definition add (a b : number) : number :=
  match a, b with
  | NaN, _ | _, NaN => NaN
  | PosInf, NegInf | NegInf, PosInf => NaN
  | PosInf, _ | _, PosInf => PosInf
  | NegInf, _ | _, NegInf => NegInf
  | Fin p, Fin q => round64 (p + q)
  end.

(** The infinity of the sign of [q], where zero counts as positive. *)
Definition signedInf (positive : bool) (q : Q) : number :=
  if Qle_bool 0 q then (if positive then PosInf else NegInf)
  else (if positive then NegInf else PosInf).

Definition mul (a b : number) : number :=
  match a, b with
  | NaN, _ | _, NaN => NaN
  | PosInf, PosInf | NegInf, NegInf => PosInf
  | PosInf, NegInf | NegInf, PosInf => NegInf
  | PosInf, Fin q | Fin q, PosInf => if Qeq_bool q 0 then NaN else signedInf true q
  | NegInf, Fin q | Fin q, NegInf => if Qeq_bool q 0 then NaN else signedInf false q
  | Fin p, Fin q => round64 (p * q)
  end.

Definition div (a b : number) : number :=
  match a, b with
  | NaN, _ | _, NaN => NaN
  | PosInf, Fin q => signedInf true q
  | NegInf, Fin q => signedInf false q
  | Fin _, PosInf | Fin _, NegInf => ofZ 0
  | Fin p, Fin q =>
      if Qeq_bool q 0 then (if Qeq_bool p 0 then NaN else signedInf true p)
      else round64 (p / q)
  | _, _ => NaN
  end.

(** [Math.ceil]: the ceiling of a binary64 value is one. *)
Definition Math_ceil (a : number) : number :=
  match a with
  | Fin q => ofZ (Qceiling q)
  | _ => a
  end.

Definition max2 (a b : number) : number :=
  match a, b with
  | NaN, _ | _, NaN => NaN
  | PosInf, _ | _, PosInf => PosInf
  | NegInf, c | c, NegInf => c
  | Fin p, Fin q => if Qle_bool p q then b else a
  end.

(** [Math.max(...args)]: the largest argument, [-Infinity] when there is
    none, [NaN] as soon as one argument is [NaN]. *)
Definition Math_max (args : list number) : number := foldl max2 NegInf args.

(** *** parseFloat *)

Definition digitValue (c : ascii) : option Z :=
  let n := nat_of_ascii c in
  if Nat.leb 48 n && Nat.leb n 57 then Some (Z.of_nat n - 48) else None.

(** The longest run of decimal digits at the front of [s]: its value on top
    of [acc], the number of digits read, and the rest of the string. *)
Fixpoint takeDigits (s : string) (acc : Z) (count : nat) : Z * nat * string :=
  match s with
  | String c s' =>
      match digitValue c with
      | Some d => takeDigits s' (10 * acc + d) (S count)
      | None => (acc, count, s)
      end
  | EmptyString => (acc, count, s)
  end.

Definition takeSign (s : string) : bool * string :=
  match s with
  | String "-" s' => (true, s')
  | String "+" s' => (false, s')
  | _ => (false, s)
  end.

(** The [ExponentPart] at the front of [s], when there is a complete one. *)
Definition takeExponent (s : string) : Z :=
  match s with
  | String c s' =>
      if Ascii.eqb c "e" || Ascii.eqb c "E" then
        let '(negative, s'') := takeSign s' in
        let '(e, count, _) := takeDigits s'' 0 O in
        match count with
        | O => 0
        | S _ => if negative then - e else e
        end
      else 0
  | EmptyString => 0
  end.

(** The value of the longest prefix of [s] that is a decimal literal without
    sign, [None] when no prefix is one. *)
Definition unsignedDecimal (s : string) : option Q :=
  let '(int, intCount, s1) := takeDigits s 0 O in
  let '(frac, fracCount, s2) :=
    match s1 with
    | String "." s1' => takeDigits s1' 0 O
    | _ => (0, O, s1)
    end in
  match intCount, fracCount with
  | O, O => None
  | _, _ =>
      let scale := 10 ^ Z.of_nat fracCount in
      Some (((int * scale + frac) # Z.to_pos scale) * (10 ^ takeExponent s2))%Q
  end.

(** The Number value for the longest prefix that is a decimal literal. *)
Definition parseFloat (s : string) : number :=
  let '(negative, body) := takeSign (trimStart s) in
  if String.prefix "Infinity" body then (if negative then NegInf else PosInf)
  else match unsignedDecimal body with
       | Some q => round64 (if negative then - q else q)
       | None => NaN
       end.

(** *** Dates

    Time values and the calendar functions of ECMAScript (Day Number and
    Time within Day, Year Number, Month Number, Date Number, MakeDay,
    MakeDate, TimeClip). *)

(** The time value of a [Date]: [None] is the invalid date. *)
Definition TimeValue : Type := option Z.

Definition msPerDay : Z := 86400000.

Definition Day (t : Z) : Z := t / msPerDay.

Definition TimeWithinDay (t : Z) : Z := t mod msPerDay.

Definition DaysInYear (y : Z) : Z :=
  if negb (y mod 4 =? 0) then 365
  else if negb (y mod 100 =? 0) then 366
  else if negb (y mod 400 =? 0) then 365
  else 366.

Definition DayFromYear (y : Z) : Z :=
  365 * (y - 1970) + (y - 1969) / 4 - (y - 1901) / 100 + (y - 1601) / 400.

(** The largest year that starts on day [d] or before: the estimate from
    the mean length of a year is off by one at most. *)
Definition YearFromDay (d : Z) : Z :=
  let y := 1970 + d * 400 / 146097 in
  if DayFromYear (y + 1) <=? d then y + 1
  else if DayFromYear y <=? d then y
  else y - 1.

Definition YearFromTime (t : Z) : Z := YearFromDay (Day t).

Definition InLeapYear (t : Z) : Z :=
  if DaysInYear (YearFromTime t) =? 366 then 1 else 0.

Definition DayWithinYear (t : Z) : Z := Day t - DayFromYear (YearFromTime t).

Definition MonthFromTime (t : Z) : Z :=
  let d := DayWithinYear t in
  let leap := InLeapYear t in
  if d <? 31 then 0
  else if d <? 59 + leap then 1
  else if d <? 90 + leap then 2
  else if d <? 120 + leap then 3
  else if d <? 151 + leap then 4
  else if d <? 181 + leap then 5
  else if d <? 212 + leap then 6
  else if d <? 243 + leap then 7
  else if d <? 273 + leap then 8
  else if d <? 304 + leap then 9
  else if d <? 334 + leap then 10
  else 11.

(** The number of days of the year before month [m] (0 to 11) starts. *)
Definition daysBeforeMonth (m leap : Z) : Z :=
  match m with
  | 0 => 0
  | 1 => 31
  | 2 => 59 + leap
  | 3 => 90 + leap
  | 4 => 120 + leap
  | 5 => 151 + leap
  | 6 => 181 + leap
  | 7 => 212 + leap
  | 8 => 243 + leap
  | 9 => 273 + leap
  | 10 => 304 + leap
  | _ => 334 + leap
  end.

Definition DateFromTime (t : Z) : Z :=
  DayWithinYear t - daysBeforeMonth (MonthFromTime t) (InLeapYear t) + 1.

(** [MakeDay]: the month may lie outside 0 to 11 and carries into the year,
    the date may lie outside the month and carries into the days. *)
Definition MakeDay (year month date : Z) : Z :=
  let ym := year + month / 12 in
  let mn := month mod 12 in
  let leap := if DaysInYear ym =? 366 then 1 else 0 in
  DayFromYear ym + daysBeforeMonth mn leap + date - 1.

Definition MakeDate (day time : Z) : Z := day * msPerDay + time.

Definition TimeClip (t : Z) : TimeValue :=
  if 8640000000000000 <? Z.abs t then None else Some t.

(** [a >= b] on two dates compares their time values as numbers. *)
Definition dateGe (a b : TimeValue) : bool :=
  match a, b with
  | Some x, Some y => y <=? x
  | _, _ => false
  end.

(** [new Date(0)] *)
Definition epoch : TimeValue := Some 0.

(** [getTime()] *)
Definition getTime (d : TimeValue) : TimeValue := d.

(** [isNaN(d.getTime())] *)
Definition isInvalid (d : TimeValue) : bool :=
  match d with
  | Some _ => false
  | None => true
  end.

(** An integer, or [NaN], inside a template literal. *)
Definition showInt (n : option Z) : string :=
  match n with
  | Some z => pretty z
  | None => "NaN"
  end.

Section Host.

(** The time value of [new Date(text)] for a string [text]; formats other
    than the ISO one are parsed as the host pleases. *)
Variable DateParse : string -> TimeValue.

(** [LocalTZA(t, isUTC)]: the offset of local time in milliseconds. *)
Variable LocalTZA : Z -> bool -> Z.

Definition LocalTime (t : Z) : Z := t + LocalTZA t true.

Definition UTC (t : Z) : Z := t - LocalTZA t false.

(** [new Date(value)] where [value] may be [undefined]. *)
Definition newDate (value : option string) : TimeValue :=
  match value with
  | Some text => DateParse text
  | None => None
  end.

Definition getFullYear (d : TimeValue) : option Z :=
  YearFromTime ∘ LocalTime <$> d.

Definition getMonth (d : TimeValue) : option Z :=
  MonthFromTime ∘ LocalTime <$> d.

Definition getDate (d : TimeValue) : option Z :=
  DateFromTime ∘ LocalTime <$> d.

(** [d.setMonth(month)]: the new time value of [d]. *)
Definition setMonth (d : TimeValue) (month : option Z) : TimeValue :=
  match d, month with
  | Some t0, Some m =>
      let t := LocalTime t0 in
      TimeClip (UTC (MakeDate (MakeDay (YearFromTime t) m (DateFromTime t)) (TimeWithinDay t)))
  | _, _ => None
  end.

(** [d.setDate(date)]: the new time value of [d]. *)
Definition setDate (d : TimeValue) (date : option Z) : TimeValue :=
  match d, date with
  | Some t0, Some dt =>
      let t := LocalTime t0 in
      TimeClip (UTC (MakeDate (MakeDay (YearFromTime t) (MonthFromTime t) dt) (TimeWithinDay t)))
  | _, _ => None
  end.

End Host.

(** *** Arrays *)

Section Sort.

Context {A : Type}.

(** The sort key: the comparator of the reader subtracts two time values
    that are valid, so it orders by one integer key. *)
Variable key : A -> Z.

Fixpoint insertSorted (x : A) (l : list A) : list A :=
  match l with
  | [] => [x]
  | y :: l' => if key x <=? key y then x :: l else y :: insertSorted x l'
  end.

(** [Array.prototype.sort] is stable: elements that compare equal keep
    their order. Insertion from the right gives that order. *)
Fixpoint sort (l : list A) : list A :=
  match l with
  | [] => []
  | x :: l' => insertSorted x (sort l')
  end.

End Sort.

(** *** encodeURIComponent *)

(** The characters that [encodeURIComponent] leaves as they are: letters,
    digits and - _ . ! ~ * ' ( ) *)
Definition isUnreserved (c : ascii) : bool :=
  let n := nat_of_ascii c in
  (Nat.leb 65 n && Nat.leb n 90) || (Nat.leb 97 n && Nat.leb n 122)
  || (Nat.leb 48 n && Nat.leb n 57)
  || bool_decide (c ∈ ["-"; "_"; "."; "!"; "~"; "*"; "'"; "("; ")"]%char).

Definition hexDigit (n : nat) : ascii :=
  default "0"%char (["0"; "1"; "2"; "3"; "4"; "5"; "6"; "7"; "8"; "9";
                     "A"; "B"; "C"; "D"; "E"; "F"]%char !! n).

(** One octet as a percent sign and two hexadecimal digits, before [rest]. *)
Definition percentEncode (octet : nat) (rest : string) : string :=
  String "%" (String (hexDigit (octet / 16)) (String (hexDigit (octet mod 16)) rest)).

(** The octets of the UTF-8 form of a code point below 256. *)
Definition utf8 (codePoint : nat) : list nat :=
  if Nat.ltb codePoint 128 then [codePoint]
  else [(192 + codePoint / 64)%nat; (128 + codePoint mod 64)%nat].

Fixpoint encodeURIComponent (s : string) : string :=
  match s with
  | EmptyString => EmptyString
  | String c s' =>
      if isUnreserved c then String c (encodeURIComponent s')
      else foldr percentEncode (encodeURIComponent s') (utf8 (nat_of_ascii c))
  end.

(** *** Promises *)

(** What a promise is rejected with, or what is thrown. [Nullish] is [null]
    or [undefined], the two values no property can be read of; [Value] is
    any other value, an [Error] object for one. *)
Inductive Reason : Type :=
| Value
| Nullish.

(** A promise once it is awaited: fulfilled with a value, or rejected. *)
Inductive Settled (A : Type) : Type :=
| Fulfilled (a : A)
| Rejected (reason : Reason).
Arguments Fulfilled {A} a.
Arguments Rejected {A} reason.

End JS.

(** ** The class [EINDataReader] *)

Module EINDataReader.

Import JS.

(** A [DataRow]: an object made by an object literal and used as a map
    from column names to strings, held as the map of its own properties.
    Of the properties that such an object inherits, none is named like a
    column that the reader reads. *)
Abbreviation DataRow := (gmap string string).

(** [row[key] = value] for a string [value]. The key [__proto__] names the
    accessor that every such object inherits, and its setter ignores a
    value that is neither an object nor [null]: no property is made. Every
    other inherited property is a writable data property, which the
    assignment shadows with a property of the row. *)
Definition setProperty (row : DataRow) (key value : string) : DataRow :=
  if String.eqb key "__proto__" then row else <[key := value]> row.

(** The fields of an instance that the methods below read or write. *)
Record t : Type := {
  maxSteps : number;
  stepSize : number;
  estimateTitleText : string;
  fifthPercentileTitleText : string;
  ninetyFifthPercentileTitleText : string
}.

Definition constructor : t := {|
  maxSteps := ofZ 0;
  stepSize := ofZ 1;
  estimateTitleText := "Estimate";
  fifthPercentileTitleText := "5th Percentile";
  ninetyFifthPercentileTitleText := "95th Percentile"
|}.

(** *** parseCSVLine *)

Record ScanState : Type := {
  values : list string;
  current : string;
  inQuotes : bool
}.

(** One turn of the loop body on [char], with [nextChar] the code unit after
    it when there is one: the new state, and whether the turn also consumed
    [nextChar]. *)
Definition scanStep (st : ScanState) (char : ascii) (nextChar : option ascii) : ScanState * bool :=
  if Ascii.eqb char dquote then
    if inQuotes st && bool_decide (nextChar = Some dquote) then
      ({| values := values st; current := appendChar (current st) dquote; inQuotes := inQuotes st |}, true)
    else
      ({| values := values st; current := current st; inQuotes := negb (inQuotes st) |}, false)
  else if Ascii.eqb char comma && negb (inQuotes st) then
    ({| values := values st ++ [trim (current st)]; current := ""; inQuotes := inQuotes st |}, false)
  else
    ({| values := values st; current := appendChar (current st) char; inQuotes := inQuotes st |}, false).

Definition nextOf (rest : string) : option ascii :=
  match rest with
  | String c _ => Some c
  | EmptyString => None
  end.

Fixpoint scanLoop (line : string) (st : ScanState) : ScanState :=
  match line with
  | EmptyString => st
  | String char rest =>
      let '(st', skip) := scanStep st char (nextOf rest) in
      match rest with
      | String _ rest' => if skip then scanLoop rest' st' else scanLoop rest st'
      | EmptyString => st'
      end
  end.

Definition parseCSVLine (line : string) : list string :=
  let st := scanLoop line {| values := []; current := ""; inQuotes := false |} in
  values st ++ [trim (current st)].

(** *** parseCSV *)

(** [values[index] || ''] *)
Definition valueAt (values : list string) (index : nat) : string :=
  match values !! index with
  | Some v => if truthy v then v else ""
  | None => ""
  end.

(** The callback of [headers.forEach] on the row being filled. *)
Definition insertColumn (values : list string) (row : DataRow) (column : nat * string) : DataRow :=
  let '(index, header) := column in setProperty row header (valueAt values index).

(** The row filled by [headers.forEach]: a later column of the same name
    overwrites an earlier one. *)
Definition makeRow (headers values : list string) : DataRow :=
  foldl (insertColumn values) ∅ (imap pair headers).

(** [row[name]] as a condition: the column is present and not empty. *)
Definition truthyField (row : DataRow) (name : string) : bool :=
  match row !! name with
  | Some v => truthy v
  | None => false
  end.

Definition hasDateAndEstimate (row : DataRow) : bool :=
  truthyField row "Date" && truthyField row "Estimate".

(** The body of the loop over the lines after the header. *)
Definition pushRow (headers : list string) (data : list DataRow) (line0 : string) : list DataRow :=
  let line := trim line0 in
  if truthy line then
    let row := makeRow headers (parseCSVLine line) in
    if hasDateAndEstimate row then data ++ [row] else data
  else data.

Definition parseCSV (csvText : string) : result (list DataRow) :=
  let lines := List.filter (fun line => truthy (trim line)) (split newline csvText) in
  if (length lines <? 2)%nat then Throw "CSV data appears to be empty or invalid"
  else
    let headers := map (fun header => removeQuotes (trim header))
                       (split comma (List.nth 0 lines "")) in
    Ok (foldl (pushRow headers) [] (tail lines)).

(** *** getSampleData *)

Definition sampleRow (date estimate fifth ninetyFifth : string) : DataRow :=
  <["95th Percentile" := ninetyFifth]>
    (<["5th Percentile" := fifth]> (<["Estimate" := estimate]> (<["Date" := date]> ∅))).

Definition getSampleData : list DataRow := [
  sampleRow "1/15/2024" "45" "28" "65";
  sampleRow "2/15/2024" "48" "32" "68";
  sampleRow "3/15/2024" "42" "25" "62";
  sampleRow "4/15/2024" "38" "22" "58";
  sampleRow "5/15/2024" "35" "20" "55";
  sampleRow "6/15/2024" "32" "18" "52";
  sampleRow "7/15/2024" "28" "15" "48";
  sampleRow "8/15/2024" "25" "12" "42";
  sampleRow "9/15/2024" "22" "10" "38";
  sampleRow "10/15/2024" "35" "20" "55";
  sampleRow "11/15/2024" "68" "45" "85";
  sampleRow "12/15/2024" "52" "38" "74";
  sampleRow "1/15/2025" "42" "28" "62";
  sampleRow "2/15/2025" "38" "25" "58";
  sampleRow "3/15/2025" "40" "26" "60"
].

(** *** processDataForChart *)

(** An element of [processedData]: [dateRef] is the address of its [Date]
    object in the store. *)
Record MappedItem : Type := {
  dateRef : nat;
  mappedEstimate : number;
  mappedFifthPercentile : number;
  mappedNinetyFifthPercentile : number
}.

(** A [ProcessedDataItem] read once no [Date] is written any more: [date]
    is the time value its object then holds. *)
Record ProcessedDataItem : Type := {
  date : TimeValue;
  estimate : number;
  fifthPercentile : number;
  ninetyFifthPercentile : number
}.

Record ChartDataset : Type := {
  label : string;
  data : list number
}.

Record ChartData : Type := {
  labels : list string;
  datasets : list ChartDataset;
  rawData : list ProcessedDataItem
}.

(** The store of [Date] objects, the variable [minDate] (an address), and
    the array built so far by [map]. *)
Record MapState : Type := {
  heap : list TimeValue;
  minDate : nat;
  processedData : list MappedItem
}.

Definition deref (h : list TimeValue) (address : nat) : TimeValue :=
  default None (h !! address).

(** [parseFloat(row[name]) || 0]; an absent column reads [undefined], which
    parseFloat sees as the string of that name. *)
Definition numericField (row : DataRow) (name : string) : number :=
  orZero (parseFloat (default "undefined" (row !! name))).

Definition monthNames : list string :=
  ["JAN"; "FEB"; "MAR"; "APR"; "MAY"; "JUN"; "JUL"; "AUG"; "SEP"; "OCT"; "NOV"; "DEC"].

(** [monthNames[month]] inside a template literal or pushed as a label; a
    valid date always has a month from 0 to 11. *)
Definition monthName (month : option Z) : string :=
  match month with
  | Some m => if 0 <=? m then default "undefined" (monthNames !! Z.to_nat m) else "undefined"
  | None => "undefined"
  end.

(** The time value used as sort key; every item sorted has a valid date. *)
Definition timeOf (item : ProcessedDataItem) : Z := default 0 (date item).

Section Host.

Variable DateParse : string -> TimeValue.
Variable LocalTZA : Z -> bool -> Z.

(** The callback of [map]: a new [Date] is allocated for the row, and
    [minDate = date] binds [minDate] to that very object. *)
Definition mapRow (st : MapState) (row : DataRow) : MapState :=
  let address := length (heap st) in
  let h := heap st ++ [newDate DateParse (row !! "Date")] in
  {| heap := h;
     minDate := if dateGe (deref h address) (deref h (minDate st)) then address else minDate st;
     processedData := processedData st ++
       [{| dateRef := address;
           mappedEstimate := numericField row "Estimate";
           mappedFifthPercentile := numericField row "5th Percentile";
           mappedNinetyFifthPercentile := numericField row "95th Percentile" |}] |}.

(** [let minDate = new Date(0)] followed by [filter] and [map]. *)
Definition mapRows (rawData : list DataRow) : MapState :=
  foldl mapRow {| heap := [epoch]; minDate := 0%nat; processedData := [] |}
        (List.filter hasDateAndEstimate rawData).

(** [minDate.setMonth(minDate.getMonth() - 2); minDate.setDate(1)]: both
    calls write the object [minDate] is bound to. *)
Definition moveMinDate (st : MapState) : list TimeValue :=
  let d0 := deref (heap st) (minDate st) in
  let d1 := setMonth LocalTZA d0 ((fun m => m - 2) <$> getMonth LocalTZA d0) in
  let d2 := setDate LocalTZA d1 (Some 1) in
  <[minDate st := d2]> (heap st).

Definition readItem (h : list TimeValue) (item : MappedItem) : ProcessedDataItem :=
  {| date := deref h (dateRef item);
     estimate := mappedEstimate item;
     fifthPercentile := mappedFifthPercentile item;
     ninetyFifthPercentile := mappedNinetyFifthPercentile item |}.

(** The callback of the second [filter], with [floor] the value of
    [minDate] after the two calls. *)
Definition inWindow (floor : TimeValue) (item : ProcessedDataItem) : bool :=
  negb (isInvalid (getTime (date item))) && dateGe (date item) floor.

Definition dateFilteredMinProcessedData (rawData : list DataRow) : list ProcessedDataItem :=
  let st := mapRows rawData in
  let h := moveMinDate st in
  sort timeOf (List.filter (inWindow (deref h (minDate st))) (map (readItem h) (processedData st))).

(** The key of [seenDate]: day of the month, month and year in local time. *)
Definition dateKey (item : ProcessedDataItem) : string :=
  showInt (getDate LocalTZA (date item)) +:+ "-" +:+
  showInt (getMonth LocalTZA (date item)) +:+ "-" +:+
  showInt (getFullYear LocalTZA (date item)).

Definition uniqueStep (st : gset string * list ProcessedDataItem) (item : ProcessedDataItem)
  : gset string * list ProcessedDataItem :=
  let key := dateKey item in
  if decide (key ∈ st.1) then st else ({[key]} ∪ st.1, st.2 ++ [item]).

Definition uniqueData (items : list ProcessedDataItem) : list ProcessedDataItem :=
  (foldl uniqueStep (∅, []) items).2.

(** The key of [seenLabels]. *)
Definition labelCheckWithYear (item : ProcessedDataItem) : string :=
  monthName (getMonth LocalTZA (date item)) +:+ "-" +:+ showInt (getFullYear LocalTZA (date item)).

(** What the second [forEach] carries from one item to the next. *)
Record LoopState : Type := {
  seenLabels : gset string;
  loopLabels : list string;
  estimateData : list number;
  fifthPercentileData : list number;
  ninetyFifthPercentileData : list number;
  loopMaxSteps : number
}.

Definition loopStep (st : LoopState) (item : ProcessedDataItem) : LoopState :=
  let currentMonth := monthName (getMonth LocalTZA (date item)) in
  let key := labelCheckWithYear item in
  {| seenLabels := if decide (key ∈ seenLabels st) then seenLabels st else {[key]} ∪ seenLabels st;
     loopLabels := loopLabels st ++ [if decide (key ∈ seenLabels st) then "" else currentMonth];
     estimateData := estimateData st ++ [estimate item];
     fifthPercentileData := fifthPercentileData st ++ [fifthPercentile item];
     ninetyFifthPercentileData := ninetyFifthPercentileData st ++ [ninetyFifthPercentile item];
     loopMaxSteps := Math_max [loopMaxSteps st; estimate item; fifthPercentile item;
                               ninetyFifthPercentile item] |}.

Definition processDataForChart (this : t) (rawData : list DataRow) : ChartData * t :=
  let unique := uniqueData (dateFilteredMinProcessedData rawData) in
  let st := foldl loopStep
              {| seenLabels := ∅; loopLabels := []; estimateData := [];
                 fifthPercentileData := []; ninetyFifthPercentileData := [];
                 loopMaxSteps := maxSteps this |} unique in
  let stepSize' := Math_ceil (add (div (Math_ceil (loopMaxSteps st)) (ofZ 5)) (ofZ 1)) in
  let maxSteps' := mul (Math_ceil (div (loopMaxSteps st) stepSize')) stepSize' in
  ({| labels := loopLabels st;
      datasets := [
        {| label := fifthPercentileTitleText this; data := fifthPercentileData st |};
        {| label := ninetyFifthPercentileTitleText this; data := ninetyFifthPercentileData st |};
        {| label := estimateTitleText this; data := estimateData st |} ];
      rawData := unique |},
   {| maxSteps := maxSteps';
      stepSize := stepSize';
      estimateTitleText := estimateTitleText this;
      fifthPercentileTitleText := fifthPercentileTitleText this;
      ninetyFifthPercentileTitleText := ninetyFifthPercentileTitleText this |}).

End Host.

(** *** getChartOptions: the scale of the y axis *)

Record AxisScale : Type := {
  axisMax : number;
  axisStepSize : number
}.

Definition getChartOptions (this : t) : AxisScale :=
  {| axisMax := maxSteps this; axisStepSize := stepSize this |}.

(** *** initializeCustomTooltipPositioner: einCustomPositioner *)

Record Point : Type := {
  x : number;
  y : number
}.

(** An active element as the renderer hands it over: [datasetIndex] and the
    two coordinates of [element] may each be [undefined]. *)
Record ActiveElement : Type := {
  datasetIndex : option nat;
  elementX : option number;
  elementY : option number
}.

(** [ToNumber] of a coordinate: [undefined] becomes [NaN]. *)
Definition toNumber (v : option number) : number := default NaN v.

Definition xOffset : number := ofZ 0.
Definition yOffset : number := ofZ (-10).

Definition bind {A B : Type} (m : result A) (f : A -> result B) : result B :=
  match m with
  | Ok a => f a
  | Throw message => Throw message
  end.

(** [this.chart.data.datasets[index].label === title]: reading [label] of
    a dataset that does not exist raises a [TypeError]. *)
Definition labelIs (chartDatasets : list ChartDataset) (index : nat) (title : string) : result bool :=
  match chartDatasets !! index with
  | Some dataset => Ok (String.eqb (label dataset) title)
  | None => Throw "TypeError"
  end.

(** [Array.prototype.find] and [filter] with a callback that may throw. *)
Fixpoint findM {A : Type} (p : A -> result bool) (l : list A) : result (option A) :=
  match l with
  | [] => Ok None
  | a :: l' => bind (p a) (fun found => if found then Ok (Some a) else findM p l')
  end.

Fixpoint filterM {A : Type} (p : A -> result bool) (l : list A) : result (list A) :=
  match l with
  | [] => Ok []
  | a :: l' =>
      bind (p a) (fun keep =>
      bind (filterM p l') (fun kept => Ok (if keep then a :: kept else kept)))
  end.

Definition isEstimate (this : t) (chartDatasets : list ChartDataset) (el : ActiveElement) : result bool :=
  match datasetIndex el with
  | None => Ok false
  | Some index => labelIs chartDatasets index (estimateTitleText this)
  end.

Definition isPercentile (this : t) (chartDatasets : list ChartDataset) (el : ActiveElement) : result bool :=
  match datasetIndex el with
  | None => Ok false
  | Some index =>
      bind (labelIs chartDatasets index (fifthPercentileTitleText this)) (fun is5thPercentile =>
      bind (labelIs chartDatasets index (ninetyFifthPercentileTitleText this)) (fun is95thPercentile =>
      Ok (is5thPercentile || is95thPercentile)))
  end.

(** [elements.reduce((sum, el) => sum + coordinate(el), 0) / elements.length] *)
Definition mean (coordinate : ActiveElement -> option number) (elements : list ActiveElement) : number :=
  div (foldl (fun sum el => add sum (toNumber (coordinate el))) (ofZ 0) elements)
      (ofZ (Z.of_nat (length elements))).

(** The part of the positioner after the test on the Estimate element. *)
Definition positionOnPercentiles (this : t) (chartDatasets : list ChartDataset)
    (elements : list ActiveElement) : result Point :=
  bind (filterM (isPercentile this chartDatasets) elements) (fun percentileElements =>
  match percentileElements with
  | first :: second :: _ =>
      Ok {| x := add (toNumber (elementX first)) xOffset;
            y := add (div (add (toNumber (elementY first)) (toNumber (elementY second))) (ofZ 2))
                     yOffset |}
  | [only] =>
      Ok {| x := add (toNumber (elementX only)) xOffset;
            y := add (toNumber (elementY only)) yOffset |}
  | [] =>
      Ok {| x := add (mean elementX elements) xOffset;
            y := add (mean elementY elements) yOffset |}
  end).

Definition einCustomPositioner (this : t) (chartDatasets : list ChartDataset)
    (elements : list ActiveElement) (eventPosition : Point) : result Point :=
  if (length elements =? 0)%nat then
    Ok {| x := add (x eventPosition) xOffset; y := add (y eventPosition) yOffset |}
  else
    bind (findM (isEstimate this chartDatasets) elements) (fun estimateElement =>
    match estimateElement with
    | Some el =>
        match elementX el with
        | Some _ =>
            Ok {| x := add (toNumber (elementX el)) xOffset;
                  y := add (toNumber (elementY el)) yOffset |}
        | None => positionOnPercentiles this chartDatasets elements
        end
    | None => positionOnPercentiles this chartDatasets elements
    end).

(** *** The constructor: the fields that fetchData reads *)

Record Source : Type := {
  sheetId : string;
  gid : Z;
  csvUrl : string;
  corsProxies : list string
}.

(** [new EINDataReader(sheetId, gid)], for a [gid] that is a whole number. *)
Definition newSource (sheetId : string) (gid : Z) : Source := {|
  sheetId := sheetId;
  gid := gid;
  csvUrl := "https://docs.google.com/spreadsheets/d/" +:+ sheetId
            +:+ "/export?format=csv&gid=" +:+ pretty gid;
  corsProxies := [
    "https://api.allorigins.win/raw?url=";
    "https://corsproxy.io/?";
    "https://cors-anywhere.herokuapp.com/"
  ]
|}.

(** *** fetchData *)

(** A [Response]: its [ok] flag, and what the promise of [text()] settles
    to. *)
Record Response : Type := {
  ok : bool;
  text : Settled string
}.

Section Fetch.

(** What the promise of [fetch(url)] settles to. The reader asks no address
    twice. *)
Variable fetch : string -> Settled Response.

(** The body of either [try] block: the rows it returns, [None] when it
    ends without [return], or what it throws. An error of parseCSV is
    thrown inside the block. *)
Definition tryFetch (url : string) : Settled (option (list DataRow)) :=
  match fetch url with
  | Fulfilled response =>
      if ok response then
        match text response with
        | Fulfilled csvText =>
            match parseCSV csvText with
            | Ok rows => Fulfilled (Some rows)
            | Throw _ => Rejected Value
            end
        | Rejected reason => Rejected reason
        end
      else Fulfilled None
  | Rejected reason => Rejected reason
  end.

(** The loop over the proxies and the statements after it. The handler of
    the loop reads [error.message], which throws a [TypeError] when [error]
    is [null] or [undefined]. *)
Fixpoint tryProxies (url : string) (proxies : list string) : Settled (list DataRow) :=
  match proxies with
  | [] => Fulfilled getSampleData
  | proxy :: rest =>
      match tryFetch (proxy +:+ encodeURIComponent url) with
      | Fulfilled (Some rows) => Fulfilled rows
      | Fulfilled None => tryProxies url rest
      | Rejected Value => tryProxies url rest
      | Rejected Nullish => Rejected Value
      end
  end.

(** The handler of the first [try] block does not read [error]. *)
Definition fetchData (this : Source) : Settled (list DataRow) :=
  match tryFetch (csvUrl this) with
  | Fulfilled (Some rows) => Fulfilled rows
  | Fulfilled None | Rejected _ => tryProxies (csvUrl this) (corsProxies this)
  end.

End Fetch.

(** *** getChartOptions: the callback of the ticks of the y axis *)

(** The value of a tick as the callback tests it: [null], [undefined] or a
    number. *)
Inductive TickValue : Type :=
| TickNull
| TickUndefined
| TickNumber (value : number).

(** [ToNumber] of a tick value, as [value >= maxSteps] compares it. *)
Definition tickNumber (value : TickValue) : number :=
  match value with
  | TickNull => ofZ 0
  | TickUndefined => NaN
  | TickNumber n => n
  end.

Section Ticks.

(** [Number.prototype.toString], called without argument. *)
Variable NumberToString : number -> string.

(** The callback, with the [maxSteps] that getChartOptions read off
    [this] when it built the options. *)
Definition yTickCallback (this : t) (value : TickValue) : string :=
  if geb (tickNumber value) (maxSteps this) then "Days"
  else match value with
       | TickNull => "null"
       | TickUndefined => "undefined"
       | TickNumber n => NumberToString n
       end.

End Ticks.

End EINDataReader.

(** ** A host to evaluate on *)

Module SampleHost.

Import JS EINDataReader.

(** Local time is UTC. *)
Definition LocalTZA (t : Z) (isUTC : bool) : Z := 0.

(** Dates written month/day/year, as in [getSampleData], read as midnight
    local time; every other text is an invalid date. *)
Definition DateParse (text : string) : TimeValue :=
  match split "/"%char text with
  | [month; day; year] =>
      match takeDigits month 0 O, takeDigits day 0 O, takeDigits year 0 O with
      | (m, S _, EmptyString), (d, S _, EmptyString), (y, S _, EmptyString) =>
          TimeClip (MakeDate (MakeDay y (m - 1) d) 0 - LocalTZA 0 false)
      | _, _, _ => None
      end
  | _ => None
  end.

(** A CSV text with a short line, a blank line, a line without date and two
    lines of one day. *)
Definition sampleCSV : string :=
  "Date,Estimate,5th Percentile,95th Percentile" +:+ String newline
  ("1/15/2024,45,28,65" +:+ String newline
  ("2/15/2024,48" +:+ String newline
  (String newline
  (",50,30,70" +:+ String newline
  ("2/15/2024,49,33,69"))))).

(** The rows of [sampleCSV]. *)
Definition sampleRows : list DataRow := [
  sampleRow "1/15/2024" "45" "28" "65";
  sampleRow "2/15/2024" "48" "" "";
  sampleRow "2/15/2024" "49" "33" "69"
].

Definition negativeRows : list DataRow := [sampleRow "1/15/2024" "-10" "-12" "-11"].

(** The first two records of the series of [getSampleData]. *)
Definition januaryFirst : ProcessedDataItem :=
  {| date := Some 1735689600000; estimate := ofZ 40;
     fifthPercentile := ofZ 26; ninetyFifthPercentile := ofZ 60 |}.

Definition januaryFifteenth : ProcessedDataItem :=
  {| date := Some 1736899200000; estimate := ofZ 42;
     fifthPercentile := ofZ 28; ninetyFifthPercentile := ofZ 62 |}.

(** The datasets of a chart, in the order [processDataForChart] lists
    them, and two active elements on the percentile lines. *)
Definition sampleDatasets : list ChartDataset := [
  {| label := "5th Percentile"; data := [] |};
  {| label := "95th Percentile"; data := [] |};
  {| label := "Estimate"; data := [] |}
].

Definition activeAt (index : nat) (px py : Z) : ActiveElement :=
  {| datasetIndex := Some index; elementX := Some (ofZ px); elementY := Some (ofZ py) |}.

Definition percentileElements : list ActiveElement := [activeAt 1 10 40; activeAt 0 10 20].

(** [Number.prototype.toString] on the whole numbers below 10^21, the only
    numbers the evaluations print. *)
Definition NumberToString (n : number) : string :=
  match n with
  | NaN => "NaN"
  | PosInf => "Infinity"
  | NegInf => "-Infinity"
  | Fin q => pretty (Qfloor q)
  end.

(** The reader of the first tab of the sheet named sheet. *)
Definition sampleSource : Source := newSource "sheet" 0.

(** A network where the sheet itself answers with a status that is not one
    of success, the second proxy answers with [sampleCSV], and no other
    address can be reached. *)
Definition sampleFetch (url : string) : Settled Response :=
  if String.eqb url "https://docs.google.com/spreadsheets/d/sheet/export?format=csv&gid=0"
  then Fulfilled {| ok := false; text := Fulfilled "" |}
  else if String.eqb url
            ("https://corsproxy.io/?" +:+
             "https%3A%2F%2Fdocs.google.com%2Fspreadsheets%2Fd%2Fsheet%2Fexport%3Fformat%3Dcsv%26gid%3D0")
  then Fulfilled {| ok := true; text := Fulfilled sampleCSV |}
  else Rejected Value.

(** A network whose promises are all rejected with [undefined]. *)
Definition brokenFetch (url : string) : Settled Response := Rejected Nullish.

(** An active element of a dataset that the chart does not have. *)
Definition danglingElement : ActiveElement := activeAt 7 10 20.

(** The first record of the series of the first two rows of the sample
    data: the values of 15 February 2024 under the date of 1 December
    2023. *)
Definition flooredRecord : ProcessedDataItem :=
  {| date := Some 1701388800000; estimate := ofZ 48;
     fifthPercentile := ofZ 32; ninetyFifthPercentile := ofZ 68 |}.

(** A text whose header line has a cell [__proto__], for which the data
    line has no field left. *)
Definition protoCSV : string :=
  "Date,Estimate,__proto__" +:+ String newline "1/15/2024,45".

(** An active element without coordinates. *)
Definition unresolvedAt (index : nat) : ActiveElement :=
  {| datasetIndex := Some index; elementX := None; elementY := None |}.

(** Rows with a value beyond [2 ^ 53], and with the least positive
    number. *)
Definition largeRows : list DataRow := [sampleRow "1/15/2024" "47930761257688344" "0" "0"].

Definition tinyRows : list DataRow := [sampleRow "1/15/2024" "5e-324" "0" "0"].

(** A text whose header line names its first column date, in lower
    case. *)
Definition lowerCaseCSV : string :=
  "date,Estimate" +:+ String newline "1/15/2024,45".

End SampleHost.

(** ** The statements of the specification, in its own words *)

Module Spec.

Import JS EINDataReader.

(** A line is blank when it holds nothing but white space. *)
Definition nonBlankLines (csvText : string) : list string :=
  List.filter (fun line => negb (allWhiteSpace line)) (split newline csvText).

Definition headerCells (header : string) : list string :=
  map (fun cell => removeQuotes (trim cell)) (split comma header).

(** The fields of a data line: what the scanner reads from the line
    without the white space around it. *)
Definition fieldsOf (line : string) : list string := parseCSVLine (trim line).

(** The positions, counted from [offset], of the cells that read [name]. *)
Fixpoint positions (name : string) (offset : nat) (cells : list string) : list nat :=
  match cells with
  | [] => []
  | cell :: cells' =>
      (if String.eqb cell name then [offset] else []) ++ positions name (S offset) cells'
  end.

(** The value of column [name] in the row of a line of fields [fields]
    under the header cells [headers]: the field at the position of the last
    cell of that name, the empty string when the line has no field there;
    no value when no cell has the name. *)
Definition columnValue (headers fields : list string) (name : string) : option string :=
  (fun index => default "" (fields !! index)) <$> last (positions name 0 headers).

(** The line has a value for the column, and not the empty one. *)
Definition hasValue (headers fields : list string) (name : string) : bool :=
  match columnValue headers fields name with
  | Some (String _ _) => true
  | _ => false
  end.

(** [row] is the row of the fields [fields] under [headers]: it has the
    value of every column, but no column named [__proto__]. *)
Definition rowOf (headers fields : list string) (row : DataRow) : Prop :=
  forall name,
    row !! name = if String.eqb name "__proto__" then None else columnValue headers fields name.

(** A field written between quotes, each quote inside it doubled. *)
Fixpoint escapeQuotes (field : string) : string :=
  match field with
  | EmptyString => EmptyString
  | String c field' =>
      if Ascii.eqb c dquote then String dquote (String dquote (escapeQuotes field'))
      else String c (escapeQuotes field')
  end.

Definition quoted (field : string) : string :=
  String dquote (escapeQuotes field +:+ String dquote EmptyString).

(** The line of the quoted fields [field :: fields], separated by commas. *)
Fixpoint quotedLine (field : string) (fields : list string) : string :=
  match fields with
  | [] => quoted field
  | next :: fields' => quoted field +:+ String comma (quotedLine next fields')
  end.

Definition trimmed (s : string) : Prop :=
  startsWithWhiteSpace s = false /\ endsWithWhiteSpace s = false.

(** Year, month and day of the month of a record, in local time. *)
Definition calendarDay (LocalTZA : Z -> bool -> Z) (item : ProcessedDataItem)
  : option Z * option Z * option Z :=
  (getFullYear LocalTZA (date item), getMonth LocalTZA (date item), getDate LocalTZA (date item)).

Definition monthYear (LocalTZA : Z -> bool -> Z) (item : ProcessedDataItem)
  : option Z * option Z :=
  (getMonth LocalTZA (date item), getFullYear LocalTZA (date item)).

(** [a] is dated strictly before [b]. *)
Definition dateLt (a b : ProcessedDataItem) : Prop :=
  match date a, date b with
  | Some ta, Some tb => ta < tb
  | _, _ => False
  end.

(** Every estimate, low bound and high bound of a series. *)
Definition observedValues (series : list ProcessedDataItem) : list number :=
  flat_map (fun item => [estimate item; fifthPercentile item; ninetyFifthPercentile item]) series.

(** The record at position [i] is of month and year [pair] and carries a
    label that is not empty. *)
Definition labelledAt (LocalTZA : Z -> bool -> Z) (chart : ChartData) (i : nat)
    (pair : option Z * option Z) : Prop :=
  exists item text,
    rawData chart !! i = Some item /\ monthYear LocalTZA item = pair
    /\ labels chart !! i = Some text /\ text <> "".

(** The largest observed value, 0 for an empty series. *)
Definition observedMax (series : list ProcessedDataItem) : number :=
  match series with
  | [] => ofZ 0
  | _ => Math_max (observedValues series)
  end.

(** The text of a column parsed as a number, 0 where it is not one: the
    column is absent, or parseFloat finds no number at its front. *)
Definition numberOrZero (text : option string) : number :=
  match text with
  | Some s =>
      match parseFloat s with
      | NaN => ofZ 0
      | value => value
      end
  | None => ofZ 0
  end.

(** The three numeric fields are those of [row]. *)
Definition readFrom (row : DataRow) (estimate fifth ninetyFifth : number) : Prop :=
  estimate = numberOrZero (row !! "Estimate")
  /\ fifth = numberOrZero (row !! "5th Percentile")
  /\ ninetyFifth = numberOrZero (row !! "95th Percentile").

(** The three-letter abbreviation of a month, numbered from 0. *)
Definition monthAbbreviation (month : Z) : string :=
  match month with
  | 0 => "JAN"
  | 1 => "FEB"
  | 2 => "MAR"
  | 3 => "APR"
  | 4 => "MAY"
  | 5 => "JUN"
  | 6 => "JUL"
  | 7 => "AUG"
  | 8 => "SEP"
  | 9 => "OCT"
  | 10 => "NOV"
  | 11 => "DEC"
  | _ => ""
  end.

(** The floor of the retention window: the value of [minDate] after the
    two calls that move it. *)
Definition windowFloor (DateParse : string -> TimeValue) (LocalTZA : Z -> bool -> Z)
    (rawData : list DataRow) : TimeValue :=
  let st := mapRows DateParse rawData in deref (moveMinDate LocalTZA st) (minDate st).

(** The record has a valid date. *)
Definition validDate (item : ProcessedDataItem) : Prop := exists t, date item = Some t.

(** Ascending by an integer key. *)
Definition keyLe {A : Type} (key : A -> Z) (a b : A) : Prop := key a <= key b.

Section First.

Context {A : Type}.
Variable key : A -> string.
Variable name : A -> string.

(** The elements of [l] whose key is neither in [seen] nor the key of an
    element further left. *)
Fixpoint firstsNotIn (seen : gset string) (l : list A) : list A :=
  match l with
  | [] => []
  | a :: l' =>
      if decide (key a ∈ seen) then firstsNotIn seen l'
      else a :: firstsNotIn ({[key a]} ∪ seen) l'
  end.

(** For each element of [l], its name when its key is neither in [seen] nor
    the key of an element further left, the empty string otherwise. *)
Fixpoint labelsNotIn (seen : gset string) (l : list A) : list string :=
  match l with
  | [] => []
  | a :: l' =>
      (if decide (key a ∈ seen) then "" else name a)
        :: labelsNotIn (if decide (key a ∈ seen) then seen else {[key a]} ∪ seen) l'
  end.

End First.

(** The values for which the scale is stated: finite, [2 ^ 50] at most,
    and not between 0 and [2 ^ -1021]. *)
Definition inScaleRange (v : number) : bool :=
  match v with
  | Fin q => Qle_bool q (pow2 50) && (Qle_bool q 0 || Qle_bool (pow2 (-1021)) q)
  | _ => false
  end.

(** The step and the number of steps up to the axis maximum for a finite
    running maximum [m], in exact arithmetic: ceil(ceil(m) / 5 + 1) and
    ceil(m / step). *)
Definition stepOf (m : Q) : Z :=
  Qceiling (inject_Z (Qceiling m) / inject_Z 5 + inject_Z 1).

Definition ticksOf (m : Q) : Z := Qceiling (m / inject_Z (stepOf m)).

(** *** The tooltip anchor selector *)

(** The three named series of the chart. *)
Inductive Band : Type :=
| Estimate
| LowBound
| HighBound.

#[global] Instance Band_eq_dec : EqDecision Band.
Proof. solve_decision. Defined.

(** The series an active element belongs to, by the title of its dataset. *)
Definition bandOf (this : t) (chartDatasets : list ChartDataset) (el : ActiveElement)
  : option Band :=
  match datasetIndex el with
  | None => None
  | Some index =>
      match chartDatasets !! index with
      | None => None
      | Some dataset =>
          if String.eqb (label dataset) (estimateTitleText this) then Some Estimate
          else if String.eqb (label dataset) (fifthPercentileTitleText this) then Some LowBound
          else if String.eqb (label dataset) (ninetyFifthPercentileTitleText this) then Some HighBound
          else None
      end
  end.

Section Anchor.

Variable band : ActiveElement -> option Band.

Definition inBand (s : Band) (el : ActiveElement) : bool := bool_decide (band el = Some s).

(** The element has resolved pixel coordinates: an x and a y. *)
Definition resolvedCoordinates (el : ActiveElement) : bool :=
  match elementX el, elementY el with
  | Some _, Some _ => true
  | _, _ => false
  end.

(** A pixel coordinate of an element; one that is not resolved is not a
    number. *)
Definition pixel (coordinate : option number) : number :=
  match coordinate with
  | Some value => value
  | None => NaN
  end.

Definition position (el : ActiveElement) : Point :=
  {| x := pixel (elementX el); y := pixel (elementY el) |}.

(** The fixed visual bias: 0 along x, -10 along y. *)
Definition withBias (p : Point) : Point :=
  {| x := add (x p) (ofZ 0); y := add (y p) (ofZ (-10)) |}.

Definition midpoint (a b : number) : number := div (add a b) (ofZ 2).

Definition average (coordinates : list number) : number :=
  div (foldl add (ofZ 0) coordinates) (ofZ (Z.of_nat (length coordinates))).

Definition centroid (activeElements : list ActiveElement) : Point :=
  {| x := average (map (fun el => pixel (elementX el)) activeElements);
     y := average (map (fun el => pixel (elementY el)) activeElements) |}.

(** The third and fourth rules: the percentile elements, else the mean of
    all; [None] where the rules do not say, that is for several active
    elements of one percentile series. *)
Definition percentileAnchor (activeElements : list ActiveElement) : option Point :=
  match List.filter (inBand LowBound) activeElements,
        List.filter (inBand HighBound) activeElements with
  | [low], [high] =>
      match List.find (fun el => inBand LowBound el || inBand HighBound el) activeElements with
      | Some first =>
          Some (withBias
                  {| x := pixel (elementX first);
                     y := midpoint (pixel (elementY low)) (pixel (elementY high)) |})
      | None => None
      end
  | [only], [] | [], [only] => Some (withBias (position only))
  | [], [] => Some (withBias (centroid activeElements))
  | _, _ => None
  end.

(** The four rules in their order of priority. *)
Definition selectAnchor (activeElements : list ActiveElement) (fallbackCursor : Point)
  : option Point :=
  match activeElements with
  | [] => Some (withBias fallbackCursor)
  | _ :: _ =>
      match List.find (fun el => inBand Estimate el && resolvedCoordinates el) activeElements with
      | Some el => Some (withBias (position el))
      | None => percentileAnchor activeElements
      end
  end.

End Anchor.

(** The two tests of the positioner on an element whose dataset exists. *)
Definition estimateTest (this : t) (chartDatasets : list ChartDataset) (el : ActiveElement)
  : bool :=
  match datasetIndex el with
  | None => false
  | Some index =>
      match chartDatasets !! index with
      | Some dataset => String.eqb (label dataset) (estimateTitleText this)
      | None => false
      end
  end.

Definition percentileTest (this : t) (chartDatasets : list ChartDataset) (el : ActiveElement)
  : bool :=
  match datasetIndex el with
  | None => false
  | Some index =>
      match chartDatasets !! index with
      | Some dataset =>
          String.eqb (label dataset) (fifthPercentileTitleText this)
          || String.eqb (label dataset) (ninetyFifthPercentileTitleText this)
      | None => false
      end
  end.

(** The dataset of the element, when it names one, is a dataset of the
    chart. *)
Definition inRange (chartDatasets : list ChartDataset) (el : ActiveElement) : Prop :=
  forall index, datasetIndex el = Some index -> (index < length chartDatasets)%nat.

(** An element with an x coordinate has a y coordinate as well. *)
Definition paired (el : ActiveElement) : Prop :=
  is_Some (elementX el) -> is_Some (elementY el).

End Spec.

(** ** Notions to state what the reader does *)

Module Notions.

Import JS EINDataReader.

(** *** The rows of parseCSV *)

(** The row that the body of the loop builds for a line. *)
Definition rowOfLine (headers : list string) (line : string) : DataRow :=
  makeRow headers (parseCSVLine (trim line)).

(** *** Line ends *)

Definition carriageReturn : ascii := "013"%char.

(** The text with a carriage return put before every line feed. *)
Fixpoint withCarriageReturns (s : string) : string :=
  match s with
  | EmptyString => EmptyString
  | String c s' =>
      if Ascii.eqb c newline
      then String carriageReturn (String newline (withCarriageReturns s'))
      else String c (withCarriageReturns s')
  end.

(** [padded] is [line] with white space after it. *)
Definition trailing (line padded : string) : Prop :=
  exists space, allWhiteSpace space = true /\ padded = line +:+ space.

(** The state of the scanner before the first character of a line. *)
Definition scanStart : ScanState := {| values := []; current := ""; inQuotes := false |}.

(** *** The positioner *)

(** The element has an x coordinate: what the positioner tests on the
    Estimate element it found. *)
Definition resolved (el : ActiveElement) : bool :=
  match elementX el with
  | Some _ => true
  | None => false
  end.

(** *** The store of dates *)

(** What [map] keeps true of the store: [minDate] is an address of the
    store, the first object is the one made from the epoch, and the object
    [minDate] is bound to holds a time value that is not negative. *)
Definition mapInvariant (st : MapState) : Prop :=
  (minDate st < length (heap st))%nat
  /\ deref (heap st) 0%nat = epoch
  /\ exists m, deref (heap st) (minDate st) = Some m /\ 0 <= m.

(** The time value of [minDate] when [map] is over. *)
Definition latestDate (DateParse : string -> TimeValue) (rawData : list DataRow) : TimeValue :=
  let st := mapRows DateParse rawData in deref (heap st) (minDate st).

(** [d.setMonth(d.getMonth() - 2); d.setDate(1)] on a date of time value
    [d]: the time value it has afterwards. *)
Definition twoMonthsBack (LocalTZA : Z -> bool -> Z) (d : TimeValue) : TimeValue :=
  setDate LocalTZA (setMonth LocalTZA d ((fun m => m - 2) <$> getMonth LocalTZA d)) (Some 1).

(** The row has no date that the host can read. *)
Definition undated (DateParse : string -> TimeValue) (row : DataRow) : bool :=
  isInvalid (newDate DateParse (row !! "Date")).

(** The address [a] of a cell once one more cell stands at address [k]. *)
Definition shiftAddress (k a : nat) : nat := if (a <? k)%nat then a else S a.

Definition shiftItem (k : nat) (item : MappedItem) : MappedItem :=
  {| dateRef := shiftAddress k (dateRef item);
     mappedEstimate := mappedEstimate item;
     mappedFifthPercentile := mappedFifthPercentile item;
     mappedNinetyFifthPercentile := mappedNinetyFifthPercentile item |}.

(** [st'] is [st] with one more cell in the store, an invalid date at
    address [k] that the record [extra], and no other, refers to. *)
Definition withInvalid (k : nat) (extra : MappedItem) (st st' : MapState) : Prop :=
  (k <= length (heap st))%nat
  /\ heap st' = take k (heap st) ++ None :: drop k (heap st)
  /\ minDate st' = shiftAddress k (minDate st)
  /\ dateRef extra = k
  /\ exists before after,
       processedData st = before ++ after
       /\ processedData st' = map (shiftItem k) before ++ extra :: map (shiftItem k) after.

(** *** The sources of fetchData *)

(** The addresses that fetchData may ask, in the order it asks them. *)
Definition addresses (this : Source) : list string :=
  csvUrl this :: map (fun proxy => proxy +:+ encodeURIComponent (csvUrl this)) (corsProxies this).

(** The rows that an address gives: it answers, the answer is [ok], its
    text can be read and parseCSV accepts it. *)
Definition usable (fetch : string -> Settled Response) (url : string) : option (list DataRow) :=
  match fetch url with
  | Fulfilled {| ok := true; text := Fulfilled csvText |} =>
      match parseCSV csvText with
      | Ok rows => Some rows
      | Throw _ => None
      end
  | _ => None
  end.

(** Asking the address fails with [null] or [undefined] as the reason:
    the promise of [fetch], or that of [text()] on an answer that is [ok],
    is rejected with one of the two. *)
Definition failsNullish (fetch : string -> Settled Response) (url : string) : bool :=
  match fetch url with
  | Rejected Nullish => true
  | Fulfilled {| ok := true; text := Rejected Nullish |} => true
  | _ => false
  end.

End Notions.

(** ** Strings *)

Section StringFacts.

Import JS.

Lemma trimStart_start (s : string) : startsWithWhiteSpace (trimStart s) = false.
Proof.
  induction s as [|c s IH]; simpl; [reflexivity|].
  destruct (isWhiteSpace c) eqn:Hc; [exact IH|]. simpl. exact Hc.
Qed.

Lemma trimEnd_end (s : string) : endsWithWhiteSpace (trimEnd s) = false.
Proof.
  induction s as [|c s IH]; simpl; [reflexivity|].
  destruct (trimEnd s) as [|c' t] eqn:Ht.
  - destruct (isWhiteSpace c) eqn:Hc; simpl; [reflexivity|exact Hc].
  - exact IH.
Qed.

Lemma trimEnd_start (s : string) :
  startsWithWhiteSpace s = false -> startsWithWhiteSpace (trimEnd s) = false.
Proof.
  destruct s as [|c s]; simpl; [reflexivity|]. intros Hc.
  destruct (trimEnd s); [rewrite Hc|]; simpl; assumption.
Qed.

Lemma trim_trimmed (s : string) : Spec.trimmed (trim s).
Proof.
  split; unfold trim.
  - apply trimEnd_start, trimStart_start.
  - apply trimEnd_end.
Qed.

Lemma empty_trimmed : Spec.trimmed "".
Proof. now split. Qed.


Lemma trimEnd_blank (s : string) : truthy (trimEnd s) = negb (allWhiteSpace s).
Proof.
  induction s as [|c s IH]; simpl; [reflexivity|].
  destruct (trimEnd s) as [|c' t] eqn:Ht; simpl in *.
  - destruct (isWhiteSpace c); simpl; [exact IH|reflexivity].
  - rewrite <- (negb_involutive (allWhiteSpace s)), <- IH. simpl.
    now rewrite andb_false_r.
Qed.

Lemma trimStart_blank (s : string) : allWhiteSpace (trimStart s) = allWhiteSpace s.
Proof.
  induction s as [|c s IH]; simpl; [reflexivity|].
  destruct (isWhiteSpace c) eqn:Hc; simpl; [exact IH|]. now rewrite Hc.
Qed.

(** A line survives the filter of [parseCSV] exactly when it is not blank. *)
Lemma trim_truthy (s : string) : truthy (trim s) = negb (allWhiteSpace s).
Proof. unfold trim. now rewrite trimEnd_blank, trimStart_blank. Qed.

Lemma removeQuotes_id (s : string) : hasQuote s = false -> removeQuotes s = s.
Proof.
  induction s as [|c s IH]; simpl; [reflexivity|].
  destruct (Ascii.eqb c dquote); simpl; [discriminate|].
  intros H. now rewrite IH.
Qed.

Lemma append_cons (c : ascii) (a b : string) : String c a +:+ b = String c (a +:+ b).
Proof. reflexivity. Qed.

Lemma append_nil_l (a : string) : "" +:+ a = a.
Proof. reflexivity. Qed.

Lemma append_assoc (a b c : string) : (a +:+ b) +:+ c = a +:+ (b +:+ c).
Proof.
  induction a as [|ch a IH]; [reflexivity|].
  rewrite !append_cons. now rewrite IH.
Qed.

Lemma append_nil_r (a : string) : a +:+ "" = a.
Proof.
  induction a as [|ch a IH]; [reflexivity|].
  rewrite append_cons. now rewrite IH.
Qed.

End StringFacts.

Create HintDb trimmed.
#[global] Hint Resolve trim_trimmed empty_trimmed : trimmed.
#[global] Hint Constructors Forall : trimmed.

(** ** The record parser *)

Section ParserFacts.

Import JS EINDataReader Spec Notions SampleHost.

Lemma scanLoop_cons (char : ascii) (rest : string) (st : ScanState) :
  scanLoop (String char rest) st =
  let '(st', skip) := scanStep st char (nextOf rest) in
  if skip then scanLoop (stringTail rest) st' else scanLoop rest st'.
Proof.
  simpl. destruct (scanStep st char (nextOf rest)) as [st' skip].
  destruct rest as [|c rest']; simpl; [now destruct skip|reflexivity].
Qed.

Lemma appendChar_append (cur : string) (c : ascii) (w : string) :
  appendChar cur c +:+ w = cur +:+ String c w.
Proof. unfold appendChar. now rewrite append_assoc. Qed.

(** Inside a quoted span the scanner copies an escaped field up to the
    quote that closes it. *)
Lemma scanLoop_quoted_body (w : string) :
  forall (vs : list string) (cur rest : string),
    nextOf rest <> Some dquote ->
    scanLoop (escapeQuotes w +:+ String dquote rest)
             {| values := vs; current := cur; inQuotes := true |}
    = scanLoop rest {| values := vs; current := cur +:+ w; inQuotes := false |}.
Proof.
  induction w as [|c w IH]; intros vs cur rest Hrest.
  - rewrite append_nil_r. cbn [escapeQuotes]. rewrite append_nil_l, scanLoop_cons.
    unfold scanStep. cbn [inQuotes values current].
    rewrite Ascii.eqb_refl, bool_decide_eq_false_2 by assumption. reflexivity.
  - cbn [escapeQuotes]. destruct (Ascii.eqb c dquote) eqn:Hc.
    + apply Ascii.eqb_eq in Hc. subst c.
      rewrite !append_cons, scanLoop_cons. unfold scanStep. cbn [inQuotes values current nextOf].
      rewrite Ascii.eqb_refl, bool_decide_eq_true_2 by reflexivity.
      cbn [andb stringTail]. rewrite IH by assumption. now rewrite appendChar_append.
    + rewrite append_cons, scanLoop_cons. unfold scanStep. cbn [inQuotes values current].
      rewrite Hc, andb_false_r. rewrite IH by assumption. now rewrite appendChar_append.
Qed.

Lemma scanLoop_quoted (field rest : string) (vs : list string) :
  nextOf rest <> Some dquote ->
  scanLoop (quoted field +:+ rest) {| values := vs; current := ""; inQuotes := false |}
  = scanLoop rest {| values := vs; current := field; inQuotes := false |}.
Proof.
  intros Hrest. unfold quoted.
  rewrite append_cons, append_assoc, append_cons, append_nil_l, scanLoop_cons.
  unfold scanStep. cbn [inQuotes values current].
  rewrite Ascii.eqb_refl. cbn [andb negb].
  rewrite scanLoop_quoted_body by assumption. now rewrite append_nil_l.
Qed.

Lemma scanLoop_comma (rest cur : string) (vs : list string) :
  scanLoop (String comma rest) {| values := vs; current := cur; inQuotes := false |}
  = scanLoop rest {| values := vs ++ [trim cur]; current := ""; inQuotes := false |}.
Proof. rewrite scanLoop_cons. reflexivity. Qed.

Lemma scanLoop_quotedLine (fields : list string) :
  forall (field : string) (vs : list string),
    let st := scanLoop (quotedLine field fields)
                       {| values := vs; current := ""; inQuotes := false |} in
    values st ++ [trim (current st)] = vs ++ map trim (field :: fields).
Proof.
  induction fields as [|next fields IH]; intros field vs; cbn zeta.
  - cbn [quotedLine]. rewrite <- (append_nil_r (quoted field)).
    rewrite scanLoop_quoted by discriminate. reflexivity.
  - cbn [quotedLine]. rewrite scanLoop_quoted by discriminate.
    rewrite scanLoop_comma. specialize (IH next (vs ++ [trim field])). cbn zeta in IH.
    rewrite IH. now rewrite <- app_assoc.
Qed.

(** C6: in a quoted span a comma belongs to the field and a doubled quote
    stands for one quote character; any other quote switches the quoted
    state; outside a quoted span a comma ends the field. So a line of quoted
    fields, whatever commas and quotes they hold, parses to those fields
    (trimmed), and a value written as 5,000 between quotes is one token. *)
Theorem parseCSVLine_quoted_fields :
  (forall vs cur next,
     scanStep {| values := vs; current := cur; inQuotes := true |} comma next
     = ({| values := vs; current := appendChar cur comma; inQuotes := true |}, false))
  /\ (forall vs cur next,
     scanStep {| values := vs; current := cur; inQuotes := false |} comma next
     = ({| values := vs ++ [trim cur]; current := ""; inQuotes := false |}, false))
  /\ (forall vs cur next,
     scanStep {| values := vs; current := cur; inQuotes := true |} dquote next
     = if bool_decide (next = Some dquote)
       then ({| values := vs; current := appendChar cur dquote; inQuotes := true |}, true)
       else ({| values := vs; current := cur; inQuotes := false |}, false))
  /\ (forall vs cur next,
     scanStep {| values := vs; current := cur; inQuotes := false |} dquote next
     = ({| values := vs; current := cur; inQuotes := true |}, false))
  /\ (forall field fields,
     parseCSVLine (quotedLine field fields) = map trim (field :: fields))
  /\ parseCSVLine ("1/15/2024," +:+ quoted "5,000" +:+ ",28,65")
     = ["1/15/2024"; "5,000"; "28"; "65"].
Proof.
  refine (conj _ (conj _ (conj _ (conj _ (conj _ _))))).
  - intros vs cur next. unfold scanStep. cbn [inQuotes]. destruct next as [c|]; reflexivity.
  - intros vs cur next. reflexivity.
  - intros vs cur next. unfold scanStep. cbn [inQuotes values current].
    rewrite Ascii.eqb_refl. cbn [andb]. now destruct (bool_decide (next = Some dquote)).
  - intros vs cur next. reflexivity.
  - intros field fields. unfold parseCSVLine.
    apply (scanLoop_quotedLine fields field []).
  - vm_compute. reflexivity.
Qed.

(** *** Rows *)

Lemma makeRow_fold (headers values : list string) :
  makeRow headers values = foldl (insertColumn values) ∅ (imap pair headers).
Proof. reflexivity. Qed.

Lemma setProperty_other (row : DataRow) (key value name : string) :
  key <> name -> setProperty row key value !! name = row !! name.
Proof.
  intros Hne. unfold setProperty. destruct (String.eqb key "__proto__"); [reflexivity|].
  now apply lookup_insert_ne.
Qed.

Lemma setProperty_same (row : DataRow) (key value : string) :
  key <> "__proto__" -> setProperty row key value !! key = Some value.
Proof.
  intros Hne. unfold setProperty. apply String.eqb_neq in Hne as ->. apply lookup_insert_eq.
Qed.

Lemma setProperty_proto (row : DataRow) (key value : string) :
  setProperty row key value !! "__proto__" = row !! "__proto__".
Proof.
  unfold setProperty. destruct (String.eqb_spec key "__proto__") as [_|Hne]; [reflexivity|].
  now apply lookup_insert_ne.
Qed.

Lemma foldl_insertColumn_other (values : list string) (name : string) (columns : list (nat * string)) :
  forall row : DataRow,
    name ∉ columns.*2 ->
    foldl (insertColumn values) row columns !! name = row !! name.
Proof.
  induction columns as [|[index header] columns IH]; intros row Hname; [reflexivity|].
  cbn [foldl insertColumn]. rewrite fmap_cons, not_elem_of_cons in Hname.
  destruct Hname as [Hne Hname]. rewrite IH by assumption.
  now apply setProperty_other.
Qed.

Lemma imap_pair_snd (headers : list string) (k : nat) :
  (imap (fun i header => (k + i, header)%nat) headers).*2 = headers.
Proof.
  revert k. induction headers as [|header headers IH]; intros k; [reflexivity|].
  rewrite imap_cons, fmap_cons. cbn [snd]. f_equal.
  rewrite <- (IH (S k)) at 2. f_equal. apply imap_ext. intros i h _. cbn. f_equal. lia.
Qed.

Lemma foldl_insertColumn_last (values : list string) (headers : list string) :
  forall (k index : nat) (name : string) (row : DataRow),
    name <> "__proto__" ->
    headers !! index = Some name ->
    name ∉ drop (S index) headers ->
    foldl (insertColumn values) row (imap (fun i header => (k + i, header)%nat) headers) !! name
    = Some (valueAt values (k + index)).
Proof.
  induction headers as [|header headers IH]; intros k index name row Hproto Hlookup Hlast.
  - discriminate.
  - rewrite imap_cons. cbn [foldl insertColumn]. destruct index as [|index].
    + injection Hlookup as ->. cbn [drop] in Hlast.
      rewrite (imap_ext _ (fun i h => (S k + i, h)%nat)) by (intros; cbn; f_equal; lia).
      rewrite foldl_insertColumn_other by now rewrite imap_pair_snd.
      rewrite Nat.add_0_r. now apply setProperty_same.
    + cbn in Hlookup. cbn [drop] in Hlast.
      rewrite (imap_ext _ (fun i h => (S k + i, h)%nat)) by (intros; cbn; f_equal; lia).
      rewrite (IH (S k) index name) by assumption. f_equal. f_equal. lia.
Qed.

(** The value of a column whose name is not used again further right. *)
Lemma makeRow_lookup (headers values : list string) (index : nat) (name : string) :
  name <> "__proto__" ->
  headers !! index = Some name ->
  name ∉ drop (S index) headers ->
  makeRow headers values !! name = Some (valueAt values index).
Proof.
  intros Hproto Hlookup Hlast. rewrite makeRow_fold.
  rewrite (imap_ext _ (fun i h => (0 + i, h)%nat)) by reflexivity.
  now rewrite (foldl_insertColumn_last values headers 0 index name).
Qed.

Lemma valueAt_default (values : list string) (index : nat) :
  valueAt values index = default "" (values !! index).
Proof. unfold valueAt. destruct (values !! index) as [[|c v]|]; reflexivity. Qed.

Lemma foldl_insertColumn_proto (values : list string) (columns : list (nat * string)) :
  forall row : DataRow,
    foldl (insertColumn values) row columns !! "__proto__" = row !! "__proto__".
Proof.
  induction columns as [|[index header] columns IH]; intros row; [reflexivity|].
  cbn [foldl insertColumn]. rewrite IH. apply setProperty_proto.
Qed.

(** What the loop over the header cells leaves under a name: the value at
    the position of the last cell of that name. *)
Lemma foldl_insertColumn_positions (values : list string) (name : string) (headers : list string) :
  forall (k : nat) (row : DataRow),
    name <> "__proto__" ->
    foldl (insertColumn values) row (imap (fun i header => (k + i, header)%nat) headers) !! name
    = match last (positions name k headers) with
      | Some index => Some (valueAt values index)
      | None => row !! name
      end.
Proof.
  induction headers as [|header headers IH]; intros k row Hproto; [reflexivity|].
  rewrite imap_cons. cbn [foldl insertColumn positions].
  rewrite (imap_ext _ (fun i h => (S k + i, h)%nat)) by (intros; cbn; f_equal; lia).
  rewrite IH by assumption. rewrite last_app.
  destruct (last (positions name (S k) headers)) as [index|]; [reflexivity|].
  rewrite Nat.add_0_r. destruct (String.eqb_spec header name) as [->|Hne].
  - cbn [last]. now apply setProperty_same.
  - cbn [last]. now apply setProperty_other.
Qed.

(** The row that the reader builds is the row of the fields under the
    header cells. *)
Lemma makeRow_rowOf (headers values : list string) : rowOf headers values (makeRow headers values).
Proof.
  intros name. rewrite makeRow_fold.
  destruct (String.eqb_spec name "__proto__") as [->|Hne].
  - now rewrite foldl_insertColumn_proto.
  - rewrite (imap_ext _ (fun i h => (0 + i, h)%nat)) by reflexivity.
    rewrite foldl_insertColumn_positions by assumption. unfold columnValue.
    destruct (last (positions name 0 headers)) as [index|]; [|reflexivity].
    cbn [fmap option_fmap option_map]. now rewrite valueAt_default.
Qed.

Lemma rowOf_truthyField (headers values : list string) (row : DataRow) (name : string) :
  rowOf headers values row ->
  name <> "__proto__" ->
  truthyField row name = hasValue headers values name.
Proof.
  intros Hrow Hne. unfold truthyField, hasValue. rewrite (Hrow name).
  apply String.eqb_neq in Hne as ->.
  now destruct (columnValue headers values name) as [[|c v]|].
Qed.

(** *** parseCSV *)

Lemma parseCSV_lines (csvText : string) :
  List.filter (fun line => truthy (trim line)) (split newline csvText) = nonBlankLines csvText.
Proof. unfold nonBlankLines. apply List.filter_ext. intros line. apply trim_truthy. Qed.

Lemma nonBlankLines_nonblank (csvText : string) :
  Forall (fun line => truthy (trim line) = true) (nonBlankLines csvText).
Proof.
  rewrite <- parseCSV_lines. apply List.Forall_forall. intros line Hin.
  now apply List.filter_In in Hin.
Qed.

Lemma foldl_pushRow (headers : list string) (dataLines : list string) :
  forall data : list DataRow,
    Forall (fun line => truthy (trim line) = true) dataLines ->
    foldl (pushRow headers) data dataLines
    = data ++ List.filter hasDateAndEstimate (map (rowOfLine headers) dataLines).
Proof.
  induction dataLines as [|line dataLines IH]; intros data Hlines.
  - cbn. now rewrite app_nil_r.
  - inversion Hlines as [|? ? Hline Hrest]; subst.
    cbn [foldl map List.filter]. rewrite IH by assumption.
    unfold pushRow at 1. rewrite Hline. fold (rowOfLine headers line).
    destruct (hasDateAndEstimate (rowOfLine headers line)); [|reflexivity].
    now rewrite <- app_assoc.
Qed.

Lemma parseCSV_too_short (csvText : string) :
  (length (nonBlankLines csvText) < 2)%nat ->
  parseCSV csvText = Throw "CSV data appears to be empty or invalid".
Proof.
  intros Hlen. unfold parseCSV. rewrite parseCSV_lines.
  now apply Nat.ltb_lt in Hlen as ->.
Qed.

Lemma parseCSV_header_and_rows (csvText : string) :
  (2 <= length (nonBlankLines csvText))%nat ->
  exists header dataLines,
    nonBlankLines csvText = header :: dataLines
    /\ parseCSV csvText
       = Ok (List.filter hasDateAndEstimate (map (rowOfLine (headerCells header)) dataLines)).
Proof.
  intros Hlen. unfold parseCSV. rewrite parseCSV_lines.
  apply Nat.ltb_ge in Hlen as Hlen'. rewrite Hlen'.
  pose proof (nonBlankLines_nonblank csvText) as Hlines.
  destruct (nonBlankLines csvText) as [|header dataLines]; [cbn in Hlen; lia|].
  exists header, dataLines. split; [reflexivity|].
  cbn [List.nth tail]. fold (headerCells header).
  apply Forall_cons in Hlines as [_ Hlines]. f_equal.
  now apply (foldl_pushRow (headerCells header) dataLines []).
Qed.

(** The rows that are kept are the rows of the lines that have a Date and
    an Estimate. *)
Lemma kept_rows (headers dataLines : list string) :
  Forall2 (fun line row => rowOf headers (fieldsOf line) row)
    (List.filter (fun line => hasValue headers (fieldsOf line) "Date"
                              && hasValue headers (fieldsOf line) "Estimate") dataLines)
    (List.filter hasDateAndEstimate (map (rowOfLine headers) dataLines)).
Proof.
  induction dataLines as [|line dataLines IH]; [constructor|].
  cbn [map List.filter].
  pose proof (makeRow_rowOf headers (fieldsOf line)) as Hrow. fold (rowOfLine headers line) in Hrow.
  unfold hasDateAndEstimate at 1.
  rewrite !(rowOf_truthyField headers (fieldsOf line)) by (exact Hrow || discriminate).
  destruct (hasValue _ _ "Date" && hasValue _ _ "Estimate"); [|exact IH].
  now constructor.
Qed.

(** C7 (as amended): with fewer than two lines that are not blank, parseCSV
    throws; with two or more it returns, for the first such line as header,
    one row for each of the other such lines that has a Date and an Estimate
    that are not empty, in their order; the row holds, under every name of
    the header but [__proto__], the field of the line at the position of the
    last header cell of that name, and the empty string where the line has
    no field left; it holds nothing else. The fields of a line are what the
    scanner of C6 reads from it. *)
Theorem parseCSV_rows (csvText : string) :
  ((length (nonBlankLines csvText) < 2)%nat ->
     parseCSV csvText = Throw "CSV data appears to be empty or invalid")
  /\ ((2 <= length (nonBlankLines csvText))%nat ->
      exists header dataLines rows,
        nonBlankLines csvText = header :: dataLines
        /\ parseCSV csvText = Ok rows
        /\ Forall2 (fun line row => rowOf (headerCells header) (fieldsOf line) row)
             (List.filter
                (fun line => hasValue (headerCells header) (fieldsOf line) "Date"
                             && hasValue (headerCells header) (fieldsOf line) "Estimate")
                dataLines)
             rows).
Proof.
  split; [apply parseCSV_too_short|].
  intros Hlen. destruct (parseCSV_header_and_rows csvText Hlen) as (header & dataLines & Hlines & Hrows).
  exists header, dataLines. eexists. split; [exact Hlines|]. split; [exact Hrows|].
  apply kept_rows.
Qed.

Lemma parseCSV_rows_witness :
  parseCSV "Date,Estimate" = Throw "CSV data appears to be empty or invalid"
  /\ exists header dataLines rows,
       nonBlankLines sampleCSV = header :: dataLines
       /\ parseCSV sampleCSV = Ok rows
       /\ Forall2 (fun line row => rowOf (headerCells header) (fieldsOf line) row)
            (List.filter
               (fun line => hasValue (headerCells header) (fieldsOf line) "Date"
                            && hasValue (headerCells header) (fieldsOf line) "Estimate")
               dataLines)
            rows.
Proof.
  assert (length (nonBlankLines "Date,Estimate") < 2)%nat as Hshort by (vm_compute; lia).
  assert (2 <= length (nonBlankLines sampleCSV))%nat as Hlong by (vm_compute; lia).
  exact (conj (proj1 (parseCSV_rows "Date,Estimate") Hshort)
              (proj2 (parseCSV_rows sampleCSV) Hlong)).
Defined.

(** *** White space around keys and values *)

Lemma scanStep_trimmed (st : ScanState) (char : ascii) (nextChar : option ascii) :
  Forall trimmed (values st) ->
  Forall trimmed (values (scanStep st char nextChar).1).
Proof.
  intros Hst. unfold scanStep.
  destruct (Ascii.eqb char dquote).
  - now destruct (inQuotes st && bool_decide (nextChar = Some dquote)).
  - destruct (Ascii.eqb char comma && negb (inQuotes st)); [|exact Hst].
    cbn [fst values]. apply Forall_app. split; auto with trimmed.
Qed.

Lemma scanLoop_trimmed (n : nat) :
  forall (line : string) (st : ScanState),
    (String.length line <= n)%nat ->
    Forall trimmed (values st) ->
    Forall trimmed (values (scanLoop line st)).
Proof.
  induction n as [|n IH]; intros [|char rest] st Hlen Hst; try exact Hst.
  - cbn in Hlen. lia.
  - rewrite scanLoop_cons. pose proof (scanStep_trimmed st char (nextOf rest) Hst) as Hstep.
    destruct (scanStep st char (nextOf rest)) as [st' skip]. cbn [fst] in Hstep.
    cbn [String.length] in Hlen. destruct skip; apply IH; try assumption; [|lia].
    destruct rest; cbn in *; lia.
Qed.

(** Every field that [parseCSVLine] returns is trimmed. *)
Lemma parseCSVLine_trimmed (line : string) : Forall trimmed (parseCSVLine line).
Proof.
  unfold parseCSVLine. apply Forall_app. split.
  - apply (scanLoop_trimmed (String.length line)); [lia|constructor].
  - auto with trimmed.
Qed.

Lemma valueAt_trimmed (values : list string) (index : nat) :
  Forall trimmed values -> trimmed (valueAt values index).
Proof.
  intros Hvalues. unfold valueAt.
  destruct (values !! index) as [v|] eqn:Hv; [|auto with trimmed].
  destruct (truthy v); [|auto with trimmed].
  rewrite Forall_forall in Hvalues. apply Hvalues. eapply list_elem_of_lookup_2, Hv.
Qed.

Lemma foldl_insertColumn_lookup (values : list string) (columns : list (nat * string)) :
  forall (row : DataRow) (key value : string),
    foldl (insertColumn values) row columns !! key = Some value ->
    row !! key = Some value
    \/ (key ∈ columns.*2 /\ exists index, value = valueAt values index).
Proof.
  induction columns as [|[index header] columns IH]; intros row key value Hlookup.
  - now left.
  - cbn [foldl insertColumn] in Hlookup. apply IH in Hlookup as [Hrow|[Hkey Hvalue]].
    + destruct (decide (header = key)) as [->|Hne].
      * destruct (decide (key = "__proto__")) as [->|Hproto].
        -- rewrite setProperty_proto in Hrow. now left.
        -- rewrite setProperty_same in Hrow by assumption. injection Hrow as <-.
           right. split; [rewrite fmap_cons; apply list_elem_of_here|eauto].
      * rewrite setProperty_other in Hrow by assumption. now left.
    + right. split; [rewrite fmap_cons; now apply list_elem_of_further|exact Hvalue].
Qed.

(** A column of a row is named by a header cell and holds a value of the
    line, or the empty string. *)
Lemma makeRow_lookup_inv (headers values : list string) (key value : string) :
  makeRow headers values !! key = Some value ->
  key ∈ headers /\ exists index, value = valueAt values index.
Proof.
  unfold makeRow. rewrite (imap_ext _ (fun i h => (0 + i, h)%nat)) by reflexivity.
  intros Hlookup. apply foldl_insertColumn_lookup in Hlookup as [Hempty|[Hkey Hvalue]].
  - now rewrite lookup_empty in Hempty.
  - rewrite imap_pair_snd in Hkey. now split.
Qed.

Lemma hasQuote_trimStart (s : string) : hasQuote s = false -> hasQuote (trimStart s) = false.
Proof.
  induction s as [|c s IH]; [reflexivity|]. cbn [trimStart]. intros Hs.
  destruct (isWhiteSpace c); [|exact Hs]. apply IH. cbn in Hs.
  now apply orb_false_iff in Hs.
Qed.

Lemma hasQuote_trimEnd (s : string) : hasQuote s = false -> hasQuote (trimEnd s) = false.
Proof.
  induction s as [|c s IH]; [reflexivity|]. cbn [trimEnd hasQuote]. intros Hs.
  apply orb_false_iff in Hs as [Hc Hs]. specialize (IH Hs).
  destruct (trimEnd s) as [|c' t].
  - destruct (isWhiteSpace c); [reflexivity|]. cbn. now rewrite Hc.
  - cbn [hasQuote] in *. now rewrite Hc.
Qed.

(** C10: a header cell is trimmed before its quote characters are deleted,
    so white space next to a quote inside the cell stays at the ends of the
    column name, while the same text as a field of a data line, which
    [parseCSVLine] trims after the quotes are gone, comes out trimmed. *)
Theorem parseCSV_header_inner_space :
  let csvText :=
    "Date,Estimate," +:+ quoted " x " +:+ String newline "1/15/2024,45,7" in
  (exists row, parseCSV csvText = Ok [row] /\ row !! " x " = Some "7")
  /\ startsWithWhiteSpace " x " = true
  /\ endsWithWhiteSpace " x " = true
  /\ parseCSVLine ("Date,Estimate," +:+ quoted " x ") = ["Date"; "Estimate"; "x"].
Proof.
  cbv zeta. refine (conj _ (conj _ (conj _ _))); try reflexivity.
  eexists. split; [vm_compute; reflexivity|]. vm_compute. reflexivity.
Qed.

(** X5: what does hold of the rows: every value is trimmed, white space that
    was inside a quoted span included; every key is a cell of the header line,
    trimmed and then without its quote characters, so a key from a cell
    without quote characters is trimmed. *)
Theorem parseCSV_keys_and_values (csvText : string) (rows : list DataRow)
    (row : DataRow) (key value : string) :
  parseCSV csvText = Ok rows ->
  row ∈ rows ->
  row !! key = Some value ->
  trimmed value
  /\ exists header cell,
       head (nonBlankLines csvText) = Some header
       /\ cell ∈ split comma header
       /\ key = removeQuotes (trim cell)
       /\ (hasQuote cell = false -> trimmed key).
Proof.
  intros Hparse Hrow Hlookup.
  destruct (le_lt_dec 2 (length (nonBlankLines csvText))) as [Hlen|Hlen].
  2:{ rewrite (parseCSV_too_short csvText Hlen) in Hparse. discriminate. }
  destruct (parseCSV_header_and_rows csvText Hlen) as (header & dataLines & Hlines & Hrows).
  rewrite Hrows in Hparse. injection Hparse as <-.
  apply list_elem_of_In, List.filter_In in Hrow as [Hrow _].
  apply list_elem_of_In, list_elem_of_fmap in Hrow as (line & -> & _).
  unfold rowOfLine in Hlookup. apply makeRow_lookup_inv in Hlookup as [Hkey [index ->]].
  split; [apply valueAt_trimmed, parseCSVLine_trimmed|].
  unfold headerCells in Hkey. apply list_elem_of_fmap in Hkey as (cell & -> & Hcell).
  exists header, cell. rewrite Hlines. repeat split; [exact Hcell|..];
    rewrite removeQuotes_id by (unfold trim; now apply hasQuote_trimEnd, hasQuote_trimStart);
    apply trim_trimmed.
Qed.

Lemma parseCSV_keys_and_values_witness :
  parseCSV sampleCSV = Ok sampleRows
  /\ sampleRow "2/15/2024" "48" "" "" ∈ sampleRows
  /\ sampleRow "2/15/2024" "48" "" "" !! "Estimate" = Some "48"
  /\ trimmed "48".
Proof.
  assert (parseCSV sampleCSV = Ok sampleRows) as Hparse
    by (vm_compute; exact eq_refl).
  assert (sampleRow "2/15/2024" "48" "" "" ∈ sampleRows) as Hrow
    by (apply list_elem_of_further, list_elem_of_here).
  assert (sampleRow "2/15/2024" "48" "" "" !! "Estimate" = Some "48") as Hlookup
    by (vm_compute; reflexivity).
  refine (conj Hparse (conj Hrow (conj Hlookup _))).
  exact (proj1 (parseCSV_keys_and_values sampleCSV sampleRows _ "Estimate" "48"
                  Hparse Hrow Hlookup)).
Defined.

End ParserFacts.

(** ** More on the record parser *)

Section ScannerFacts.

Import JS EINDataReader Spec Notions.

(** *** The scanner, piece by piece *)

Lemma scanStep_next (st : ScanState) (char : ascii) (next next' : option ascii) :
  bool_decide (next = Some dquote) = bool_decide (next' = Some dquote) ->
  scanStep st char next = scanStep st char next'.
Proof. intros Heq. unfold scanStep. now rewrite Heq. Qed.

Lemma scanStep_skip (st st' : ScanState) (char : ascii) (next : option ascii) :
  scanStep st char next = (st', true) -> next = Some dquote.
Proof.
  unfold scanStep. destruct (Ascii.eqb char dquote).
  - destruct (inQuotes st); cbn [andb]; [|discriminate].
    case_bool_decide; [easy|discriminate].
  - destruct (Ascii.eqb char comma && negb (inQuotes st)); discriminate.
Qed.

(** The scanner goes through [line +:+ rest] as through [line] and then
    through [rest], when [rest] does not start with a quote that the last
    quote of [line] could pair with. *)
Lemma scanLoop_append (n : nat) :
  forall (line rest : string) (st : ScanState),
    (String.length line <= n)%nat ->
    nextOf rest <> Some dquote ->
    scanLoop (line +:+ rest) st = scanLoop rest (scanLoop line st).
Proof.
  induction n as [|n IH]; intros [|char line] rest st Hlen Hrest;
    try (now rewrite append_nil_l); [cbn in Hlen; lia|].
  rewrite append_cons, !scanLoop_cons.
  assert (scanStep st char (nextOf (line +:+ rest)) = scanStep st char (nextOf line)) as Hstep.
  { destruct line as [|c line]; [|reflexivity]. rewrite append_nil_l. apply scanStep_next.
    rewrite !bool_decide_eq_false_2; [reflexivity|discriminate|assumption]. }
  rewrite Hstep. destruct (scanStep st char (nextOf line)) as [st' skip] eqn:Hst'.
  cbn [String.length] in Hlen. destruct skip.
  - apply scanStep_skip in Hst'. destruct line as [|c line]; [discriminate|].
    rewrite append_cons. cbn [stringTail]. apply IH; [cbn in Hlen; lia|assumption].
  - apply IH; [lia|assumption].
Qed.

Lemma scanStep_values (st : ScanState) (char : ascii) (next : option ascii) (vs : list string) :
  scanStep {| values := vs ++ values st; current := current st; inQuotes := inQuotes st |} char next
  = ({| values := vs ++ values (scanStep st char next).1;
        current := current (scanStep st char next).1;
        inQuotes := inQuotes (scanStep st char next).1 |}, (scanStep st char next).2).
Proof.
  unfold scanStep. cbn [values current inQuotes].
  destruct (Ascii.eqb char dquote).
  - now destruct (inQuotes st && bool_decide (next = Some dquote)).
  - destruct (Ascii.eqb char comma && negb (inQuotes st)); [|reflexivity].
    cbn [fst snd values current inQuotes]. now rewrite app_assoc.
Qed.

(** The fields pushed before the scanner starts stay in front of the ones
    it pushes. *)
Lemma scanLoop_values (n : nat) :
  forall (line : string) (st : ScanState) (vs : list string),
    (String.length line <= n)%nat ->
    scanLoop line {| values := vs ++ values st; current := current st; inQuotes := inQuotes st |}
    = {| values := vs ++ values (scanLoop line st);
         current := current (scanLoop line st);
         inQuotes := inQuotes (scanLoop line st) |}.
Proof.
  induction n as [|n IH]; intros [|char line] st vs Hlen; try reflexivity; [cbn in Hlen; lia|].
  rewrite !scanLoop_cons, scanStep_values.
  destruct (scanStep st char (nextOf line)) as [st' skip]. cbn [fst snd].
  cbn [String.length] in Hlen.
  destruct skip; apply IH; [destruct line; cbn in *; lia|lia].
Qed.

(** X7: a comma outside a quoted span cuts the line in two lines that are
    parsed apart: when the scanner is outside a quoted span at the end of
    [front], the fields of [front], a comma and [back] are the fields of
    [front] followed by the fields of [back]. *)
Theorem parseCSVLine_comma (front back : string) :
  inQuotes (scanLoop front scanStart) = false ->
  parseCSVLine (front +:+ String comma back) = parseCSVLine front ++ parseCSVLine back.
Proof.
  unfold scanStart. intros Hclosed. unfold parseCSVLine.
  rewrite (scanLoop_append (String.length front)) by (lia || discriminate).
  destruct (scanLoop front _) as [vs cur q]. cbn [inQuotes] in Hclosed. subst q.
  rewrite scanLoop_comma.
  pose proof (scanLoop_values (String.length back) back
                {| values := []; current := ""; inQuotes := false |} (vs ++ [trim cur])) as Hback.
  cbn [values current inQuotes] in Hback. rewrite app_nil_r in Hback.
  rewrite Hback by lia. cbn [values current]. now rewrite <- !app_assoc.
Qed.

(** *** Lines without quote characters *)

Lemma split_cons (sep : ascii) (s : string) : exists field fields, split sep s = field :: fields.
Proof.
  induction s as [|c s (field & fields & IH)]; [now eexists _, _|].
  cbn [split]. destruct (Ascii.eqb c sep); [now eexists _, _|].
  rewrite IH. now eexists _, _.
Qed.

Lemma scanLoop_unquoted (line : string) :
  forall (vs : list string) (cur field : string) (fields : list string),
    hasQuote line = false ->
    split comma line = field :: fields ->
    let st := scanLoop line {| values := vs; current := cur; inQuotes := false |} in
    values st ++ [trim (current st)] = vs ++ trim (cur +:+ field) :: map trim fields.
Proof.
  induction line as [|char line IH]; intros vs cur field fields Hquote Hsplit; cbn zeta.
  - injection Hsplit as <- <-. cbn. now rewrite append_nil_r.
  - cbn [hasQuote] in Hquote. apply orb_false_iff in Hquote as [Hchar Hquote].
    rewrite scanLoop_cons. unfold scanStep. rewrite Hchar. cbn [inQuotes negb values current].
    rewrite andb_true_r. cbn [split] in Hsplit.
    destruct (split_cons comma line) as (field' & fields' & Hline). rewrite Hline in Hsplit.
    destruct (Ascii.eqb char comma) eqn:Hcomma; injection Hsplit as <- <-.
    + rewrite (IH (vs ++ [trim cur]) "" field' fields' Hquote Hline).
      now rewrite <- app_assoc, append_nil_r, append_nil_l.
    + rewrite (IH vs (appendChar cur char) field' fields' Hquote Hline).
      now rewrite appendChar_append.
Qed.

(** X6: on a line without quote characters the scanner does what cutting
    the line at every comma and trimming every piece does. *)
Theorem parseCSVLine_unquoted (line : string) :
  hasQuote line = false ->
  parseCSVLine line = map trim (split comma line).
Proof.
  intros Hquote. unfold parseCSVLine.
  destruct (split_cons comma line) as (field & fields & Hsplit).
  rewrite (scanLoop_unquoted line [] "" field fields Hquote Hsplit), Hsplit.
  now rewrite append_nil_l.
Qed.

(** *** White space after a line *)

Lemma allWhiteSpace_append (a b : string) :
  allWhiteSpace (a +:+ b) = allWhiteSpace a && allWhiteSpace b.
Proof.
  induction a as [|c a IH]; [now rewrite append_nil_l|].
  rewrite append_cons. cbn [allWhiteSpace]. now rewrite IH, andb_assoc.
Qed.

Lemma trimEnd_space (space : string) : allWhiteSpace space = true -> trimEnd space = "".
Proof.
  intros Hspace. pose proof (trimEnd_blank space) as Hblank. rewrite Hspace in Hblank.
  now destruct (trimEnd space).
Qed.

Lemma trimEnd_append_space (s space : string) :
  allWhiteSpace space = true -> trimEnd (s +:+ space) = trimEnd s.
Proof.
  intros Hspace. induction s as [|c s IH].
  - rewrite append_nil_l. now apply trimEnd_space.
  - rewrite append_cons. cbn [trimEnd]. now rewrite IH.
Qed.

Lemma trimStart_space (space : string) : allWhiteSpace space = true -> trimStart space = "".
Proof.
  induction space as [|c space IH]; [reflexivity|]. cbn [allWhiteSpace trimStart].
  intros Hspace. apply andb_true_iff in Hspace as [-> Hspace]. now apply IH.
Qed.

Lemma trim_append_space (s space : string) :
  allWhiteSpace space = true -> trim (s +:+ space) = trim s.
Proof.
  intros Hspace. unfold trim. induction s as [|c s IH].
  - rewrite append_nil_l. now rewrite (trimStart_space space Hspace).
  - rewrite append_cons. cbn [trimStart]. destruct (isWhiteSpace c); [exact IH|].
    rewrite <- append_cons. now apply trimEnd_append_space.
Qed.

Lemma trailing_refl (line : string) : trailing line line.
Proof. exists "". split; [reflexivity|]. now rewrite append_nil_r. Qed.

Lemma trailing_cons (c : ascii) (line padded : string) :
  trailing line padded -> trailing (String c line) (String c padded).
Proof.
  intros (space & Hspace & ->). exists space. split; [exact Hspace|]. now rewrite append_cons.
Qed.

Lemma trailing_trim (line padded : string) : trailing line padded -> trim padded = trim line.
Proof. intros (space & Hspace & ->). now apply trim_append_space. Qed.

Lemma trailing_blank (line padded : string) :
  trailing line padded -> allWhiteSpace padded = allWhiteSpace line.
Proof.
  intros (space & Hspace & ->). now rewrite allWhiteSpace_append, Hspace, andb_true_r.
Qed.

Lemma split_space (sep : ascii) (space : string) :
  isWhiteSpace sep = false -> allWhiteSpace space = true -> split sep space = [space].
Proof.
  intros Hsep. induction space as [|c space IH]; [reflexivity|].
  cbn [allWhiteSpace split]. intros Hspace. apply andb_true_iff in Hspace as [Hc Hspace].
  destruct (Ascii.eqb_spec c sep) as [->|_]; [congruence|]. now rewrite IH.
Qed.

(** White space after a line stays in its last cell. *)
Lemma split_trailing (sep : ascii) (line padded : string) :
  isWhiteSpace sep = false ->
  trailing line padded ->
  Forall2 trailing (split sep line) (split sep padded).
Proof.
  intros Hsep (space & Hspace & ->). induction line as [|c line IH].
  - rewrite append_nil_l, (split_space sep space Hsep Hspace). cbn [split].
    constructor; [|constructor]. exists space. split; [exact Hspace|]. now rewrite append_nil_l.
  - rewrite append_cons. cbn [split]. destruct (Ascii.eqb c sep).
    + constructor; [apply trailing_refl|exact IH].
    + inversion IH as [|field padded fields paddeds Hfield Hfields Heq1 Heq2].
      * constructor; [apply trailing_refl|constructor].
      * constructor; [now apply trailing_cons|exact Hfields].
Qed.

Lemma headerCells_trailing (line padded : string) :
  trailing line padded -> headerCells padded = headerCells line.
Proof.
  intros Hpad. unfold headerCells.
  pose proof (split_trailing comma line padded eq_refl Hpad) as Hcells.
  induction Hcells as [|cell cell' cells cells' Hcell _ IH]; [reflexivity|].
  cbn [map]. now rewrite IH, (trailing_trim cell cell' Hcell).
Qed.

Lemma filter_trailing (lines paddeds : list string) :
  Forall2 trailing lines paddeds ->
  Forall2 trailing (List.filter (fun line => negb (allWhiteSpace line)) lines)
                   (List.filter (fun line => negb (allWhiteSpace line)) paddeds).
Proof.
  induction 1 as [|line padded lines paddeds Hline _ IH]; [constructor|].
  cbn [List.filter]. rewrite (trailing_blank line padded Hline).
  destruct (allWhiteSpace line); [exact IH|]. now constructor.
Qed.

Lemma foldl_pushRow_trailing (headers : list string) (lines paddeds : list string) :
  Forall2 trailing lines paddeds ->
  forall data, foldl (pushRow headers) data paddeds = foldl (pushRow headers) data lines.
Proof.
  induction 1 as [|line padded lines paddeds Hline _ IH]; intros data; [reflexivity|].
  cbn [foldl]. rewrite IH. f_equal. unfold pushRow.
  now rewrite (trailing_trim line padded Hline).
Qed.

(** White space after the lines of a text does not change what is read. *)
Lemma parseCSV_trailing (csvText padded : string) :
  Forall2 trailing (split newline csvText) (split newline padded) ->
  parseCSV padded = parseCSV csvText.
Proof.
  intros Hlines. unfold parseCSV. rewrite !parseCSV_lines. unfold nonBlankLines.
  apply filter_trailing in Hlines.
  rewrite <- (Forall2_length _ _ _ Hlines).
  destruct (length _ <? 2)%nat; [reflexivity|].
  destruct Hlines as [|line padded' lines paddeds Hline Hlines]; [reflexivity|].
  cbn [List.nth tail]. fold (headerCells line). fold (headerCells padded').
  rewrite (headerCells_trailing line padded' Hline).
  now rewrite (foldl_pushRow_trailing _ lines paddeds Hlines).
Qed.

Lemma split_withCarriageReturns (csvText : string) :
  Forall2 trailing (split newline csvText) (split newline (withCarriageReturns csvText)).
Proof.
  induction csvText as [|c csvText IH]; [repeat constructor; apply trailing_refl|].
  cbn [withCarriageReturns split]. destruct (Ascii.eqb c newline) eqn:Hc.
  - cbn [split]. change (Ascii.eqb carriageReturn newline) with false.
    rewrite Ascii.eqb_refl. cbv iota. constructor; [|exact IH].
    exists (String carriageReturn ""). split; reflexivity.
  - cbn [split]. rewrite Hc.
    inversion IH as [|line padded lines paddeds Hline Hlines Heq1 Heq2].
    + constructor; [apply trailing_refl|constructor].
    + constructor; [now apply trailing_cons|exact Hlines].
Qed.

(** X3: the line ends of the text do not matter: the text with a carriage
    return before every line feed, as a file with the line ends of Windows
    has them, gives the rows, or the error, of the text without them. *)
Theorem parseCSV_line_ends (csvText : string) :
  parseCSV (withCarriageReturns csvText) = parseCSV csvText.
Proof. apply parseCSV_trailing, split_withCarriageReturns. Qed.

(** *** The columns of a row *)

Lemma positions_elem (name : string) (cells : list string) :
  forall offset, last (positions name offset cells) = None <-> name ∉ cells.
Proof.
  induction cells as [|cell cells IH]; intros offset; cbn [positions].
  - split; [intros _; apply not_elem_of_nil|reflexivity].
  - rewrite last_app_None, IH, not_elem_of_cons.
    destruct (String.eqb_spec cell name) as [->|Hne]; cbn [last].
    + split; [intros [[=] _]|intros [Hne _]; congruence].
    + split; [intros [_ H]; split; [congruence|exact H]|intros [_ H]; now split].
Qed.

(** The columns of a row are the header cells, but for [__proto__]. *)
Lemma makeRow_dom (headers values : list string) (key : string) :
  is_Some (makeRow headers values !! key) <-> key ∈ headers /\ key <> "__proto__".
Proof.
  rewrite (makeRow_rowOf headers values key).
  destruct (String.eqb_spec key "__proto__") as [->|Hne].
  - split; [intros [? [=]]|intros [_ H]; congruence].
  - unfold columnValue. pose proof (positions_elem key headers 0) as Hpos.
    destruct (last (positions key 0 headers)) as [index|]; cbn [fmap option_fmap option_map].
    + split; [intros _|eauto]. split; [|exact Hne].
      destruct (decide (key ∈ headers)) as [Hin|Hnot]; [exact Hin|].
      apply Hpos in Hnot. discriminate.
    + split; [intros [? [=]]|intros [Hin _]]. now apply Hpos in Hin.
Qed.

(** X4: every row that parseCSV returns has the cells of the header line
    other than [__proto__] as its columns, no more and no less, however many
    fields its own line has, and among them a Date and an Estimate that are
    not empty. *)
Theorem parseCSV_row_columns (csvText : string) (rows : list DataRow) (row : DataRow) :
  parseCSV csvText = Ok rows ->
  row ∈ rows ->
  exists header,
    head (nonBlankLines csvText) = Some header
    /\ (forall key,
          is_Some (row !! key) <-> key ∈ headerCells header /\ key <> "__proto__")
    /\ exists date estimate,
         row !! "Date" = Some date /\ date <> ""
         /\ row !! "Estimate" = Some estimate /\ estimate <> "".
Proof.
  intros Hparse Hrow.
  destruct (le_lt_dec 2 (length (nonBlankLines csvText))) as [Hlen|Hlen].
  2:{ rewrite (parseCSV_too_short csvText Hlen) in Hparse. discriminate. }
  destruct (parseCSV_header_and_rows csvText Hlen) as (header & dataLines & Hlines & Hrows).
  rewrite Hrows in Hparse. injection Hparse as <-.
  apply list_elem_of_In, List.filter_In in Hrow as [Hrow Hkept].
  apply list_elem_of_In, list_elem_of_fmap in Hrow as (line & -> & _).
  exists header. rewrite Hlines. split; [reflexivity|]. split.
  - intros key. apply makeRow_dom.
  - unfold hasDateAndEstimate, truthyField in Hkept.
    apply andb_true_iff in Hkept as [Hdate Hestimate].
    destruct (rowOfLine (headerCells header) line !! "Date") as [date|]; [|discriminate].
    destruct (rowOfLine (headerCells header) line !! "Estimate") as [estimate|]; [|discriminate].
    exists date, estimate. repeat split; [now destruct date|now destruct estimate].
Qed.

(** X19: the value of a column of a row, for every name but [__proto__],
    is the field of its line at the position of the header cell of that
    name, the last one when several cells have the name, and the empty
    string when the line has no field there; under [__proto__] the row has
    no value. *)
Theorem parseCSV_value_of_column (csvText : string) (rows : list DataRow) (row : DataRow) :
  parseCSV csvText = Ok rows ->
  row ∈ rows ->
  exists header line,
    head (nonBlankLines csvText) = Some header
    /\ line ∈ tail (nonBlankLines csvText)
    /\ row !! "__proto__" = None
    /\ forall index name,
         name <> "__proto__" ->
         headerCells header !! index = Some name ->
         name ∉ drop (S index) (headerCells header) ->
         row !! name = Some (default "" (parseCSVLine (trim line) !! index)).
Proof.
  intros Hparse Hrow.
  destruct (le_lt_dec 2 (length (nonBlankLines csvText))) as [Hlen|Hlen].
  2:{ rewrite (parseCSV_too_short csvText Hlen) in Hparse. discriminate. }
  destruct (parseCSV_header_and_rows csvText Hlen) as (header & dataLines & Hlines & Hrows).
  rewrite Hrows in Hparse. injection Hparse as <-.
  apply list_elem_of_In, List.filter_In in Hrow as [Hrow _].
  apply list_elem_of_In, list_elem_of_fmap in Hrow as (line & -> & Hline).
  exists header, line. rewrite Hlines. refine (conj eq_refl (conj Hline (conj _ _))).
  - unfold rowOfLine. now rewrite (makeRow_rowOf _ _ "__proto__").
  - intros index name Hproto Hname Hlast. unfold rowOfLine.
    now rewrite (makeRow_lookup _ _ index name Hproto Hname Hlast), valueAt_default.
Qed.

Lemma rows_without_column (headers lines : list string) :
  "Date" ∉ headers \/ "Estimate" ∉ headers ->
  List.filter hasDateAndEstimate (map (rowOfLine headers) lines) = [].
Proof.
  intros Hmissing. induction lines as [|line lines IH]; [reflexivity|].
  cbn [map List.filter].
  assert (hasDateAndEstimate (rowOfLine headers line) = false) as ->; [|exact IH].
  unfold hasDateAndEstimate, truthyField, rowOfLine.
  destruct Hmissing as [Hmissing|Hmissing];
    (assert (~ is_Some (makeRow headers (parseCSVLine (trim line)) !! _)) as Hnone
       by (rewrite makeRow_dom; intros [Hin _]; exact (Hmissing Hin)));
    apply eq_None_not_Some in Hnone; rewrite Hnone; [reflexivity|].
  apply andb_false_r.
Qed.

(** X20: a text of two lines or more whose header line has no cell named
    Date, or none named Estimate, gives no row and no error. *)
Theorem parseCSV_without_date_or_estimate_column (csvText header : string) :
  (2 <= length (nonBlankLines csvText))%nat ->
  head (nonBlankLines csvText) = Some header ->
  "Date" ∉ headerCells header \/ "Estimate" ∉ headerCells header ->
  parseCSV csvText = Ok [].
Proof.
  intros Hlen Hhead Hmissing.
  destruct (parseCSV_header_and_rows csvText Hlen) as (header' & dataLines & Hlines & ->).
  rewrite Hlines in Hhead. injection Hhead as ->.
  now rewrite rows_without_column.
Qed.

End ScannerFacts.

(** ** Rounding to binary64 *)

Section RoundingFacts.

Import JS.

(** *** Powers of two *)

Lemma pow2_pos (e : Z) : (0 < pow2 e)%Q.
Proof. apply Qpower_0_lt. reflexivity. Qed.

Lemma pow2_add (a b : Z) : (pow2 (a + b) == pow2 a * pow2 b)%Q.
Proof. apply Qpower_plus. discriminate. Qed.

Lemma pow2_sub (a b : Z) : (pow2 (a - b) == pow2 a / pow2 b)%Q.
Proof. apply Qpower_minus. discriminate. Qed.

Lemma pow2_le (a b : Z) : a <= b -> (pow2 a <= pow2 b)%Q.
Proof. intros H. apply Qpower_le_compat_l; [exact H|discriminate]. Qed.

Lemma pow2_lt (a b : Z) : a < b -> (pow2 a < pow2 b)%Q.
Proof. intros H. apply Qpower_lt_compat_l; [exact H|reflexivity]. Qed.

Lemma pow2_lt_inv (a b : Z) : (pow2 a < pow2 b)%Q -> a < b.
Proof. intros H. eapply Qpower_lt_compat_l_inv; [exact H|reflexivity]. Qed.

Lemma pow2_Z (e : Z) : 0 <= e -> (pow2 e == inject_Z (2 ^ e))%Q.
Proof. intros H. unfold pow2. now rewrite Zpower_Qpower. Qed.

Lemma pow2_succ (e : Z) : (pow2 (e + 1) == 2 * pow2 e)%Q.
Proof. rewrite pow2_add. change (pow2 1) with 2%Q. ring. Qed.

Lemma pow2_pred (e : Z) : (pow2 (e - 1) == (1 # 2) * pow2 e)%Q.
Proof. rewrite pow2_sub. change (pow2 1) with 2%Q. field. Qed.

(** The inverse of a power of two with an exponent that is not positive
    is a whole number. *)
Lemma pow2_inv_Z (e : Z) : e <= 0 -> (/ pow2 e == inject_Z (2 ^ (- e)))%Q.
Proof.
  intros H. rewrite <- pow2_Z by lia. unfold pow2. now rewrite Qpower_opp.
Qed.

(** *** The binade of a number *)

Lemma binade_zero (q : Q) : (q == 0)%Q -> binade q <= -1.
Proof.
  intros Hq. unfold binade. cbv zeta.
  assert (Qnum q = 0) as Hn by (unfold Qeq in Hq; cbn in Hq; lia).
  rewrite Hn. change (Z.log2 (Z.abs 0)) with 0.
  pose proof (Z.log2_nonneg (Z.pos (Qden q))) as Hd.
  destruct (Qle_bool _ _) eqn:Hle; [|lia].
  apply Qle_bool_iff in Hle. rewrite (Qabs_wd _ _ Hq) in Hle.
  pose proof (pow2_pos (0 - Z.log2 (Z.pos (Qden q)))) as Hpos.
  change (Qabs 0) with 0%Q in Hle. lra.
Qed.

Lemma binade_spec (q : Q) :
  ~ (q == 0)%Q -> (pow2 (binade q) <= Qabs q < pow2 (binade q + 1))%Q.
Proof.
  intros Hq. unfold binade. cbv zeta.
  set (n := Z.abs (Qnum q)). set (d := Z.pos (Qden q)).
  assert (0 < n) as Hn.
  { unfold n. assert (Qnum q <> 0); [|lia]. intros H0. apply Hq.
    unfold Qeq. cbn. lia. }
  assert (0 < d) as Hd by (unfold d; lia).
  assert (Qabs q == inject_Z n / inject_Z d)%Q as Habs.
  { destruct q as [qn qd]. unfold n, d. cbn [Qnum Qden].
    rewrite <- Zabs_Qabs. apply Qmake_Qdiv. }
  pose proof (Z.log2_spec n Hn) as [Hn1 Hn2].
  pose proof (Z.log2_spec d Hd) as [Hd1 Hd2].
  pose proof (Z.log2_nonneg n) as Ha. pose proof (Z.log2_nonneg d) as Hb.
  set (a := Z.log2 n) in *. set (b := Z.log2 d) in *.
  rewrite Zle_Qle in Hn1, Hd1. rewrite Zlt_Qlt in Hn2, Hd2.
  rewrite <- pow2_Z in Hn1, Hn2, Hd1, Hd2 by lia.
  unfold Z.succ in *. rewrite pow2_succ in Hn2, Hd2.
  pose proof (pow2_pos a) as Hpa. pose proof (pow2_pos b) as Hpb.
  assert (0 < inject_Z d)%Q as Hdq by (rewrite <- (Zlt_Qlt 0); exact Hd).
  assert (0 < inject_Z n)%Q as Hnq by (rewrite <- (Zlt_Qlt 0); exact Hn).
  destruct (Qle_bool _ _) eqn:Hle.
  - apply Qle_bool_iff in Hle. split; [exact Hle|].
    rewrite Habs, pow2_succ, pow2_sub.
    apply Qlt_shift_div_r; [exact Hdq|].
    assert (2 * (pow2 a / pow2 b) * inject_Z d == (2 * pow2 a) * (inject_Z d / pow2 b))%Q
      as -> by (field; lra).
    assert (1 <= inject_Z d / pow2 b)%Q as H1
      by (apply Qle_shift_div_l; [exact Hpb|lra]).
    nra.
  - assert (~ (pow2 (a - b) <= Qabs q)%Q) as Hnle
      by (intros H; apply Qle_bool_iff in H; congruence).
    apply Qnot_le_lt in Hnle.
    replace (a - b - 1 + 1) with (a - b) by lia. split; [|exact Hnle].
    rewrite Habs, pow2_pred, pow2_sub.
    apply Qle_shift_div_l; [exact Hdq|].
    assert ((1 # 2) * (pow2 a / pow2 b) * inject_Z d
            == pow2 a * (inject_Z d / (2 * pow2 b)))%Q as -> by (field; lra).
    assert (inject_Z d / (2 * pow2 b) <= 1)%Q as H1
      by (apply Qle_shift_div_r; lra).
    nra.
Qed.

Lemma binade_unique (q : Q) (e : Z) :
  (pow2 e <= Qabs q < pow2 (e + 1))%Q -> binade q = e.
Proof.
  intros [Hlow Hhigh].
  assert (~ (q == 0)%Q) as Hq.
  { intros H0. rewrite (Qabs_wd _ _ H0) in Hlow. change (Qabs 0) with 0%Q in Hlow.
    pose proof (pow2_pos e). lra. }
  destruct (binade_spec q Hq) as [Hlow' Hhigh'].
  assert (pow2 e < pow2 (binade q + 1))%Q as H1 by lra.
  assert (pow2 (binade q) < pow2 (e + 1))%Q as H2 by lra.
  apply pow2_lt_inv in H1, H2. lia.
Qed.

Lemma binade_comp (p q : Q) : (p == q)%Q -> ~ (q == 0)%Q -> binade p = binade q.
Proof.
  intros Hpq Hq. apply binade_unique. rewrite (Qabs_wd _ _ Hpq). now apply binade_spec.
Qed.

(** A number below [2 ^ k] in magnitude lies in a binade below [k]. *)
Lemma binade_lt (q : Q) (k : Z) : 0 <= k -> (Qabs q < pow2 k)%Q -> binade q < k.
Proof.
  intros Hk Hlt. destruct (Qeq_dec q 0) as [H0|Hq].
  - pose proof (binade_zero q H0). lia.
  - destruct (binade_spec q Hq) as [Hlow _]. apply pow2_lt_inv. lra.
Qed.

Lemma binade_ge (q : Q) (k : Z) : (pow2 k <= Qabs q)%Q -> k <= binade q.
Proof.
  intros Hle.
  assert (~ (q == 0)%Q) as Hq.
  { intros H0. rewrite (Qabs_wd _ _ H0) in Hle. change (Qabs 0) with 0%Q in Hle.
    pose proof (pow2_pos k). lra. }
  destruct (binade_spec q Hq) as [_ Hhigh].
  assert (pow2 k < pow2 (binade q + 1))%Q as H by lra. apply pow2_lt_inv in H. lia.
Qed.

(** *** The nearest integer *)

Lemma nearestEven_comp (x y : Q) : (x == y)%Q -> nearestEven x = nearestEven y.
Proof.
  intros Hxy. unfold nearestEven. cbv zeta. rewrite (Qfloor_comp _ _ Hxy).
  assert (x - inject_Z (Qfloor y) == y - inject_Z (Qfloor y))%Q as H by (rewrite Hxy; reflexivity).
  now rewrite (Qcompare_comp _ _ H (1 # 2) (1 # 2) (Qeq_refl _)).
Qed.

Lemma nearestEven_cases (x : Q) :
  (nearestEven x = Qfloor x /\ (x - inject_Z (Qfloor x) <= 1 # 2)%Q)
  \/ (nearestEven x = Qfloor x + 1 /\ (1 # 2 <= x - inject_Z (Qfloor x))%Q).
Proof.
  unfold nearestEven. cbv zeta.
  destruct (Qcompare_spec (x - inject_Z (Qfloor x)) (1 # 2)) as [H|H|H].
  - destruct (Z.even (Qfloor x)); [left|right]; split; try reflexivity; lra.
  - left. split; [reflexivity|lra].
  - right. split; [reflexivity|lra].
Qed.

Lemma nearestEven_Z (z : Z) : nearestEven (inject_Z z) = z.
Proof.
  destruct (nearestEven_cases (inject_Z z)) as [[-> _]|[_ H]].
  - apply Qfloor_Z.
  - rewrite Qfloor_Z in H. lra.
Qed.

(** The nearest integer is half a unit away at most. *)
Lemma nearestEven_error (x : Q) :
  (x - (1 # 2) <= inject_Z (nearestEven x) <= x + (1 # 2))%Q.
Proof.
  pose proof (Qfloor_le x) as Hlow. pose proof (Qlt_floor x) as Hhigh.
  rewrite inject_Z_plus in Hhigh.
  destruct (nearestEven_cases x) as [[-> H]|[-> H]]; [|rewrite inject_Z_plus];
    change (inject_Z 1) with 1%Q in *; lra.
Qed.

(** Rounding does not cross an integer. *)
Lemma nearestEven_le (x : Q) (N : Z) : (x <= inject_Z N)%Q -> nearestEven x <= N.
Proof.
  intros Hx. pose proof (Qfloor_le x) as Hlow.
  destruct (nearestEven_cases x) as [[-> H]|[-> H]].
  - rewrite Zle_Qle. lra.
  - assert (Qfloor x < N); [|lia]. rewrite Zlt_Qlt. lra.
Qed.

Lemma nearestEven_ge (x : Q) (N : Z) : (inject_Z N <= x)%Q -> N <= nearestEven x.
Proof.
  intros Hx. pose proof (Qfloor_resp_le _ _ Hx) as Hfloor. rewrite Qfloor_Z in Hfloor.
  destruct (nearestEven_cases x) as [[-> H]|[-> H]]; lia.
Qed.

(** More than half a unit above an integer, the nearest integer is above
    it. *)
Lemma nearestEven_above (x : Q) (N : Z) :
  (inject_Z N + (1 # 2) < x)%Q -> N + 1 <= nearestEven x.
Proof.
  intros Hx.
  assert (inject_Z N <= x)%Q as Hle by lra.
  pose proof (Qfloor_resp_le _ _ Hle) as Hfloor. rewrite Qfloor_Z in Hfloor.
  destruct (nearestEven_cases x) as [[-> H]|[-> H]]; [|lia].
  assert (N < Qfloor x); [|lia]. rewrite Zlt_Qlt. lra.
Qed.

(** *** The nearest binary64 value *)

Lemma ulpExponent_min (q : Q) : -1074 <= ulpExponent q.
Proof. unfold ulpExponent. lia. Qed.

Lemma ulpExponent_lt (q : Q) (k : Z) :
  0 <= k -> (Qabs q < pow2 k)%Q -> ulpExponent q <= Z.max (k - 53) (-1074).
Proof. intros Hk Hq. pose proof (binade_lt q k Hk Hq). unfold ulpExponent. lia. Qed.

Lemma nearest64_zero (q : Q) : (q == 0)%Q -> (nearest64 q == 0)%Q.
Proof.
  intros Hq. unfold nearest64.
  assert (q / pow2 (ulpExponent q) == inject_Z 0)%Q as H.
  { generalize (pow2 (ulpExponent q)). intros u. rewrite Hq. unfold Qdiv.
    change (inject_Z 0) with 0%Q. ring. }
  rewrite (nearestEven_comp _ _ H), nearestEven_Z. change (inject_Z 0) with 0%Q. ring.
Qed.

Lemma nearest64_comp (p q : Q) : (p == q)%Q -> (nearest64 p == nearest64 q)%Q.
Proof.
  intros Hpq. destruct (Qeq_dec q 0) as [H0|Hq].
  - rewrite (nearest64_zero q H0). apply nearest64_zero. now rewrite Hpq.
  - unfold nearest64, ulpExponent. rewrite (binade_comp p q Hpq Hq).
    assert (p / pow2 (Z.max (binade q - 52) (-1074))
            == q / pow2 (Z.max (binade q - 52) (-1074)))%Q as H
      by (generalize (pow2 (Z.max (binade q - 52) (-1074))); intros u; now rewrite Hpq).
    now rewrite (nearestEven_comp _ _ H).
Qed.

Lemma round64_comp (p q : Q) : (p == q)%Q -> round64 p = round64 q.
Proof.
  intros Hpq. unfold round64. cbv zeta.
  pose proof (nearest64_comp p q Hpq) as H.
  rewrite (Qleb_comp _ _ (Qeq_refl (pow2 1024)) _ _ H).
  rewrite (Qleb_comp _ _ H _ _ (Qeq_refl (- pow2 1024))).
  now rewrite (Qred_complete _ _ H).
Qed.

(** The value, when it does not overflow. *)
Lemma round64_nearest (q : Q) :
  (Qabs (nearest64 q) < pow2 1024)%Q -> round64 q = Fin (Qred (nearest64 q)).
Proof.
  intros Hlt. apply Qabs_Qlt_condition in Hlt as [Hlow Hhigh]. unfold round64. cbv zeta.
  destruct (Qle_bool (pow2 1024) _) eqn:H1; [apply Qle_bool_iff in H1; lra|].
  destruct (Qle_bool _ (- pow2 1024)) eqn:H2; [apply Qle_bool_iff in H2; lra|].
  reflexivity.
Qed.

(** The distance to the value is half a unit in the last place at most. *)
Lemma nearest64_error (q : Q) :
  (Qabs (nearest64 q - q) <= pow2 (ulpExponent q - 1))%Q.
Proof.
  unfold nearest64. set (u := pow2 (ulpExponent q)).
  assert (0 < u)%Q as Hu by apply pow2_pos.
  pose proof (nearestEven_error (q / u)) as [Hlow Hhigh].
  rewrite pow2_pred. fold u. apply Qabs_Qle_condition.
  assert (q == q / u * u)%Q as Hq by (field; lra).
  set (x := (q / u)%Q) in *. set (k := inject_Z (nearestEven x)) in *.
  clearbody k x u. rewrite Hq. split; nra.
Qed.

(** Where the unit in the last place is 1 or less, rounding does not cross
    a whole number. *)
Section Grid.

Variable q : Q.
Hypothesis fine : ulpExponent q <= 0.

Lemma nearest64_le (z : Z) : (q <= inject_Z z)%Q -> (nearest64 q <= inject_Z z)%Q.
Proof.
  intros Hq. unfold nearest64. set (u := pow2 (ulpExponent q)).
  assert (0 < u)%Q as Hu by apply pow2_pos.
  pose proof (pow2_inv_Z _ fine) as Hinv. fold u in Hinv.
  set (W := 2 ^ (- ulpExponent q)) in *.
  assert (q / u <= inject_Z (z * W))%Q as Hx.
  { rewrite inject_Z_mult, <- Hinv. unfold Qdiv. apply Qmult_le_compat_r; [exact Hq|].
    apply Qinv_le_0_compat. lra. }
  apply nearestEven_le in Hx. rewrite Zle_Qle, inject_Z_mult, <- Hinv in Hx.
  apply (Qmult_le_compat_r _ _ u) in Hx; [|lra].
  assert (inject_Z z * / u * u == inject_Z z)%Q as H by (field; lra).
  now rewrite H in Hx.
Qed.

Lemma nearest64_ge (z : Z) : (inject_Z z <= q)%Q -> (inject_Z z <= nearest64 q)%Q.
Proof.
  intros Hq. unfold nearest64. set (u := pow2 (ulpExponent q)).
  assert (0 < u)%Q as Hu by apply pow2_pos.
  pose proof (pow2_inv_Z _ fine) as Hinv. fold u in Hinv.
  set (W := 2 ^ (- ulpExponent q)) in *.
  assert (inject_Z (z * W) <= q / u)%Q as Hx.
  { rewrite inject_Z_mult, <- Hinv. unfold Qdiv. apply Qmult_le_compat_r; [exact Hq|].
    apply Qinv_le_0_compat. lra. }
  apply nearestEven_ge in Hx. rewrite Zle_Qle, inject_Z_mult, <- Hinv in Hx.
  apply (Qmult_le_compat_r _ _ u) in Hx; [|lra].
  assert (inject_Z z * / u * u == inject_Z z)%Q as H by (field; lra).
  now rewrite H in Hx.
Qed.

(** More than half a unit in the last place above a whole number, the
    value is above it. *)
Lemma nearest64_above (z : Z) :
  (inject_Z z + pow2 (ulpExponent q - 1) < q)%Q -> (inject_Z z < nearest64 q)%Q.
Proof.
  intros Hq. unfold nearest64. rewrite pow2_pred in Hq. set (u := pow2 (ulpExponent q)) in *.
  assert (0 < u)%Q as Hu by apply pow2_pos.
  pose proof (pow2_inv_Z _ fine) as Hinv. fold u in Hinv.
  set (W := 2 ^ (- ulpExponent q)) in *.
  assert (inject_Z (z * W) + (1 # 2) < q / u)%Q as Hx.
  { rewrite inject_Z_mult, <- Hinv. apply Qlt_shift_div_l; [exact Hu|].
    assert ((inject_Z z * / u + (1 # 2)) * u == inject_Z z + (1 # 2) * u)%Q as ->
      by (field; lra).
    exact Hq. }
  apply nearestEven_above in Hx. rewrite Zle_Qle, inject_Z_plus, inject_Z_mult, <- Hinv in Hx.
  apply (Qmult_le_compat_r _ _ u) in Hx; [|lra].
  assert ((inject_Z z * / u + inject_Z 1) * u == inject_Z z + u)%Q as H
    by (change (inject_Z 1) with 1%Q; field; lra).
  rewrite H in Hx. lra.
Qed.

(** A whole number is its own value. *)
Lemma nearest64_Z (z : Z) : (q == inject_Z z)%Q -> (nearest64 q == inject_Z z)%Q.
Proof.
  intros Hq. apply Qle_antisym; [apply nearest64_le|apply nearest64_ge]; lra.
Qed.

End Grid.

Lemma ulpExponent_fine (q : Q) : (Qabs q < pow2 53)%Q -> ulpExponent q <= 0.
Proof. intros Hq. pose proof (ulpExponent_lt q 53 ltac:(lia) Hq). lia. Qed.

Lemma Qred_inject_Z (q : Q) (z : Z) : (q == inject_Z z)%Q -> Qred q = inject_Z z.
Proof.
  intros Hq. rewrite (Qred_complete _ _ Hq). unfold Qred, inject_Z.
  pose proof (Z.ggcd_gcd z 1) as Hg. pose proof (Z.ggcd_correct_divisors z 1) as Hd.
  destruct (Z.ggcd z 1) as [g [aa bb]]. cbn [fst snd] in *.
  rewrite Z.gcd_1_r in Hg. subst g. destruct Hd as [Ha Hb].
  replace aa with z by lia. replace bb with 1 by lia. reflexivity.
Qed.

(** A number below [2 ^ 53] in magnitude is rounded to a finite number. *)
Lemma round64_fine (q : Q) :
  (Qabs q < pow2 53)%Q -> round64 q = Fin (Qred (nearest64 q)).
Proof.
  intros Hq. pose proof (ulpExponent_fine q Hq) as Hfine.
  apply round64_nearest. apply Qabs_Qlt_condition.
  apply Qabs_Qlt_condition in Hq as [Hlow Hhigh].
  rewrite pow2_Z in Hlow, Hhigh by lia. rewrite <- inject_Z_opp in Hlow.
  pose proof (nearest64_le q Hfine (2 ^ 53) ltac:(lra)) as H1.
  pose proof (nearest64_ge q Hfine (- 2 ^ 53) ltac:(lra)) as H2.
  rewrite inject_Z_opp in H2. rewrite <- pow2_Z in H1, H2 by lia.
  pose proof (pow2_lt 53 1024 ltac:(lia)). lra.
Qed.

(** The whole numbers below [2 ^ 53] in magnitude are numbers of the
    language. *)
Lemma round64_Z (q : Q) (z : Z) :
  Z.abs z < 2 ^ 53 -> (q == inject_Z z)%Q -> round64 q = Fin (inject_Z z).
Proof.
  intros Hz Hq.
  assert (Qabs q < pow2 53)%Q as Hlt.
  { rewrite (Qabs_wd _ _ Hq), pow2_Z by lia. apply Qabs_Qlt_condition.
    rewrite <- inject_Z_opp, <- !Zlt_Qlt. lia. }
  rewrite (round64_fine q Hlt). f_equal. apply Qred_inject_Z.
  now apply nearest64_Z; [apply ulpExponent_fine|].
Qed.

(** *** The values that are binary64 *)

(** What [round64] returns is a number of the language. *)
Lemma nearest64_binary64 (q : Q) : binary64 (nearest64 q).
Proof.
  destruct (Qeq_dec q 0) as [H0|Hq].
  - exists 0, 0. split; [lia|]. split; [reflexivity|]. rewrite (nearest64_zero q H0).
    change (inject_Z 0) with 0%Q. ring.
  - unfold nearest64. set (u := pow2 (ulpExponent q)).
    assert (0 < u)%Q as Hu by apply pow2_pos.
    destruct (binade_spec q Hq) as [_ Hhigh].
    assert (pow2 (binade q + 1) <= pow2 53 * u)%Q as Hu53.
    { unfold u. rewrite <- pow2_add. apply pow2_le. unfold ulpExponent. lia. }
    assert (Qabs (q / u) < pow2 53)%Q as Hx.
    { unfold Qdiv. rewrite Qabs_Qmult, Qabs_Qinv, (Qabs_pos u) by lra.
      apply Qlt_shift_div_r; [exact Hu|]. lra. }
    apply Qabs_Qlt_condition in Hx as [Hlow Hhigh'].
    rewrite pow2_Z in Hlow, Hhigh' by lia. rewrite <- inject_Z_opp in Hlow.
    pose proof (nearestEven_le (q / u) (2 ^ 53) ltac:(lra)) as H1.
    pose proof (nearestEven_ge (q / u) (- 2 ^ 53) ltac:(lra)) as H2.
    set (k := nearestEven (q / u)) in *.
    pose proof (ulpExponent_min q) as Hmin.
    destruct (Z.eq_dec (Z.abs k) (2 ^ 53)) as [Heq|Hne].
    + exists (k / 2), (ulpExponent q + 1). split; [lia|]. split.
      * change (2 ^ 53) with 9007199254740992 in *. Z.div_mod_to_equations. lia.
      * rewrite pow2_succ. fold u.
        assert (k = 2 * (k / 2)) as Hk
          by (change (2 ^ 53) with 9007199254740992 in *; Z.div_mod_to_equations; lia).
        rewrite Hk at 1. rewrite inject_Z_mult. change (inject_Z 2) with 2%Q. ring.
    + exists k, (ulpExponent q). split; [lia|]. split; [lia|reflexivity].
Qed.

Lemma binary64_comp (p q : Q) : (p == q)%Q -> binary64 p -> binary64 q.
Proof. intros Hpq (j & ex & Hex & Hj & Hp). exists j, ex. now rewrite <- Hpq. Qed.

Lemma round64_binary64 (q q' : Q) : round64 q = Fin q' -> binary64 q'.
Proof.
  unfold round64. cbv zeta. repeat case_match; try discriminate. intros [= <-].
  apply (binary64_comp (nearest64 q)); [symmetry; apply Qred_correct|].
  apply nearest64_binary64.
Qed.

Lemma binary64_Z (z : Z) : Z.abs z < 2 ^ 53 -> binary64 (inject_Z z).
Proof.
  intros Hz. exists z, 0. split; [lia|]. split; [exact Hz|].
  change (pow2 0) with 1%Q. ring.
Qed.

(** A number of the language below [2 ^ 53] that is above a whole number is
    above it by more than the [2 ^ 53]th part of itself. *)
Lemma binary64_spacing (m : Q) (N : Z) :
  binary64 m -> (m < pow2 53)%Q -> 0 <= N -> (inject_Z N < m)%Q ->
  (m * pow2 (-53) < m - inject_Z N)%Q.
Proof.
  intros (j & ex & Hex & Hj & Hm) Hm53 HN Hlt.
  assert (pow2 53 * pow2 (-53) == 1)%Q as Hone by reflexivity.
  pose proof (pow2_pos (-53)) as Hp53. pose proof (pow2_pos ex) as Hpex.
  pose proof (pow2_pos 53) as Hp53'.
  destruct (Z_le_gt_dec 0 ex) as [Hpos|Hneg].
  - assert (m * pow2 (-53) < 1)%Q as Hsmall.
    { set (a := pow2 53) in *. set (b := pow2 (-53)) in *. clearbody a b. nra. }
    assert (1 <= m - inject_Z N)%Q; [|lra].
    rewrite pow2_Z in Hm by lia. rewrite Hm in Hlt |- *.
    rewrite <- inject_Z_mult in Hlt |- *. rewrite <- Zlt_Qlt in Hlt.
    unfold Qminus. rewrite <- inject_Z_opp, <- inject_Z_plus.
    change 1%Q with (inject_Z 1). rewrite <- Zle_Qle. lia.
  - assert (0 < j) as Hjpos.
    { assert (0 < m)%Q as Hpos
        by (rewrite Zle_Qle in HN; change (inject_Z 0) with 0%Q in HN; lra).
      rewrite Hm in Hpos.
      destruct (Z_lt_le_dec 0 j) as [H|H]; [exact H|].
      rewrite Zle_Qle in H. change (inject_Z 0) with 0%Q in H. nra. }
    assert (inject_Z j < pow2 53)%Q as Hj53.
    { rewrite pow2_Z by lia. rewrite <- Zlt_Qlt. lia. }
    assert (m * pow2 (-53) < pow2 ex)%Q as Hsmall.
    { rewrite Hm. set (J := inject_Z j) in *. set (a := pow2 53) in *.
      set (b := pow2 (-53)) in *. set (e := pow2 ex) in *. clearbody J a b e.
      assert (J * b < 1)%Q by nra. nra. }
    assert (pow2 ex <= m - inject_Z N)%Q; [|lra].
    pose proof (pow2_inv_Z ex ltac:(lia)) as Hinv. set (W := 2 ^ (- ex)) in *.
    assert (0 < W) as HW by (apply Z.pow_pos_nonneg; lia).
    assert (0 < inject_Z W)%Q as HWq by (rewrite <- (Zlt_Qlt 0); exact HW).
    assert (pow2 ex == / inject_Z W)%Q as Hex'.
    { rewrite <- Hinv. field. lra. }
    assert (inject_Z (N * W) < inject_Z j)%Q as Hlt'.
    { rewrite inject_Z_mult. rewrite Hm, Hex' in Hlt.
      apply (Qmult_lt_compat_r _ _ (inject_Z W)) in Hlt; [|exact HWq].
      assert (inject_Z j * / inject_Z W * inject_Z W == inject_Z j)%Q as H by (field; lra).
      now rewrite H in Hlt. }
    rewrite <- Zlt_Qlt in Hlt'.
    assert (inject_Z 1 <= inject_Z (j - N * W))%Q as Hone'
      by (rewrite <- Zle_Qle; lia).
    unfold Z.sub in Hone'. rewrite inject_Z_plus, inject_Z_opp, inject_Z_mult in Hone'.
    change (inject_Z 1) with 1%Q in Hone'.
    rewrite Hm, Hex'.
    assert (inject_Z j * / inject_Z W - inject_Z N
            == (inject_Z j + - (inject_Z N * inject_Z W)) * / inject_Z W)%Q as ->
      by (field; lra).
    rewrite <- (Qmult_1_l (/ inject_Z W)) at 1.
    apply Qmult_le_compat_r; [exact Hone'|]. apply Qinv_le_0_compat. lra.
Qed.

(** *** Operations on finite numbers *)

Lemma div_Fin (p q : Q) : ~ (q == 0)%Q -> div (Fin p) (Fin q) = round64 (p / q).
Proof.
  intros Hq. unfold div. destruct (Qeq_bool q 0) eqn:H0; [|reflexivity].
  now apply Qeq_bool_iff in H0.
Qed.

Lemma Qceiling_unique (v : Q) (z : Z) :
  (inject_Z (z - 1) < v <= inject_Z z)%Q -> Qceiling v = z.
Proof.
  intros [Hlow Hhigh]. pose proof (Qle_ceiling v) as H1. pose proof (Qceiling_lt v) as H2.
  assert (inject_Z (z - 1) < inject_Z (Qceiling v))%Q as H3 by lra.
  assert (inject_Z (Qceiling v - 1) < inject_Z z)%Q as H4 by lra.
  rewrite <- Zlt_Qlt in H3, H4. lia.
Qed.

(** The step: in the arithmetic of the language the two roundings of
    [Math.ceil(maxSteps) / 5 + 1] do not move its ceiling. *)

End RoundingFacts.

(** ** Numbers *)

Section NumberFacts.

Import JS Spec.

Lemma max2_NegInf_l (a : number) : max2 NegInf a = a.
Proof. now destruct a. Qed.

Lemma Math_max_cons (a : number) (args : list number) :
  Math_max (a :: args) = foldl max2 a args.
Proof. unfold Math_max. cbn [foldl]. now rewrite max2_NegInf_l. Qed.

Lemma leb_refl_Fin (q : Q) : leb (Fin q) (Fin q) = true.
Proof. cbn. apply Qle_bool_iff, Qle_refl. Qed.

(** The running maximum of finite values from a finite start: finite, at
    least the start and at least every value. *)
Lemma foldl_max2_finite (vals : list number) :
  forall m0 : Q,
    Forall (fun v => isFinite v = true) vals ->
    exists m : Q,
      foldl max2 (Fin m0) vals = Fin m
      /\ (m0 <= m)%Q
      /\ Forall (fun v => leb v (Fin m) = true) vals.
Proof.
  induction vals as [|v vals IH]; intros m0 Hfin.
  - exists m0. repeat split; [apply Qle_refl|constructor].
  - inversion Hfin as [|? ? Hv Hvals]; subst.
    destruct v as [| | |q]; try discriminate.
    cbn [foldl max2]. destruct (Qle_bool m0 q) eqn:Hle.
    + destruct (IH q Hvals) as (m & Hm & Hqm & Hall). exists m.
      apply Qle_bool_iff in Hle. repeat split; [exact Hm|eapply Qle_trans; eassumption|].
      constructor; [cbn; now apply Qle_bool_iff|exact Hall].
    + destruct (IH m0 Hvals) as (m & Hm & Hqm & Hall). exists m.
      repeat split; [exact Hm|exact Hqm|].
      constructor; [|exact Hall]. cbn. apply Qle_bool_iff.
      apply Qle_trans with m0; [|exact Hqm]. apply Qlt_le_weak, Qnot_le_lt.
      intros Hc. apply Qle_bool_iff in Hc. congruence.
Qed.

Lemma stepOf_pos (m : Q) : (0 <= m)%Q -> 1 <= stepOf m.
Proof.
  intros Hm. unfold stepOf. rewrite <- (Qceiling_Z 1) at 1.
  apply Qceiling_resp_le.
  assert (0 <= inject_Z (Qceiling m))%Q as Hc.
  { change 0%Q with (inject_Z 0). rewrite <- Zle_Qle. rewrite <- (Qceiling_Z 0).
    now apply Qceiling_resp_le. }
  rewrite <- (Qplus_0_l (inject_Z 1)) at 1.
  apply Qplus_le_compat; [|apply Qle_refl].
  apply Qle_shift_div_l; [reflexivity|]. now rewrite Qmult_0_l.
Qed.

Lemma ticksOf_bounds (m : Q) :
  (0 <= m)%Q -> 0 <= ticksOf m /\ (m <= inject_Z (ticksOf m * stepOf m))%Q.
Proof.
  intros Hm. pose proof (stepOf_pos m Hm) as Hs.
  assert (0 < inject_Z (stepOf m))%Q as Hs'.
  { change 0%Q with (inject_Z 0). rewrite <- Zlt_Qlt. lia. }
  split.
  - unfold ticksOf. rewrite <- (Qceiling_Z 0) at 1. apply Qceiling_resp_le.
    apply Qle_shift_div_l; [exact Hs'|]. now rewrite Qmult_0_l.
  - rewrite inject_Z_mult. unfold ticksOf.
    apply Qle_trans with ((m / inject_Z (stepOf m)) * inject_Z (stepOf m))%Q.
    + rewrite Qmult_comm, Qmult_div_r; [apply Qle_refl|].
      intros Heq. rewrite Heq in Hs'. now apply Qlt_irrefl in Hs'.
    + apply Qmult_le_compat_r; [apply Qle_ceiling|now apply Qlt_le_weak].
Qed.

Lemma leb_Fin_le (v : number) (m M : Q) :
  leb v (Fin m) = true -> (m <= M)%Q -> leb v (Fin M) = true.
Proof.
  destruct v as [| | |q]; cbn; try congruence.
  intros Hq HM. apply Qle_bool_iff in Hq. apply Qle_bool_iff.
  eapply Qle_trans; eassumption.
Qed.

(** *** parseFloat and the default *)

Lemma round64_isNumber (q : Q) : isNumber (round64 q).
Proof. destruct (round64 q) as [| | |q'] eqn:H; cbn; try exact I. exact (round64_binary64 q q' H). Qed.

(** A zero that [round64] returns is the zero that is written 0. *)
Lemma round64_zero (q q' : Q) : round64 q = Fin q' -> (q' == 0)%Q -> q' = 0%Q.
Proof.
  unfold round64. cbv zeta. repeat case_match; try discriminate. intros [= <-] Hzero.
  rewrite <- (Qred_complete _ _ (Qred_correct (nearest64 q))).
  now rewrite (Qred_complete _ _ Hzero).
Qed.

Lemma parseFloat_isNumber (s : string) : isNumber (parseFloat s).
Proof.
  unfold parseFloat. destruct (takeSign (trimStart s)) as [negative body].
  destruct (String.prefix "Infinity" body); [now destruct negative|].
  destruct (unsignedDecimal body) as [q|]; [apply round64_isNumber|exact I].
Qed.

Lemma parseFloat_zero (s : string) (q : Q) : parseFloat s = Fin q -> (q == 0)%Q -> q = 0%Q.
Proof.
  unfold parseFloat. destruct (takeSign (trimStart s)) as [negative body].
  destruct (String.prefix "Infinity" body); [now destruct negative|].
  destruct (unsignedDecimal body) as [q'|]; [apply round64_zero|discriminate].
Qed.

Lemma numberOrZero_isNumber (text : option string) : isNumber (numberOrZero text).
Proof.
  destruct text as [s|]; cbn [numberOrZero]; [|now apply binary64_Z].
  pose proof (parseFloat_isNumber s) as H.
  destruct (parseFloat s); try exact H. now apply binary64_Z.
Qed.

(** What the reader stores for a column is the text of the column parsed as
    a number, 0 where it is not one. *)
Lemma numericField_numberOrZero (row : EINDataReader.DataRow) (name : string) :
  EINDataReader.numericField row name = numberOrZero (row !! name).
Proof.
  unfold EINDataReader.numericField, numberOrZero.
  destruct (row !! name) as [s|]; cbn [default from_option id]; [|reflexivity].
  destruct (parseFloat s) as [| | |q] eqn:Hs; try reflexivity.
  unfold orZero, numTruthy. destruct (Qeq_bool q 0) eqn:Hq; [|reflexivity].
  apply Qeq_bool_iff in Hq. now rewrite (parseFloat_zero s q Hs Hq).
Qed.

End NumberFacts.

(** ** More on the scale *)

Section ScaleFacts.

Import JS Spec.

(** The running maximum is one of the numbers it ran over. *)
Lemma foldl_max2_attained (vals : list number) :
  forall start : number, foldl max2 start vals ∈ start :: vals \/ foldl max2 start vals = NaN.
Proof.
  induction vals as [|v vals IH]; intros start; [left; apply list_elem_of_here|].
  cbn [foldl]. destruct (IH (max2 start v)) as [Hin|Hnan]; [|now right].
  apply elem_of_cons in Hin as [Heq|Hin].
  - rewrite Heq. destruct start as [| | |p], v as [| | |q]; cbn [max2];
      try (now right);
      try (left; apply list_elem_of_here);
      try (left; apply list_elem_of_further, list_elem_of_here).
    destruct (Qle_bool p q);
      [left; apply list_elem_of_further, list_elem_of_here|left; apply list_elem_of_here].
  - left. now do 2 apply list_elem_of_further.
Qed.

(** Five steps reach beyond the running maximum. *)
Lemma stepOf_above (m : Q) : (0 <= m)%Q -> (m < inject_Z 5 * inject_Z (stepOf m))%Q.
Proof.
  intros Hm. unfold stepOf.
  pose proof (Qle_ceiling m) as H1.
  pose proof (Qle_ceiling (inject_Z (Qceiling m) / inject_Z 5 + inject_Z 1)) as H2.
  set (s := inject_Z (Qceiling (inject_Z (Qceiling m) / inject_Z 5 + inject_Z 1))) in *.
  set (c := inject_Z (Qceiling m)) in *.
  assert (c / inject_Z 5 == c * (1 # 5))%Q as Hdiv by reflexivity.
  rewrite Hdiv in H2. change (inject_Z 5) with 5%Q. change (inject_Z 1) with 1%Q in H2. lra.
Qed.

(** There are five steps at most up to the axis maximum, and the maximum
    is less than one step above the running maximum. *)
Lemma ticksOf_tight (m : Q) :
  (0 <= m)%Q ->
  ticksOf m <= 5 /\ (inject_Z (ticksOf m * stepOf m) < m + inject_Z (stepOf m))%Q.
Proof.
  intros Hm. pose proof (stepOf_pos m Hm) as Hs. pose proof (stepOf_above m Hm) as Habove.
  assert (0 < inject_Z (stepOf m))%Q as Hs'.
  { change 0%Q with (inject_Z 0). rewrite <- Zlt_Qlt. lia. }
  split.
  - unfold ticksOf. rewrite <- (Qceiling_Z 5). apply Qceiling_resp_le.
    apply Qle_shift_div_r; [exact Hs'|]. now apply Qlt_le_weak.
  - pose proof (Qceiling_lt (m / inject_Z (stepOf m))) as Hlt. fold (ticksOf m) in Hlt.
    rewrite inject_Z_mult.
    unfold Z.sub in Hlt. rewrite inject_Z_plus in Hlt.
    change (inject_Z (- (1))) with (- (1))%Q in Hlt.
    assert (inject_Z (ticksOf m) < m / inject_Z (stepOf m) + 1)%Q as Hlt'.
    { set (q := (m / inject_Z (stepOf m))%Q) in *. set (k := inject_Z (ticksOf m)) in *.
      clearbody q k. lra. }
    apply Qlt_le_trans with ((m / inject_Z (stepOf m) + 1) * inject_Z (stepOf m))%Q.
    + apply Qmult_lt_compat_r; assumption.
    + rewrite Qmult_plus_distr_l, Qmult_1_l.
      rewrite (Qmult_comm (m / _)), Qmult_div_r; [apply Qle_refl|].
      intros Heq. rewrite Heq in Hs'. now apply Qlt_irrefl in Hs'.
Qed.

Lemma step_of_ceiling (c : Z) :
  0 <= c <= 2 ^ 50 ->
  Math_ceil (add (div (ofZ c) (ofZ 5)) (ofZ 1))
  = ofZ (Qceiling (inject_Z c / inject_Z 5 + inject_Z 1)).
Proof.
  intros Hc. change (2 ^ 50) with 1125899906842624 in Hc.
  unfold ofZ at 1 2 3. rewrite div_Fin by discriminate.
  set (x := (inject_Z c / inject_Z 5)%Q).
  set (k := c / 5). set (r := c mod 5).
  assert (c = 5 * k + r /\ 0 <= r < 5) as [Hdiv Hr]
    by (unfold k, r; Z.div_mod_to_equations; lia).
  assert (x == inject_Z k + inject_Z r * (1 # 5))%Q as Hx.
  { unfold x. rewrite Hdiv, inject_Z_plus, inject_Z_mult. change (inject_Z 5) with 5%Q. field. }
  clearbody x k r.
  assert (0 <= inject_Z k)%Q as Hk0 by (rewrite <- (Zle_Qle 0); lia).
  assert (inject_Z k <= 225179981368524)%Q as Hk1.
  { change 225179981368524%Q with (inject_Z 225179981368524). rewrite <- Zle_Qle. lia. }
  assert (0 <= inject_Z r)%Q as Hr0 by (rewrite <- (Zle_Qle 0); lia).
  assert (inject_Z r <= 4)%Q as Hr1
    by (change 4%Q with (inject_Z 4); rewrite <- Zle_Qle; lia).
  assert (pow2 49 == 562949953421312)%Q as H49 by reflexivity.
  assert (pow2 53 == 9007199254740992)%Q as H53 by reflexivity.
  assert (pow2 (-5) == 1 # 32)%Q as H5 by reflexivity.
  assert (Qabs x < pow2 49)%Q as Hx49 by (rewrite Qabs_pos; lra).
  assert (Qabs x < pow2 53)%Q as Hx53 by lra.
  rewrite (round64_fine x Hx53). cbn [add].
  set (x1 := Qred (nearest64 x)).
  assert (x1 == nearest64 x)%Q as Hx1 by apply Qred_correct.
  pose proof (nearest64_error x) as Ex.
  pose proof (ulpExponent_lt x 49 ltac:(lia) Hx49) as Hux.
  pose proof (pow2_le (ulpExponent x - 1) (-5) ltac:(lia)) as Hpx.
  apply Qabs_Qle_condition in Ex.
  set (y := (x1 + inject_Z 1)%Q).
  assert (y == x1 + 1)%Q as Hy by reflexivity. clearbody y x1.
  change (inject_Z 1) with 1%Q in *.
  assert (0 <= y)%Q as Hy0 by lra.
  assert (Qabs y < pow2 49)%Q as Hy49 by (rewrite Qabs_pos; lra).
  assert (Qabs y < pow2 53)%Q as Hy53 by lra.
  rewrite (round64_fine y Hy53). unfold Math_ceil, ofZ. do 2 f_equal.
  rewrite (Qceiling_comp _ _ (Qred_correct _)).
  pose proof (ulpExponent_fine x Hx53) as Hfx. pose proof (ulpExponent_fine y Hy53) as Hfy.
  destruct (Z.eq_dec r 0) as [Hr0'|Hrpos].
  - assert (x == inject_Z k)%Q as Hxk.
    { rewrite Hx, Hr0'. change (inject_Z 0) with 0%Q. ring. }
    assert (y == inject_Z (k + 1))%Q as Hyk.
    { rewrite Hy, Hx1, (nearest64_Z x Hfx k Hxk), inject_Z_plus. reflexivity. }
    rewrite (Qceiling_comp _ _ (nearest64_Z y Hfy _ Hyk)), Qceiling_Z.
    symmetry. apply Qceiling_unique. rewrite Hxk. unfold Z.sub.
    rewrite !inject_Z_plus. change (inject_Z 1) with 1%Q. change (inject_Z (- (1))) with (- (1))%Q.
    lra.
  - assert (1 <= inject_Z r)%Q as Hr2
      by (change 1%Q with (inject_Z 1); rewrite <- Zle_Qle; lia).
    pose proof (nearest64_error y) as Ey.
    pose proof (ulpExponent_lt y 49 ltac:(lia) Hy49) as Huy.
    pose proof (pow2_le (ulpExponent y - 1) (-5) ltac:(lia)) as Hpy.
    apply Qabs_Qle_condition in Ey.
    transitivity (k + 2).
    + apply Qceiling_unique. unfold Z.sub. rewrite !inject_Z_plus.
      change (inject_Z 2) with 2%Q. change (inject_Z (- (1))) with (- (1))%Q. lra.
    + symmetry. apply Qceiling_unique. unfold Z.sub. rewrite !inject_Z_plus.
      change (inject_Z 2) with 2%Q. change (inject_Z (- (1))) with (- (1))%Q. lra.
Qed.

Lemma stepOf_below (m : Q) :
  (0 <= m)%Q -> (inject_Z 5 * inject_Z (stepOf m) < m + 11)%Q.
Proof.
  intros Hm. unfold stepOf.
  pose proof (Qceiling_lt m) as H1.
  pose proof (Qceiling_lt (inject_Z (Qceiling m) / inject_Z 5 + inject_Z 1)) as H2.
  unfold Z.sub in H1, H2. rewrite inject_Z_plus in H1, H2.
  set (s := inject_Z (Qceiling (inject_Z (Qceiling m) / inject_Z 5 + inject_Z 1))) in *.
  set (c := inject_Z (Qceiling m)) in *.
  assert (c / inject_Z 5 == c * (1 # 5))%Q as Hdiv by reflexivity.
  rewrite Hdiv in H2. change (inject_Z 5) with 5%Q. change (inject_Z 1) with 1%Q in H2.
  change (inject_Z (- (1))) with (- (1))%Q in *. clearbody s c. lra.
Qed.

(** The number of steps: the rounding of [maxSteps / stepSize] does not
    move its ceiling, and the product is exact. *)
Lemma ticks_of_maximum (m : Q) :
  binary64 m ->
  (0 <= m <= pow2 50)%Q ->
  (m == 0 \/ pow2 (-1021) <= m)%Q ->
  mul (Math_ceil (div (Fin m) (ofZ (stepOf m)))) (ofZ (stepOf m))
  = ofZ (ticksOf m * stepOf m).
Proof.
  intros Hbin [Hm0 Hm50] Hnormal.
  assert (m < pow2 53)%Q as Hm53 by (pose proof (pow2_lt 50 53 ltac:(lia)); lra).
  pose proof (stepOf_pos m Hm0) as Hs. pose proof (stepOf_above m Hm0) as Habove.
  pose proof (stepOf_below m Hm0) as Hbelow.
  unfold ticksOf. set (s := stepOf m) in *.
  assert (0 < inject_Z s)%Q as HS by (rewrite <- (Zlt_Qlt 0); lia).
  assert (1 <= inject_Z s)%Q as HS1
    by (change 1%Q with (inject_Z 1); rewrite <- Zle_Qle; lia).
  assert (~ (inject_Z s == 0)%Q) as HS0 by lra.
  unfold ofZ at 1. rewrite div_Fin by exact HS0.
  set (q := (m / inject_Z s)%Q).
  assert (q * inject_Z s == m)%Q as Hq by (unfold q; field; exact HS0).
  assert (pow2 50 == 1125899906842624)%Q as H50 by reflexivity.
  assert (pow2 53 == 9007199254740992)%Q as H53 by reflexivity.
  change (inject_Z 5) with 5%Q in *.
  assert (0 <= q)%Q as Hq0.
  { unfold q. apply Qle_shift_div_l; [exact HS|]. lra. }
  assert (q < 5)%Q as Hq5.
  { unfold q. apply Qlt_shift_div_r; [exact HS|]. lra. }
  assert (Qabs q < pow2 53)%Q as Hq53 by (rewrite Qabs_pos; lra).
  pose proof (ulpExponent_fine q Hq53) as Hfine.
  rewrite (round64_fine q Hq53). cbn [Math_ceil].
  rewrite (Qceiling_comp _ _ (Qred_correct _)).
  set (T := Qceiling q).
  assert (0 <= T <= 5) as HT.
  { unfold T. split.
    - rewrite <- (Qceiling_Z 0). now apply Qceiling_resp_le.
    - rewrite <- (Qceiling_Z 5). apply Qceiling_resp_le. change (inject_Z 5) with 5%Q. lra. }
  assert (Qceiling (nearest64 q) = T) as ->.
  { apply Qceiling_unique. split; [|apply (nearest64_le q Hfine), Qle_ceiling].
    destruct (Z_le_gt_dec T 0) as [HT0|HT1].
    - apply Qlt_le_trans with (inject_Z 0); [rewrite <- Zlt_Qlt; lia|].
      now apply (nearest64_ge q Hfine).
    - apply (nearest64_above q Hfine).
      pose proof (Qceiling_lt q) as Hj. fold T in Hj.
      set (j := T - 1) in *.
      assert (0 <= inject_Z j)%Q as Hj0 by (rewrite <- (Zle_Qle 0); lia).
      assert (0 < m)%Q as Hmpos by nra.
      assert (pow2 (-1021) <= m)%Q as Hm1021 by (destruct Hnormal; [lra|assumption]).
      assert (inject_Z (j * s) < m)%Q as HN by (rewrite inject_Z_mult; nra).
      assert (0 <= j * s) as HN0 by (apply Z.mul_nonneg_nonneg; lia).
      pose proof (binary64_spacing m (j * s) Hbin Hm53 HN0 HN) as Hspace.
      rewrite inject_Z_mult in Hspace.
      pose proof (pow2_pos (-53)) as Hp53.
      assert (q * pow2 (-53) < q - inject_Z j)%Q as Hgap.
      { set (J := inject_Z j) in *. set (S := inject_Z s) in *. set (p := pow2 (-53)) in *.
        clearbody J S p q. rewrite <- Hq in Hspace. nra. }
      assert (pow2 (-1022) <= q)%Q as Hq1022.
      { destruct (Z_le_gt_dec s 2) as [Hs2|Hs3].
        - assert (pow2 (-1021) == 2 * pow2 (-1022))%Q as H by (rewrite <- pow2_succ; reflexivity).
          assert (inject_Z s <= 2)%Q as HS2
            by (change 2%Q with (inject_Z 2); rewrite <- Zle_Qle; lia).
          pose proof (pow2_pos (-1022)) as Hp.
          set (S := inject_Z s) in *. set (a := pow2 (-1021)) in *.
          set (b := pow2 (-1022)) in *. clearbody S a b q. nra.
        - assert (3 <= inject_Z s)%Q as HS3
            by (change 3%Q with (inject_Z 3); rewrite <- Zle_Qle; lia).
          pose proof (pow2_le (-1022) 0 ltac:(lia)) as Hp. change (pow2 0) with 1%Q in Hp.
          assert (1 <= q)%Q; [|lra].
          set (S := inject_Z s) in *. clearbody S q. nra. }
      assert (-1022 <= binade q) as Hbinade
        by (apply binade_ge; rewrite Qabs_pos; assumption).
      assert (ulpExponent q - 1 = binade q + -53) as -> by (unfold ulpExponent; lia).
      rewrite pow2_add.
      assert (~ (q == 0)%Q) as Hqne by (pose proof (pow2_pos (-1022)); lra).
      destruct (binade_spec q Hqne) as [Hlow _]. rewrite Qabs_pos in Hlow by exact Hq0.
      set (b := pow2 (binade q)) in *. set (p := pow2 (-53)) in *.
      set (J := inject_Z j) in *. clearbody b p J q. nra. }
  cbn [mul ofZ]. apply round64_Z; [|now rewrite inject_Z_mult].
  assert (inject_Z s < 225179981368527)%Q as HSmax by lra.
  change 225179981368527%Q with (inject_Z 225179981368527) in HSmax.
  rewrite <- Zlt_Qlt in HSmax. change (2 ^ 53) with 9007199254740992. nia.
Qed.

(** The scale that the two statements after the loop leave for a running
    maximum [m] that is 0, or between [2 ^ -1021] and [2 ^ 50]. *)
Lemma scale_of_finite (m : Q) :
  binary64 m ->
  (0 <= m <= pow2 50)%Q ->
  (m == 0 \/ pow2 (-1021) <= m)%Q ->
  let step := Math_ceil (add (div (Math_ceil (Fin m)) (ofZ 5)) (ofZ 1)) in
  step = ofZ (stepOf m)
  /\ mul (Math_ceil (div (Fin m) step)) step = ofZ (ticksOf m * stepOf m).
Proof.
  intros Hbin Hm Hnormal. cbv zeta.
  assert (Math_ceil (add (div (Math_ceil (Fin m)) (ofZ 5)) (ofZ 1)) = ofZ (stepOf m)) as Hstep.
  { cbn [Math_ceil]. apply step_of_ceiling. destruct Hm as [Hm0 Hm50]. split.
    - rewrite <- (Qceiling_Z 0). now apply Qceiling_resp_le.
    - rewrite <- (Qceiling_Z (2 ^ 50)). apply Qceiling_resp_le. now rewrite <- pow2_Z by lia. }
  rewrite Hstep. split; [reflexivity|]. now apply ticks_of_maximum.
Qed.

Lemma inScaleRange_finite (v : number) : inScaleRange v = true -> isFinite v = true.
Proof. now destruct v. Qed.

(** The range of a list of values is checked value by value. *)
Lemma inScaleRange_all (vals : list number) :
  forallb inScaleRange vals = true -> Forall (fun v => inScaleRange v = true) vals.
Proof.
  induction vals as [|v vals IH]; [constructor|]. cbn [forallb].
  intros [Hv Hvals]%andb_true_iff. constructor; [exact Hv|exact (IH Hvals)].
Qed.

(** The running maximum of numbers in the range of the scale, from a start
    in that range that is not negative, is one of them. *)
Lemma running_maximum (vals : list number) (m0 : Q) :
  (0 <= m0)%Q ->
  Forall (fun v => inScaleRange v = true) (Fin m0 :: vals) ->
  Forall isNumber (Fin m0 :: vals) ->
  exists m : Q,
    foldl max2 (Fin m0) vals = Fin m
    /\ (m0 <= m)%Q
    /\ Forall (fun v => leb v (Fin m) = true) vals
    /\ binary64 m
    /\ (0 <= m <= pow2 50)%Q
    /\ (m == 0 \/ pow2 (-1021) <= m)%Q.
Proof.
  intros Hstart Hrange Hnumbers.
  assert (Forall (fun v => isFinite v = true) vals) as Hfinite.
  { apply Forall_cons in Hrange as [_ Hrange].
    eapply Forall_impl; [exact Hrange|apply inScaleRange_finite]. }
  destruct (foldl_max2_finite vals m0 Hfinite) as (m & Hm & Hle & Hall).
  exists m. refine (conj Hm (conj Hle (conj Hall _))).
  destruct (foldl_max2_attained vals (Fin m0)) as [Hin|Hnan]; [|congruence].
  rewrite Hm in Hin. rewrite Forall_forall in Hrange, Hnumbers.
  pose proof (Hrange _ Hin) as Hr. pose proof (Hnumbers _ Hin) as Hn.
  cbn in Hr, Hn. apply andb_true_iff in Hr as [H50 Hlow].
  apply Qle_bool_iff in H50. split; [exact Hn|]. split; [split; [lra|exact H50]|].
  apply orb_true_iff in Hlow as [H0|H1021]; apply Qle_bool_iff in H0 || apply Qle_bool_iff in H1021.
  - left. lra.
  - now right.
Qed.

End ScaleFacts.

(** ** The calendar *)

Section CalendarFacts.

Import JS.

(** [YearFromDay] is the year number of ECMAScript: the year that holds day
    [d]. *)
Lemma YearFromDay_spec (d : Z) :
  DayFromYear (YearFromDay d) <= d < DayFromYear (YearFromDay d + 1).
Proof.
  unfold YearFromDay. cbv zeta.
  set (y := 1970 + d * 400 / 146097).
  assert (146097 * (y - 1970) <= d * 400 < 146097 * (y - 1970) + 146097) as Hy.
  { unfold y. pose proof (Z.div_mod (d * 400) 146097 ltac:(lia)).
    pose proof (Z.mod_pos_bound (d * 400) 146097 ltac:(lia)). lia. }
  clearbody y.
  destruct (Z.leb_spec (DayFromYear (y + 1)) d) as [H1|H1].
  - split; [exact H1|]. unfold DayFromYear in *. Z.div_mod_to_equations; lia.
  - destruct (Z.leb_spec (DayFromYear y) d) as [H2|H2].
    + split; assumption.
    + replace (y - 1 + 1) with y by lia. split; [|exact H2].
      unfold DayFromYear in *. Z.div_mod_to_equations; lia.
Qed.

Lemma MonthFromTime_range (t : Z) : 0 <= MonthFromTime t <= 11.
Proof. unfold MonthFromTime. repeat case_match; lia. Qed.

(** Year, month and date of a time value make its day again. *)
Lemma MakeDay_fields (t : Z) :
  MakeDay (YearFromTime t) (MonthFromTime t) (DateFromTime t) = Day t.
Proof.
  pose proof (MonthFromTime_range t) as Hmonth.
  unfold MakeDay. cbv zeta.
  rewrite (Z.div_small (MonthFromTime t) 12), (Z.mod_small (MonthFromTime t) 12) by lia.
  rewrite Z.add_0_r. fold (InLeapYear t). unfold DateFromTime, DayWithinYear. lia.
Qed.

Example calendar_of_leap_day :
  let t := 19782 * msPerDay + 3600000 in
  (YearFromTime t, MonthFromTime t, DateFromTime t, TimeWithinDay t) = (2024, 1, 29, 3600000).
Proof. reflexivity. Qed.

Example calendar_before_epoch :
  (YearFromTime (-1), MonthFromTime (-1), DateFromTime (-1)) = (1969, 11, 31).
Proof. reflexivity. Qed.

Example parseFloat_examples :
  map parseFloat ["45"; " 5.25"; "-5"; "abc"; "5,000"; "1e3"; "-Infinity"; "12px"; ".5"; "."; ""]
  = [Fin 45; Fin (21 # 4); Fin (-5); NaN; Fin 5; Fin 1000; NegInf; Fin 12; Fin (1 # 2); NaN; NaN].
Proof. reflexivity. Qed.

End CalendarFacts.

(** ** More on the calendar *)

Section MonthFacts.

Import JS.

Lemma DaysInYear_cases (y : Z) : DaysInYear y = 365 \/ DaysInYear y = 366.
Proof. unfold DaysInYear. repeat case_match; auto. Qed.

Lemma DayFromYear_succ (y : Z) : DayFromYear (y + 1) = DayFromYear y + DaysInYear y.
Proof.
  unfold DayFromYear, DaysInYear.
  destruct (Z.eqb_spec (y mod 4) 0) as [H4|H4]; cbn [negb];
    [destruct (Z.eqb_spec (y mod 100) 0) as [H100|H100]; cbn [negb];
     [destruct (Z.eqb_spec (y mod 400) 0) as [H400|H400]; cbn [negb]|]|];
    Z.div_mod_to_equations; lia.
Qed.

Lemma DayFromYear_lt (y y' : Z) : y < y' -> DayFromYear y < DayFromYear y'.
Proof. intros Hlt. unfold DayFromYear. Z.div_mod_to_equations. lia. Qed.

(** The year that holds a day is the only one that starts on it or before
    and ends after it. *)
Lemma YearFromDay_unique (d y : Z) :
  DayFromYear y <= d < DayFromYear (y + 1) -> YearFromDay d = y.
Proof.
  intros Hy. pose proof (YearFromDay_spec d) as Hspec.
  destruct (Z.lt_trichotomy (YearFromDay d) y) as [Hlt|[Heq|Hgt]]; [|exact Heq|].
  - destruct (Z.eq_dec (YearFromDay d + 1) y) as [Heq|Hne].
    + rewrite Heq in Hspec. lia.
    + pose proof (DayFromYear_lt (YearFromDay d + 1) y ltac:(lia)). lia.
  - destruct (Z.eq_dec (y + 1) (YearFromDay d)) as [Heq|Hne].
    + rewrite <- Heq in Hspec. lia.
    + pose proof (DayFromYear_lt (y + 1) (YearFromDay d) ltac:(lia)). lia.
Qed.

Lemma DayWithinYear_range (t : Z) : 0 <= DayWithinYear t < DaysInYear (YearFromTime t).
Proof.
  unfold DayWithinYear, YearFromTime. pose proof (YearFromDay_spec (Day t)) as Hspec.
  rewrite DayFromYear_succ in Hspec. lia.
Qed.

Lemma DateFromTime_range (t : Z) : 1 <= DateFromTime t <= 31.
Proof.
  pose proof (DayWithinYear_range t) as Hday.
  unfold DateFromTime, MonthFromTime, InLeapYear in *.
  destruct (Z.eqb_spec (DaysInYear (YearFromTime t)) 366) as [Hleap|Hleap].
  - rewrite Hleap in Hday. repeat case_match; cbn [daysBeforeMonth]; lia.
  - destruct (DaysInYear_cases (YearFromTime t)); [|contradiction].
    repeat case_match; cbn [daysBeforeMonth]; lia.
Qed.

Lemma TimeWithinDay_range (t : Z) : 0 <= TimeWithinDay t < msPerDay.
Proof. unfold TimeWithinDay, msPerDay. apply Z.mod_pos_bound. lia. Qed.

Lemma Day_TimeWithinDay (t : Z) : t = Day t * msPerDay + TimeWithinDay t.
Proof. unfold Day, TimeWithinDay, msPerDay. Z.div_mod_to_equations. lia. Qed.

Lemma MakeDate_fields (day time : Z) :
  0 <= time < msPerDay ->
  Day (MakeDate day time) = day /\ TimeWithinDay (MakeDate day time) = time.
Proof.
  intros Htime. unfold Day, TimeWithinDay, MakeDate, msPerDay in *.
  split; Z.div_mod_to_equations; lia.
Qed.

Lemma MakeDay_date (year month date : Z) :
  MakeDay year month date = MakeDay year month 1 + (date - 1).
Proof. unfold MakeDay. lia. Qed.

Lemma TimeClip_Some (t clipped : Z) : TimeClip t = Some clipped -> clipped = t.
Proof. unfold TimeClip. case_match; congruence. Qed.

Lemma month_cases (month : Z) :
  0 <= month <= 11 ->
  month = 0 \/ month = 1 \/ month = 2 \/ month = 3 \/ month = 4 \/ month = 5
  \/ month = 6 \/ month = 7 \/ month = 8 \/ month = 9 \/ month = 10 \/ month = 11.
Proof. lia. Qed.

(** The first day of month [month] of year [year], at any time of the day,
    reads back as that year, that month and day 1. *)
Lemma first_of_month (year month t : Z) :
  0 <= month <= 11 ->
  Day t = MakeDay year month 1 ->
  YearFromTime t = year /\ MonthFromTime t = month /\ DateFromTime t = 1.
Proof.
  intros Hmonth Hday. unfold MakeDay in Hday. cbv zeta in Hday.
  rewrite (Z.div_small month 12), (Z.mod_small month 12), Z.add_0_r in Hday by lia.
  set (leap := if DaysInYear year =? 366 then 1 else 0) in *.
  assert (leap = 0 \/ leap = 1) as Hleap by (unfold leap; case_match; auto).
  assert (DaysInYear year = 365 + leap) as Hlength.
  { unfold leap. destruct (Z.eqb_spec (DaysInYear year) 366); [lia|].
    destruct (DaysInYear_cases year); lia. }
  pose proof (month_cases month Hmonth) as Hcases.
  assert (0 <= daysBeforeMonth month leap < 365 + leap) as Hbefore.
  { destruct Hleap as [-> | ->];
      destruct Hcases as [->|[->|[->|[->|[->|[->|[->|[->|[->|[->|[->| ->]]]]]]]]]]];
      cbn; lia. }
  assert (YearFromTime t = year) as Hyear.
  { unfold YearFromTime. apply YearFromDay_unique. rewrite DayFromYear_succ. lia. }
  assert (DayWithinYear t = daysBeforeMonth month leap) as Hwithin.
  { unfold DayWithinYear. rewrite Hyear. lia. }
  assert (InLeapYear t = leap) as Hin by (unfold InLeapYear; now rewrite Hyear).
  split; [exact Hyear|].
  unfold DateFromTime, MonthFromTime. cbv zeta. rewrite Hin, Hwithin.
  clear - Hleap Hcases.
  destruct Hleap as [-> | ->];
    destruct Hcases as [->|[->|[->|[->|[->|[->|[->|[->|[->|[->|[->| ->]]]]]]]]]]];
    split; reflexivity.
Qed.

(** The quotients and remainders by 12 of month numbers that are known. *)
Ltac evalMonth :=
  repeat match goal with
         | |- context [?a / 12] =>
             let v := eval vm_compute in (a / 12) in change (a / 12) with v
         | |- context [?a mod 12] =>
             let v := eval vm_compute in (a mod 12) in change (a mod 12) with v
         end.

(** The same day of the month two months back is 59 to 62 days back. *)
Lemma MakeDay_two_months (year month date : Z) :
  0 <= month <= 11 ->
  59 <= MakeDay year month date - MakeDay year (month - 2) date <= 62.
Proof.
  intros Hmonth. unfold MakeDay. cbv zeta.
  pose proof (DayFromYear_succ (year + -1)) as Hprev.
  replace (year + -1 + 1) with year in Hprev by lia.
  destruct (DaysInYear_cases year) as [Hyear|Hyear],
           (DaysInYear_cases (year + -1)) as [Hbefore|Hbefore];
    destruct (month_cases month Hmonth)
      as [->|[->|[->|[->|[->|[->|[->|[->|[->|[->|[->| ->]]]]]]]]]]];
    evalMonth; rewrite ?Z.add_0_r, ?Hyear, ?Hbefore in *;
    cbn [daysBeforeMonth Z.eqb Pos.eqb]; lia.
Qed.

End MonthFacts.

(** ** Keys of the two sets: integers between dashes *)

Section KeyFacts.

Import JS.

Lemma dashFree_separator (a : string) :
  forall a' r r' : string,
    dashFree a = true -> dashFree a' = true ->
    a +:+ String "-" r = a' +:+ String "-" r' ->
    a = a' /\ r = r'.
Proof.
  induction a as [|c a IH]; intros [|c' a'] r r' Ha Ha' Heq.
  - rewrite !append_nil_l in Heq. now injection Heq.
  - rewrite append_nil_l, append_cons in Heq. injection Heq as <- _.
    cbn in Ha'. discriminate.
  - rewrite append_nil_l, append_cons in Heq. injection Heq as -> _.
    cbn in Ha. discriminate.
  - rewrite !append_cons in Heq. injection Heq as -> Heq.
    cbn in Ha, Ha'. apply andb_true_iff in Ha as [_ Ha]. apply andb_true_iff in Ha' as [_ Ha'].
    destruct (IH a' r r' Ha Ha' Heq) as [-> ->]. split; reflexivity.
Qed.

Lemma pretty_N_char_dashFree (d : N) (s : string) :
  dashFree (String (pretty_N_char d) s) = dashFree s.
Proof. unfold pretty_N_char. now repeat case_match. Qed.

Lemma pretty_N_go_dashFree (n : N) :
  forall s : string, dashFree s = true -> dashFree (pretty_N_go n s) = true.
Proof.
  induction (N.lt_wf_0 n) as [n _ IH]; intros s Hs.
  destruct (decide (n = 0)%N) as [->|Hn]; [now rewrite pretty_N_go_0|].
  rewrite pretty_N_go_step by lia. apply IH.
  - apply N.div_lt; lia.
  - now rewrite pretty_N_char_dashFree.
Qed.

Lemma pretty_N_go_nonempty (n : N) :
  forall s : string, s <> "" -> pretty_N_go n s <> "".
Proof.
  induction (N.lt_wf_0 n) as [n _ IH]; intros s Hs.
  destruct (decide (n = 0)%N) as [->|Hn]; [now rewrite pretty_N_go_0|].
  rewrite pretty_N_go_step by lia. apply IH; [apply N.div_lt; lia|discriminate].
Qed.

Lemma pretty_N_dashFree (n : N) : dashFree (pretty n) = true /\ pretty n <> "".
Proof.
  unfold pretty, pretty_N. case_decide; [split; [reflexivity|discriminate]|].
  split; [now apply pretty_N_go_dashFree|].
  rewrite pretty_N_go_step by lia. now apply pretty_N_go_nonempty.
Qed.

(** The decimal form of an integer has a dash at its front or nowhere. *)
Lemma pretty_Z_shape (z : Z) :
  exists (c : ascii) (s : string), pretty z = String c s /\ dashFree s = true.
Proof.
  assert (forall p : positive, exists c s, pretty p = String c s /\ dashFree s = true) as Hpos.
  { intros p. destruct (pretty_N_dashFree (Npos p)) as [Hfree Hne].
    change (pretty (N.pos p)) with (pretty p) in *.
    destruct (pretty p) as [|c s]; [congruence|].
    exists c, s. split; [reflexivity|]. cbn in Hfree. now apply andb_true_iff in Hfree. }
  destruct z as [|p|p].
  - exists "0"%char, "". split; reflexivity.
  - apply Hpos.
  - exists "-"%char, (pretty p). split; [reflexivity|].
    destruct (pretty_N_dashFree (Npos p)) as [Hfree _]. exact Hfree.
Qed.

Lemma pretty_Z_separator (z z' : Z) (r r' : string) :
  pretty z +:+ String "-" r = pretty z' +:+ String "-" r' -> z = z' /\ r = r'.
Proof.
  destruct (pretty_Z_shape z) as (c & s & Hz & Hs).
  destruct (pretty_Z_shape z') as (c' & s' & Hz' & Hs').
  intros Heq. rewrite Hz, Hz', !append_cons in Heq. injection Heq as -> Heq.
  destruct (dashFree_separator s s' r r' Hs Hs' Heq) as [-> ->].
  split; [|reflexivity]. apply (inj pretty). congruence.
Qed.

Lemma monthName_dashFree (month : option Z) : dashFree (EINDataReader.monthName month) = true.
Proof.
  destruct month as [m|]; [|reflexivity]. unfold EINDataReader.monthName.
  destruct (0 <=? m); [|reflexivity].
  destruct (Z.to_nat m) as [|[|[|[|[|[|[|[|[|[|[|[|n]]]]]]]]]]]]; reflexivity.
Qed.

Lemma monthName_inj (m m' : Z) :
  0 <= m <= 11 -> 0 <= m' <= 11 ->
  EINDataReader.monthName (Some m) = EINDataReader.monthName (Some m') -> m = m'.
Proof.
  intros Hm Hm' Heq.
  assert (Z.to_nat m = Z.to_nat m') as Hnat; [|lia].
  unfold EINDataReader.monthName in Heq.
  destruct (Z.leb_spec 0 m); [|lia]. destruct (Z.leb_spec 0 m'); [|lia].
  assert (Z.to_nat m < 12)%nat as Hlt by lia.
  assert (Z.to_nat m' < 12)%nat as Hlt' by lia.
  destruct (Z.to_nat m) as [|[|[|[|[|[|[|[|[|[|[|[|n]]]]]]]]]]]]; try lia;
  destruct (Z.to_nat m') as [|[|[|[|[|[|[|[|[|[|[|[|n']]]]]]]]]]]]; try lia;
  first [reflexivity | discriminate Heq].
Qed.

Lemma monthName_nonempty (m : Z) : EINDataReader.monthName (Some m) <> "".
Proof.
  unfold EINDataReader.monthName. destruct (0 <=? m); [|discriminate].
  destruct (Z.to_nat m) as [|[|[|[|[|[|[|[|[|[|[|[|n]]]]]]]]]]]]; discriminate.
Qed.

End KeyFacts.

(** ** Sorting *)

Section SortFacts.

Import JS Spec.

Context {A : Type} (key : A -> Z).

Lemma insertSorted_Permutation (a : A) (l : list A) : insertSorted key a l ≡ₚ a :: l.
Proof.
  induction l as [|b l IH]; [reflexivity|]. cbn [insertSorted].
  destruct (key a <=? key b); [reflexivity|].
  rewrite IH. apply Permutation_swap.
Qed.

Lemma sort_Permutation (l : list A) : sort key l ≡ₚ l.
Proof.
  induction l as [|a l IH]; [reflexivity|]. cbn [sort].
  now rewrite insertSorted_Permutation, IH.
Qed.

Lemma insertSorted_StronglySorted (a : A) (l : list A) :
  StronglySorted (keyLe key) l -> StronglySorted (keyLe key) (insertSorted key a l).
Proof.
  induction l as [|b l IH]; intros Hl; cbn [insertSorted].
  - repeat constructor.
  - apply StronglySorted_inv in Hl as [Hl Hb].
    destruct (Z.leb_spec (key a) (key b)) as [Hab|Hab].
    + constructor; [now constructor|]. constructor; [exact Hab|].
      eapply Forall_impl; [exact Hb|]. unfold keyLe. intros; lia.
    + constructor; [now apply IH|].
      rewrite insertSorted_Permutation. constructor; [unfold keyLe; lia|exact Hb].
Qed.

Lemma sort_StronglySorted (l : list A) : StronglySorted (keyLe key) (sort key l).
Proof.
  induction l as [|a l IH]; [constructor|]. now apply insertSorted_StronglySorted.
Qed.

(** The sort is stable: the elements of one key keep their order. *)
Lemma insertSorted_filter (k : Z) (a : A) (l : list A) :
  List.filter (fun b => key b =? k) (insertSorted key a l)
  = List.filter (fun b => key b =? k) (a :: l).
Proof.
  induction l as [|b l IH]; [reflexivity|]. cbn [insertSorted].
  destruct (Z.leb_spec (key a) (key b)) as [Hab|Hab]; [reflexivity|].
  cbn [List.filter] in *. rewrite IH.
  destruct (Z.eqb_spec (key a) k), (Z.eqb_spec (key b) k); try reflexivity. lia.
Qed.

Lemma sort_stable (k : Z) (l : list A) :
  List.filter (fun b => key b =? k) (sort key l) = List.filter (fun b => key b =? k) l.
Proof.
  induction l as [|a l IH]; [reflexivity|]. cbn [sort].
  rewrite insertSorted_filter. cbn [List.filter]. now rewrite IH.
Qed.

Lemma StronglySorted_sublist (R : relation A) (l1 l2 : list A) :
  l1 `sublist_of` l2 -> StronglySorted R l2 -> StronglySorted R l1.
Proof.
  induction 1 as [|a l1 l2 Hsub IH|a l1 l2 Hsub IH]; intros Hsorted.
  - constructor.
  - apply StronglySorted_inv in Hsorted as [Hsorted Ha]. constructor; [now apply IH|].
    apply Forall_forall. intros b Hb. rewrite Forall_forall in Ha. apply Ha.
    eapply elem_of_sublist; eassumption.
  - apply StronglySorted_inv in Hsorted as [Hsorted _]. now apply IH.
Qed.

End SortFacts.

(** ** One element per key, the first *)

Section FirstFacts.

Import Spec.

Context {A : Type} (key : A -> string).

Lemma firstsNotIn_sublist (l : list A) :
  forall seen, firstsNotIn key seen l `sublist_of` l.
Proof.
  induction l as [|a l IH]; intros seen; cbn [firstsNotIn]; [constructor|].
  case_decide; [apply sublist_cons|apply sublist_skip]; apply IH.
Qed.

Lemma firstsNotIn_fresh (l : list A) :
  forall seen a, a ∈ firstsNotIn key seen l -> key a ∉ seen.
Proof.
  induction l as [|b l IH]; intros seen a Ha; cbn [firstsNotIn] in Ha.
  - now apply elem_of_nil in Ha.
  - case_decide as Hb; [now apply IH in Ha|].
    apply elem_of_cons in Ha as [->|Ha]; [exact Hb|].
    apply IH in Ha. set_solver.
Qed.

Lemma firstsNotIn_NoDup (l : list A) :
  forall seen, NoDup (key <$> firstsNotIn key seen l).
Proof.
  induction l as [|a l IH]; intros seen; cbn [firstsNotIn]; [constructor|].
  case_decide; [apply IH|]. rewrite fmap_cons. constructor; [|apply IH].
  intros Hin. apply list_elem_of_fmap in Hin as (b & Hkey & Hb).
  apply firstsNotIn_fresh in Hb. set_solver.
Qed.

(** An element with a new key and no element of that key on its left is
    kept. *)
Lemma firstsNotIn_keeps (pre : list A) :
  forall seen a post,
    key a ∉ seen ->
    Forall (fun b => key b <> key a) pre ->
    a ∈ firstsNotIn key seen (pre ++ a :: post).
Proof.
  induction pre as [|b pre IH]; intros seen a post Hseen Hpre.
  - cbn [app firstsNotIn]. rewrite decide_False by assumption. apply list_elem_of_here.
  - apply Forall_cons in Hpre as [Hb Hpre']. cbn [app firstsNotIn].
    case_decide; [now apply IH|].
    apply list_elem_of_further, IH; [|assumption].
    rewrite not_elem_of_union, not_elem_of_singleton. split; [congruence|assumption].
Qed.

(** An element that is kept stands in [l] with no element of its key on its
    left. *)
Lemma firstsNotIn_first (l : list A) :
  forall seen a,
    a ∈ firstsNotIn key seen l ->
    exists pre post, l = pre ++ a :: post /\ Forall (fun b => key b <> key a) pre.
Proof.
  induction l as [|b l IH]; intros seen a Ha; cbn [firstsNotIn] in Ha.
  - now apply elem_of_nil in Ha.
  - case_decide as Hb.
    + pose proof (firstsNotIn_fresh _ _ _ Ha) as Hfresh.
      destruct (IH _ _ Ha) as (pre & post & -> & Hpre).
      exists (b :: pre), post. split; [reflexivity|].
      constructor; [|exact Hpre]. intros Heq. rewrite Heq in Hb. contradiction.
    + apply elem_of_cons in Ha as [->|Ha].
      * exists [], l. split; [reflexivity|constructor].
      * pose proof (firstsNotIn_fresh _ _ _ Ha) as Hfresh.
        destruct (IH _ _ Ha) as (pre & post & -> & Hpre).
        exists (b :: pre), post. split; [reflexivity|].
        constructor; [|exact Hpre]. intros Heq. set_solver.
Qed.

(** *** Marking the first element of each key *)

Variable name : A -> string.

Lemma labelsNotIn_length (l : list A) :
  forall seen, length (labelsNotIn key name seen l) = length l.
Proof.
  induction l as [|a l IH]; intros seen; [reflexivity|].
  cbn [labelsNotIn length]. now rewrite IH.
Qed.

Lemma labelsNotIn_seen (l : list A) :
  forall seen i a,
    l !! i = Some a -> key a ∈ seen -> labelsNotIn key name seen l !! i = Some "".
Proof.
  induction l as [|b l IH]; intros seen i a Hlookup Hseen; [discriminate|].
  destruct i as [|i]; cbn [labelsNotIn].
  - injection Hlookup as ->. now rewrite decide_True.
  - cbn in Hlookup. apply (IH _ i a Hlookup). case_decide; [assumption|].
    apply elem_of_union_r, Hseen.
Qed.

Lemma labelsNotIn_first (l : list A) :
  forall seen i a,
    l !! i = Some a ->
    key a ∉ seen ->
    (forall j b, (j < i)%nat -> l !! j = Some b -> key b <> key a) ->
    labelsNotIn key name seen l !! i = Some (name a).
Proof.
  induction l as [|b l IH]; intros seen i a Hlookup Hseen Hfirst; [discriminate|].
  destruct i as [|i]; cbn [labelsNotIn].
  - injection Hlookup as ->. now rewrite decide_False.
  - cbn in Hlookup. apply (IH _ i a Hlookup).
    + assert (key b <> key a) as Hb by (apply (Hfirst 0%nat b); [lia|reflexivity]).
      case_decide; [assumption|].
      rewrite not_elem_of_union, not_elem_of_singleton. split; [congruence|assumption].
    + intros j c Hj Hc. apply (Hfirst (S j) c); [lia|exact Hc].
Qed.

Lemma labelsNotIn_later (l : list A) :
  forall seen i a,
    l !! i = Some a ->
    (exists j b, (j < i)%nat /\ l !! j = Some b /\ key b = key a) ->
    labelsNotIn key name seen l !! i = Some "".
Proof.
  induction l as [|b l IH]; intros seen i a Hlookup (j & c & Hj & Hc & Hkey); [discriminate|].
  destruct i as [|i]; [lia|]. cbn [labelsNotIn]. cbn in Hlookup.
  destruct j as [|j].
  - injection Hc as ->. apply (labelsNotIn_seen l _ i a Hlookup).
    case_decide; [congruence|]. apply elem_of_union_l, elem_of_singleton. congruence.
  - cbn in Hc. apply (IH _ i a Hlookup). exists j, c. repeat split; [lia|assumption..].
Qed.

End FirstFacts.

Lemma first_occurrence {A B : Type} `{EqDecision B} (f : A -> B) (l : list A) (x : B) :
  x ∈ f <$> l ->
  exists i a,
    l !! i = Some a /\ f a = x
    /\ forall j b, (j < i)%nat -> l !! j = Some b -> f b <> x.
Proof.
  induction l as [|b l IH]; intros Hin.
  - now apply elem_of_nil in Hin.
  - destruct (decide (f b = x)) as [Hb|Hb].
    + exists 0%nat, b. repeat split; [assumption|]. intros j c Hj. lia.
    + rewrite fmap_cons in Hin. apply elem_of_cons in Hin as [Hin|Hin]; [congruence|].
      destruct (IH Hin) as (i & a & Hlookup & Ha & Hfirst).
      exists (S i), a. repeat split; [assumption..|].
      intros [|j] c Hj Hc; [cbn in Hc; congruence|].
      cbn in Hc. apply (Hfirst j c); [lia|exact Hc].
Qed.

(** ** The series normaliser *)

Section NormaliserFacts.

Import JS EINDataReader Spec.

Variable DateParse : string -> TimeValue.
Variable LocalTZA : Z -> bool -> Z.

Local Abbreviation dateKey := (dateKey LocalTZA).
Local Abbreviation labelCheckWithYear := (labelCheckWithYear LocalTZA).
Local Abbreviation calendarDay := (calendarDay LocalTZA).
Local Abbreviation monthYear := (monthYear LocalTZA).

(** *** Keys and what they stand for *)

Lemma dateKey_calendarDay (a b : ProcessedDataItem) :
  calendarDay a = calendarDay b -> dateKey a = dateKey b.
Proof.
  unfold Spec.calendarDay, EINDataReader.dateKey. intros Heq.
  injection Heq as -> -> ->. reflexivity.
Qed.

Lemma calendarDay_dateKey (a b : ProcessedDataItem) :
  validDate a -> validDate b -> dateKey a = dateKey b -> calendarDay a = calendarDay b.
Proof.
  intros [ta Ha] [tb Hb]. unfold Spec.calendarDay, EINDataReader.dateKey.
  rewrite Ha, Hb. cbn [getDate getMonth getFullYear fmap option_fmap option_map showInt].
  change ("-" +:+ ?r) with (String "-" r). intros Heq.
  apply pretty_Z_separator in Heq as [Hd Heq].
  apply pretty_Z_separator in Heq as [Hm Hy].
  apply (inj pretty) in Hy. cbn in *. congruence.
Qed.

Lemma labelKey_monthYear (a b : ProcessedDataItem) :
  monthYear a = monthYear b -> labelCheckWithYear a = labelCheckWithYear b.
Proof.
  unfold Spec.monthYear, EINDataReader.labelCheckWithYear. intros Heq.
  injection Heq as -> ->. reflexivity.
Qed.

Lemma monthYear_labelKey (a b : ProcessedDataItem) :
  validDate a -> validDate b ->
  labelCheckWithYear a = labelCheckWithYear b -> monthYear a = monthYear b.
Proof.
  intros [ta Ha] [tb Hb]. unfold Spec.monthYear, EINDataReader.labelCheckWithYear.
  rewrite Ha, Hb. cbn [getMonth getFullYear fmap option_fmap option_map showInt].
  change ("-" +:+ ?r) with (String "-" r). intros Heq.
  apply dashFree_separator in Heq as [Hm Hy]; try apply monthName_dashFree.
  apply (inj pretty) in Hy.
  apply monthName_inj in Hm; try apply MonthFromTime_range.
  cbn in *. congruence.
Qed.

(** *** uniqueData *)

Lemma foldl_uniqueStep (items : list ProcessedDataItem) :
  forall (seen : gset string) (unique : list ProcessedDataItem),
    (foldl (uniqueStep LocalTZA) (seen, unique) items).2
    = unique ++ firstsNotIn dateKey seen items.
Proof.
  induction items as [|item items IH]; intros seen unique; cbn [foldl firstsNotIn].
  - now rewrite app_nil_r.
  - unfold uniqueStep at 2. cbn [fst snd]. case_decide; [apply IH|].
    rewrite IH. now rewrite <- app_assoc.
Qed.

Lemma uniqueData_firsts (items : list ProcessedDataItem) :
  uniqueData LocalTZA items = firstsNotIn dateKey ∅ items.
Proof. unfold uniqueData. now rewrite foldl_uniqueStep. Qed.

(** *** The window and the sort *)

Lemma inWindow_valid (floor : TimeValue) (item : ProcessedDataItem) :
  inWindow floor item = true -> validDate item.
Proof.
  unfold inWindow, validDate. destruct (date item) as [t|]; [eauto|discriminate].
Qed.

Lemma dateFiltered_valid (rawData : list DataRow) :
  Forall validDate (dateFilteredMinProcessedData DateParse LocalTZA rawData).
Proof.
  unfold dateFilteredMinProcessedData. rewrite sort_Permutation.
  apply List.Forall_forall. intros item Hin. apply List.filter_In in Hin as [_ Hin].
  now apply inWindow_valid in Hin.
Qed.

Lemma dateFiltered_sorted (rawData : list DataRow) :
  StronglySorted (keyLe timeOf) (dateFilteredMinProcessedData DateParse LocalTZA rawData).
Proof. apply sort_StronglySorted. Qed.

Lemma unique_sublist (rawData : list DataRow) :
  uniqueData LocalTZA (dateFilteredMinProcessedData DateParse LocalTZA rawData)
  `sublist_of` dateFilteredMinProcessedData DateParse LocalTZA rawData.
Proof. rewrite uniqueData_firsts. apply firstsNotIn_sublist. Qed.

Lemma unique_valid (rawData : list DataRow) :
  Forall validDate (uniqueData LocalTZA (dateFilteredMinProcessedData DateParse LocalTZA rawData)).
Proof.
  apply Forall_forall. intros item Hin.
  pose proof (dateFiltered_valid rawData) as Hvalid. rewrite Forall_forall in Hvalid.
  apply Hvalid. eapply elem_of_sublist; [exact Hin|apply unique_sublist].
Qed.

Lemma sorted_strictly (l : list ProcessedDataItem) :
  StronglySorted (keyLe timeOf) l ->
  Forall validDate l ->
  NoDup (dateKey <$> l) ->
  StronglySorted dateLt l.
Proof.
  induction l as [|a l IH]; intros Hsorted Hvalid Hnodup; [constructor|].
  apply StronglySorted_inv in Hsorted as [Hsorted Ha].
  apply Forall_cons in Hvalid as [[ta Hta] Hvalid].
  rewrite fmap_cons in Hnodup. apply NoDup_cons in Hnodup as [Hfresh Hnodup].
  constructor; [now apply IH|].
  apply Forall_forall. intros b Hb.
  rewrite Forall_forall in Ha, Hvalid.
  destruct (Hvalid b Hb) as [tb Htb]. specialize (Ha b Hb).
  unfold keyLe, timeOf in Ha. unfold dateLt. rewrite Hta, Htb in *. cbn in Ha.
  destruct (decide (ta = tb)) as [->|Hne]; [|lia].
  exfalso. apply Hfresh. apply list_elem_of_fmap. exists b. split; [|exact Hb].
  unfold EINDataReader.dateKey. now rewrite Hta, Htb.
Qed.

(** X8: the series returned for the rows of a CSV text is strictly ascending
    by date and holds no calendar day twice; it is the sorted list of the
    records in the window with, of the records that carry one day when they
    are sorted, only the first one left. *)
Theorem normalized_series_sorted_one_per_day (this : t) (rows : list DataRow) :
  let sorted := dateFilteredMinProcessedData DateParse LocalTZA rows in
  let series := rawData (processDataForChart DateParse LocalTZA this rows).1 in
  StronglySorted dateLt series
  /\ NoDup (calendarDay <$> series)
  /\ series `sublist_of` sorted
  /\ (forall pre item post,
        sorted = pre ++ item :: post ->
        Forall (fun other => calendarDay other <> calendarDay item) pre ->
        item ∈ series)
  /\ (forall item,
        item ∈ series ->
        exists pre post,
          sorted = pre ++ item :: post
          /\ Forall (fun other => calendarDay other <> calendarDay item) pre).
Proof.
  intros sorted series.
  assert (series = firstsNotIn dateKey ∅ sorted) as Hseries by apply uniqueData_firsts.
  pose proof (dateFiltered_valid rows) as Hvalid. fold sorted in Hvalid.
  assert (NoDup (dateKey <$> series)) as Hkeys
    by (rewrite Hseries; apply firstsNotIn_NoDup).
  refine (conj _ (conj _ (conj _ (conj _ _)))).
  - apply sorted_strictly; [| |exact Hkeys].
    + eapply StronglySorted_sublist; [apply unique_sublist|apply dateFiltered_sorted].
    + apply unique_valid.
  - apply NoDup_fmap_1 with
      (f := fun day : option Z * option Z * option Z =>
              showInt day.2 +:+ "-" +:+ showInt day.1.2 +:+ "-" +:+ showInt day.1.1).
    now rewrite <- list_fmap_compose.
  - apply unique_sublist.
  - intros pre item post Hsplit Hpre. rewrite Hseries, Hsplit.
    apply firstsNotIn_keeps; [apply not_elem_of_empty|].
    rewrite Hsplit in Hvalid. apply Forall_app in Hvalid as [Hvalid_pre Hvalid_item].
    apply Forall_cons in Hvalid_item as [Hvalid_item _].
    rewrite Forall_forall in Hpre, Hvalid_pre. apply Forall_forall. intros other Hother Hkey.
    apply (Hpre other Hother). apply calendarDay_dateKey; auto.
  - intros item Hitem. rewrite Hseries in Hitem.
    destruct (firstsNotIn_first _ _ _ _ Hitem) as (pre & post & Hsplit & Hpre).
    exists pre, post. split; [exact Hsplit|].
    eapply Forall_impl; [exact Hpre|]. intros other Hkey Hday.
    apply Hkey. now apply dateKey_calendarDay.
Qed.

(** *** The loop over the unique records *)

Lemma foldl_loopStep_labels (items : list ProcessedDataItem) :
  forall st : LoopState,
    loopLabels (foldl (loopStep LocalTZA) st items)
    = loopLabels st
      ++ labelsNotIn labelCheckWithYear
           (fun item => monthName (getMonth LocalTZA (date item))) (seenLabels st) items.
Proof.
  induction items as [|item items IH]; intros st; cbn [foldl labelsNotIn].
  - now rewrite app_nil_r.
  - rewrite IH. cbn [loopStep loopLabels seenLabels]. now rewrite <- app_assoc.
Qed.

Lemma foldl_loopStep_maxSteps (items : list ProcessedDataItem) :
  forall st : LoopState,
    loopMaxSteps (foldl (loopStep LocalTZA) st items)
    = foldl max2 (loopMaxSteps st) (observedValues items).
Proof.
  induction items as [|item items IH]; intros st; [reflexivity|].
  cbn [foldl]. rewrite IH. cbn [loopStep loopMaxSteps].
  rewrite Math_max_cons. reflexivity.
Qed.

Lemma monthName_abbreviation (month : Z) :
  0 <= month <= 11 -> monthName (Some month) = monthAbbreviation month.
Proof.
  intros Hmonth.
  destruct (month_cases month Hmonth)
    as [->|[->|[->|[->|[->|[->|[->|[->|[->|[->|[->| ->]]]]]]]]]]]; reflexivity.
Qed.

(** C8: there are as many labels as records; the label of a record is the
    three-letter abbreviation of its month (JAN for the month numbered 0, to
    DEC for the month numbered 11) when no record before it has the same
    month and year, and empty when one has; so each month and year of the
    series has exactly one position with a label that is not empty. *)
Theorem labels_mark_first_of_month (this : t) (rows : list DataRow) :
  let chart := (processDataForChart DateParse LocalTZA this rows).1 in
  let series := rawData chart in
  length (labels chart) = length series
  /\ (forall i item,
        series !! i = Some item ->
        exists month,
          getMonth LocalTZA (date item) = Some month
          /\ 0 <= month <= 11
          /\ ((forall j other, (j < i)%nat -> series !! j = Some other ->
                               monthYear other <> monthYear item) ->
              labels chart !! i = Some (monthAbbreviation month))
          /\ ((exists j other, (j < i)%nat /\ series !! j = Some other
                               /\ monthYear other = monthYear item) ->
              labels chart !! i = Some ""))
  /\ (forall pair,
        pair ∈ monthYear <$> series ->
        exists i, labelledAt LocalTZA chart i pair
                  /\ forall j, labelledAt LocalTZA chart j pair -> j = i).
Proof.
  intros chart series.
  set (name := fun item : ProcessedDataItem => monthName (getMonth LocalTZA (date item))).
  assert (labels chart = labelsNotIn labelCheckWithYear name ∅ series) as Hlabels.
  { unfold chart, processDataForChart. cbn [fst labels]. now rewrite foldl_loopStep_labels. }
  pose proof (unique_valid rows) as Hvalid. fold series in Hvalid.
  rewrite Forall_forall in Hvalid.
  assert (forall i item, series !! i = Some item -> validDate item) as Hvalid_at.
  { intros i item Hi. apply Hvalid. eapply list_elem_of_lookup_2, Hi. }
  assert (forall i item,
            series !! i = Some item ->
            (forall j other, (j < i)%nat -> series !! j = Some other ->
                             monthYear other <> monthYear item) ->
            labels chart !! i = Some (name item)) as Hfirst.
  { intros i item Hi Hbefore. rewrite Hlabels.
    apply labelsNotIn_first; [exact Hi|apply not_elem_of_empty|].
    intros j other Hj Hother Hkey. apply (Hbefore j other Hj Hother).
    apply monthYear_labelKey; eauto. }
  assert (forall i item,
            series !! i = Some item ->
            (exists j other, (j < i)%nat /\ series !! j = Some other
                             /\ monthYear other = monthYear item) ->
            labels chart !! i = Some "") as Hlater.
  { intros i item Hi (j & other & Hj & Hother & Hpair). rewrite Hlabels.
    apply labelsNotIn_later with (a := item); [exact Hi|].
    exists j, other. repeat split; [assumption..|]. now apply labelKey_monthYear. }
  refine (conj _ (conj _ _)).
  - rewrite Hlabels. apply labelsNotIn_length.
  - intros i item Hi. destruct (Hvalid_at i item Hi) as [t Ht].
    pose proof (MonthFromTime_range (LocalTime LocalTZA t)) as Hrange.
    exists (MonthFromTime (LocalTime LocalTZA t)).
    assert (getMonth LocalTZA (date item) = Some (MonthFromTime (LocalTime LocalTZA t)))
      as Hmonth by (now rewrite Ht).
    refine (conj Hmonth (conj Hrange (conj _ (Hlater i item Hi)))).
    intros Hbefore. rewrite (Hfirst i item Hi Hbefore). unfold name.
    now rewrite Hmonth, monthName_abbreviation.
  - intros pair Hpair.
    destruct (first_occurrence monthYear series pair Hpair) as (i & item & Hi & Hitem & Hbefore).
    assert (name item <> "") as Hname.
    { destruct (Hvalid_at i item Hi) as [t Ht]. unfold name. rewrite Ht. cbn.
      apply monthName_nonempty. }
    exists i. split.
    + exists item, (name item). repeat split; [assumption..| |exact Hname].
      apply Hfirst; [exact Hi|]. intros j other Hj Hother. rewrite Hitem.
      now apply (Hbefore j other).
    + intros j (other & text & Hj & Hother & Htext & Hne).
      destruct (Nat.lt_trichotomy j i) as [Hlt|[Heq|Hgt]]; [|exact Heq|].
      * exfalso. now apply (Hbefore j other Hlt Hj).
      * exfalso. apply Hne.
        assert (labels chart !! j = Some "") as Hempty.
        { apply (Hlater j other Hj). exists i, item. repeat split; [lia|exact Hi|congruence]. }
        congruence.
Qed.

(** *** The alias of [minDate] *)

Lemma foldl_mapRow_minDate (l : list DataRow) :
  forall st : MapState,
    (minDate st = 0%nat
     \/ exists item, item ∈ processedData st /\ dateRef item = minDate st) ->
    minDate (foldl (mapRow DateParse) st l) = 0%nat
    \/ exists item,
         item ∈ processedData (foldl (mapRow DateParse) st l)
         /\ dateRef item = minDate (foldl (mapRow DateParse) st l).
Proof.
  induction l as [|row l IH]; intros st Hst; [exact Hst|].
  cbn [foldl]. apply IH. cbn [mapRow minDate processedData].
  destruct (dateGe _ _).
  - right. eexists. split; [apply elem_of_app; right; apply list_elem_of_here|reflexivity].
  - destruct Hst as [Hzero|(item & Hitem & Href)]; [now left|].
    right. exists item. split; [apply elem_of_app; now left|exact Href].
Qed.

(** Unless [minDate] is still the object made from the epoch, it is the
    [Date] of a record, and that record reads the floor of the window as its
    date. *)
Lemma aliased_record_reads_floor (rawData : list DataRow) :
  let st := mapRows DateParse rawData in
  minDate st <> 0%nat ->
  exists item,
    item ∈ processedData st
    /\ date (readItem (moveMinDate LocalTZA st) item) = windowFloor DateParse LocalTZA rawData.
Proof.
  intros st Hmoved.
  destruct (foldl_mapRow_minDate (List.filter hasDateAndEstimate rawData)
              {| heap := [epoch]; minDate := 0%nat; processedData := [] |})
    as [Hzero|(item & Hitem & Href)]; [now left|contradiction|].
  exists item. split; [exact Hitem|].
  unfold windowFloor, readItem. cbn [date]. fold st. now rewrite Href.
Qed.

(** *** Where the records come from *)

Lemma foldl_mapRow_rows (rows l : list DataRow) :
  forall st : MapState,
    (forall row, row ∈ l -> row ∈ rows) ->
    Forall (fun item => exists row, row ∈ rows
              /\ readFrom row (mappedEstimate item) (mappedFifthPercentile item)
                          (mappedNinetyFifthPercentile item)) (processedData st) ->
    Forall (fun item => exists row, row ∈ rows
              /\ readFrom row (mappedEstimate item) (mappedFifthPercentile item)
                          (mappedNinetyFifthPercentile item))
           (processedData (foldl (mapRow DateParse) st l)).
Proof.
  induction l as [|row l IH]; intros st Hl Hst; [exact Hst|].
  cbn [foldl]. apply IH.
  - intros row' Hrow'. apply Hl. now apply list_elem_of_further.
  - cbn [mapRow processedData]. apply Forall_app. split; [exact Hst|].
    constructor; [|constructor]. exists row. split; [apply Hl, list_elem_of_here|].
    repeat split; apply numericField_numberOrZero.
Qed.

Lemma series_from_rows (this : t) (rows : list DataRow) :
  Forall (fun item => exists row, row ∈ rows
            /\ readFrom row (estimate item) (fifthPercentile item) (ninetyFifthPercentile item))
         (rawData (processDataForChart DateParse LocalTZA this rows).1).
Proof.
  cbn [processDataForChart fst rawData].
  apply Forall_forall. intros item Hitem.
  pose proof (elem_of_sublist _ _ _ Hitem (unique_sublist rows)) as Hsorted.
  unfold dateFilteredMinProcessedData in Hsorted.
  rewrite sort_Permutation in Hsorted.
  apply list_elem_of_In, List.filter_In in Hsorted as [Hin _].
  apply list_elem_of_In, list_elem_of_fmap in Hin as (mapped & -> & Hmapped).
  assert (Forall (fun item => exists row, row ∈ rows
              /\ readFrom row (mappedEstimate item) (mappedFifthPercentile item)
                          (mappedNinetyFifthPercentile item))
                 (processedData (mapRows DateParse rows))) as Hrows.
  { apply foldl_mapRow_rows; [|constructor].
    intros row Hrow. apply list_elem_of_In in Hrow. apply List.filter_In in Hrow as [Hrow _].
    now apply list_elem_of_In. }
  rewrite Forall_forall in Hrows. exact (Hrows mapped Hmapped).
Qed.

(** The values of the series are numbers of the language. *)
Lemma series_numbers (this : t) (rows : list DataRow) :
  Forall isNumber (observedValues (rawData (processDataForChart DateParse LocalTZA this rows).1)).
Proof.
  pose proof (series_from_rows this rows) as Hrows. unfold observedValues.
  induction Hrows as [|item items (row & _ & He & Hf & Hn) _ IH]; [constructor|].
  cbn [flat_map app]. rewrite He, Hf, Hn.
  repeat (constructor; [apply numberOrZero_isNumber|]). exact IH.
Qed.


(** *** The scale *)

(** C4 (as amended): on a reader as the constructor leaves it, the step is
    ceil(ceil(rawMax) / 5 + 1) and the axis maximum ceil(rawMax / step) * step
    in the arithmetic of the language, for rawMax the largest of 0 and all
    values of the series; when every value is finite, [2 ^ 50] at most and
    not between 0 and [2 ^ -1021], the roundings of that arithmetic do not
    show: the step is the integer ceil(ceil(rawMax) / 5 + 1) of exact
    arithmetic, which is 1 or more, the maximum is that step times the
    integer ceil(rawMax / step), which is 5 at most, and the maximum is at
    least rawMax and every value; for an empty series the step is 1 and the
    maximum 0. *)
Theorem fresh_reader_scale (rows : list DataRow) :
  let result := processDataForChart DateParse LocalTZA constructor rows in
  let values := observedValues (rawData result.1) in
  let rawMax := Math_max (ofZ 0 :: values) in
  let scale := getChartOptions result.2 in
  axisStepSize scale = Math_ceil (add (div (Math_ceil rawMax) (ofZ 5)) (ofZ 1))
  /\ axisMax scale = mul (Math_ceil (div rawMax (axisStepSize scale))) (axisStepSize scale)
  /\ (Forall (fun v => inScaleRange v = true) values ->
      exists m : Q,
        rawMax = Fin m
        /\ 1 <= stepOf m /\ 0 <= ticksOf m <= 5
        /\ axisStepSize scale = ofZ (stepOf m)
        /\ axisMax scale = ofZ (ticksOf m * stepOf m)
        /\ leb rawMax (axisMax scale) = true
        /\ Forall (fun v => leb v (axisMax scale) = true) values)
  /\ (rawData result.1 = [] -> axisStepSize scale = ofZ 1 /\ axisMax scale = ofZ 0).
Proof.
  intros result values rawMax scale.
  assert (axisStepSize scale = Math_ceil (add (div (Math_ceil rawMax) (ofZ 5)) (ofZ 1))
          /\ axisMax scale = mul (Math_ceil (div rawMax (axisStepSize scale))) (axisStepSize scale))
    as [Hstep Hmax].
  { unfold scale, result, rawMax, values, processDataForChart.
    cbn [fst snd rawData getChartOptions axisStepSize axisMax stepSize maxSteps].
    rewrite foldl_loopStep_maxSteps, Math_max_cons. cbn [loopMaxSteps maxSteps constructor].
    split; reflexivity. }
  refine (conj Hstep (conj Hmax (conj _ _))).
  - intros Hrange.
    destruct (running_maximum values (inject_Z 0)) as (m & Hm & Hpos & Hall & Hbin & Hm50 & Hnormal).
    { apply Qle_refl. }
    { constructor; [reflexivity|exact Hrange]. }
    { constructor; [now apply binary64_Z|apply series_numbers]. }
    assert (rawMax = Fin m) as HrawMax by (unfold rawMax; now rewrite Math_max_cons).
    destruct (scale_of_finite m Hbin Hm50 Hnormal) as [Hs Hk].
    destruct (ticksOf_bounds m Hpos) as [Hticks Hbound].
    destruct (ticksOf_tight m Hpos) as [Hfive _].
    rewrite HrawMax in Hstep, Hmax. rewrite Hstep in Hmax. rewrite Hk in Hmax.
    exists m.
    refine (conj HrawMax (conj (stepOf_pos m Hpos) (conj (conj Hticks Hfive) (conj _ (conj Hmax (conj _ _)))))).
    + now rewrite Hstep, Hs.
    + rewrite HrawMax, Hmax. cbn. now apply Qle_bool_iff.
    + rewrite Hmax. eapply Forall_impl; [exact Hall|]. intros v Hv.
      now apply (leb_Fin_le v m).
  - intros Hempty. rewrite Hmax, Hstep. unfold rawMax, values. rewrite Hempty. split; reflexivity.
Qed.

End NormaliserFacts.

(** ** More on the series *)

Section HeadFacts.

Import JS Spec.

Context {A : Type} (key : A -> Z).

(** The first element of a sorted array has the least key. *)
Lemma sort_head_least (l : list A) (a : A) (rest : list A) :
  sort key l = a :: rest -> Forall (fun b => key a <= key b) l.
Proof.
  intros Hsort. pose proof (sort_StronglySorted key l) as Hsorted.
  rewrite Hsort in Hsorted. apply StronglySorted_inv in Hsorted as [_ Hrest].
  assert (Forall (fun b => key a <= key b) (a :: rest)) as Hall
    by (constructor; [lia|exact Hrest]).
  rewrite <- Hsort, sort_Permutation in Hall. exact Hall.
Qed.

Lemma sort_nil (l : list A) : sort key l = [] -> l = [].
Proof.
  intros Hsort. apply Permutation_nil_r. rewrite <- Hsort. symmetry. apply sort_Permutation.
Qed.

End HeadFacts.

Lemma firstsNotIn_id {A : Type} (key : A -> string) (l : list A) :
  forall seen : gset string,
    NoDup (key <$> l) ->
    Forall (fun a => key a ∉ seen) l ->
    Spec.firstsNotIn key seen l = l.
Proof.
  induction l as [|a l IH]; intros seen Hnodup Hfresh; [reflexivity|].
  rewrite fmap_cons in Hnodup. apply NoDup_cons in Hnodup as [Ha Hnodup].
  apply Forall_cons in Hfresh as [Hseen Hfresh].
  cbn [Spec.firstsNotIn]. rewrite decide_False by assumption. f_equal.
  apply IH; [assumption|]. apply Forall_forall. intros b Hb.
  rewrite Forall_forall in Hfresh.
  rewrite not_elem_of_union, not_elem_of_singleton. split; [|now apply Hfresh].
  intros Heq. apply Ha. rewrite <- Heq. apply list_elem_of_fmap. now exists b.
Qed.

Section SeriesFacts.

Import JS EINDataReader Spec Notions.

Variable DateParse : string -> TimeValue.
Variable LocalTZA : Z -> bool -> Z.

Local Abbreviation dateKey := (dateKey LocalTZA).
Local Abbreviation labelCheckWithYear := (labelCheckWithYear LocalTZA).
Local Abbreviation calendarDay := (calendarDay LocalTZA).
Local Abbreviation monthYear := (monthYear LocalTZA).
Local Abbreviation processDataForChart := (processDataForChart DateParse LocalTZA).
Local Abbreviation windowFloor := (windowFloor DateParse LocalTZA).
Local Abbreviation latestDate := (latestDate DateParse).
Local Abbreviation mapRow := (mapRow DateParse).

(** *** The keys of the two sets *)

(** X12: the text under which a record is looked up in [seenDate] stands
    for its day, month and year, and the text under which it is looked up in
    [seenLabels] for its month and year: two records with valid dates have
    the same key exactly when they have the same day, or the same month of
    the same year. *)
Theorem keys_identify_day_and_month (a b : ProcessedDataItem) :
  validDate a ->
  validDate b ->
  (dateKey a = dateKey b <-> calendarDay a = calendarDay b)
  /\ (labelCheckWithYear a = labelCheckWithYear b <-> monthYear a = monthYear b).
Proof.
  intros Ha Hb. split; split.
  - now apply calendarDay_dateKey.
  - apply dateKey_calendarDay.
  - now apply monthYear_labelKey.
  - apply labelKey_monthYear.
Qed.

(** *** uniqueData *)

(** X13: the pass that keeps one record of each day changes nothing when
    it is run on its own result. *)
Theorem uniqueData_idempotent (items : list ProcessedDataItem) :
  uniqueData LocalTZA (uniqueData LocalTZA items) = uniqueData LocalTZA items.
Proof.
  rewrite !uniqueData_firsts. apply firstsNotIn_id; [apply firstsNotIn_NoDup|].
  apply Forall_forall. intros a _. apply not_elem_of_empty.
Qed.

(** *** The arrays of the chart *)

Lemma foldl_loopStep_data (items : list ProcessedDataItem) :
  forall st : LoopState,
    let st' := foldl (loopStep LocalTZA) st items in
    estimateData st' = estimateData st ++ map estimate items
    /\ fifthPercentileData st' = fifthPercentileData st ++ map fifthPercentile items
    /\ ninetyFifthPercentileData st'
       = ninetyFifthPercentileData st ++ map ninetyFifthPercentile items.
Proof.
  induction items as [|item items IH]; intros st; cbn zeta.
  - cbn. now rewrite !app_nil_r.
  - cbn [foldl map]. destruct (IH (loopStep LocalTZA st item)) as (-> & -> & ->).
    cbn [loopStep estimateData fifthPercentileData ninetyFifthPercentileData].
    now rewrite <- !app_assoc.
Qed.

Lemma chart_datasets (this : t) (rows : list DataRow) :
  let chart := (processDataForChart this rows).1 in
  datasets chart
  = [ {| label := fifthPercentileTitleText this;
         data := map fifthPercentile (rawData chart) |};
      {| label := ninetyFifthPercentileTitleText this;
         data := map ninetyFifthPercentile (rawData chart) |};
      {| label := estimateTitleText this;
         data := map estimate (rawData chart) |} ].
Proof.
  unfold EINDataReader.processDataForChart. cbn [fst datasets rawData].
  destruct (foldl_loopStep_data
              (uniqueData LocalTZA (dateFilteredMinProcessedData DateParse LocalTZA rows))
              {| seenLabels := ∅; loopLabels := []; estimateData := [];
                 fifthPercentileData := []; ninetyFifthPercentileData := [];
                 loopMaxSteps := maxSteps this |}) as (-> & -> & ->).
  reflexivity.
Qed.

Lemma chart_labels (this : t) (rows : list DataRow) :
  let chart := (processDataForChart this rows).1 in
  labels chart
  = labelsNotIn labelCheckWithYear
      (fun item => monthName (getMonth LocalTZA (date item))) ∅ (rawData chart).
Proof.
  unfold EINDataReader.processDataForChart. cbn [fst labels rawData].
  now rewrite foldl_loopStep_labels.
Qed.

(** X14: the chart has three datasets, the 5th percentile, the 95th
    percentile and the estimate in this order, under the titles of the
    reader, and each plots, position by position, its field of the records
    of [rawData]; so each has as many points as there are labels. *)
Theorem datasets_plot_the_series (this : t) (rows : list DataRow) :
  let chart := (processDataForChart this rows).1 in
  datasets chart
  = [ {| label := fifthPercentileTitleText this;
         data := map fifthPercentile (rawData chart) |};
      {| label := ninetyFifthPercentileTitleText this;
         data := map ninetyFifthPercentile (rawData chart) |};
      {| label := estimateTitleText this;
         data := map estimate (rawData chart) |} ]
  /\ Forall (fun dataset => length (data dataset) = length (labels chart)) (datasets chart).
Proof.
  intros chart. split; [apply chart_datasets|].
  unfold chart. rewrite chart_datasets, chart_labels, labelsNotIn_length.
  repeat constructor; cbn [data]; apply length_map.
Qed.

(** X15: what is returned as chart data does not depend on the scale that
    the instance holds when the call starts, and the call leaves the titles
    of the instance as they are. *)
Theorem chart_data_ignores_scale (this : t) (maxSteps0 stepSize0 : number)
    (rows : list DataRow) :
  let other :=
    {| maxSteps := maxSteps0; stepSize := stepSize0;
       estimateTitleText := estimateTitleText this;
       fifthPercentileTitleText := fifthPercentileTitleText this;
       ninetyFifthPercentileTitleText := ninetyFifthPercentileTitleText this |} in
  (processDataForChart other rows).1 = (processDataForChart this rows).1
  /\ estimateTitleText (processDataForChart this rows).2 = estimateTitleText this
  /\ fifthPercentileTitleText (processDataForChart this rows).2 = fifthPercentileTitleText this
  /\ ninetyFifthPercentileTitleText (processDataForChart this rows).2
     = ninetyFifthPercentileTitleText this.
Proof.
  intros other. split; [|repeat split].
  pose proof (chart_datasets this rows) as Hthis.
  pose proof (chart_datasets other rows) as Hother.
  pose proof (chart_labels this rows) as Lthis.
  pose proof (chart_labels other rows) as Lother.
  cbv zeta in Hthis, Hother, Lthis, Lother.
  assert (rawData (processDataForChart other rows).1 = rawData (processDataForChart this rows).1)
    as Hraw by reflexivity.
  destruct (processDataForChart other rows).1 as [labels1 datasets1 raw1].
  destruct (processDataForChart this rows).1 as [labels2 datasets2 raw2].
  cbn [labels datasets rawData] in *. subst. reflexivity.
Qed.

(** *** The scale of a reader that is used again *)

(** The scale that a call leaves, for a reader that held a maximum that is
    not negative, where that maximum and the values are in the range of the
    scale. *)
Lemma scale_after_call (this : t) (rows : list DataRow) (held : Q) :
  let result := processDataForChart this rows in
  maxSteps this = Fin held ->
  (0 <= held)%Q ->
  isNumber (maxSteps this) ->
  Forall (fun v => inScaleRange v = true) (maxSteps this :: observedValues (rawData result.1)) ->
  exists m : Q,
    (held <= m)%Q
    /\ foldl max2 (Fin held) (observedValues (rawData result.1)) = Fin m
    /\ Forall (fun v => leb v (Fin m) = true) (observedValues (rawData result.1))
    /\ stepSize result.2 = ofZ (stepOf m)
    /\ maxSteps result.2 = ofZ (ticksOf m * stepOf m).
Proof.
  intros result Hheld Hpos Hnumber Hrange. rewrite Hheld in Hnumber, Hrange.
  destruct (running_maximum (observedValues (rawData result.1)) held Hpos Hrange)
    as (m & Hm & Hle & Hall & Hbin & Hm50 & Hnormal).
  { constructor; [exact Hnumber|apply series_numbers]. }
  exists m. refine (conj Hle (conj Hm (conj Hall _))).
  clear Hall Hrange. subst result. unfold EINDataReader.processDataForChart in *.
  cbn [fst snd rawData stepSize maxSteps] in *.
  rewrite foldl_loopStep_maxSteps. cbn [loopMaxSteps]. rewrite Hheld, Hm.
  apply (scale_of_finite m Hbin Hm50 Hnormal).
Qed.

(** X16: whatever maximum that is not negative the instance holds when the
    call starts, where that maximum and the values of the series are finite,
    [2 ^ 50] at most and not between 0 and [2 ^ -1021], the step that the
    call leaves is a whole number of 1 or more and the maximum is five steps
    at most; the maximum is not below the one held before nor below any
    value of the series, and it is less than one step above the largest of
    these. *)
Theorem reused_reader_scale (this : t) (rows : list DataRow) (held : Q) :
  let result := processDataForChart this rows in
  let values := observedValues (rawData result.1) in
  let scale := getChartOptions result.2 in
  maxSteps this = Fin held ->
  (0 <= held)%Q ->
  isNumber (maxSteps this) ->
  Forall (fun v => inScaleRange v = true) (maxSteps this :: values) ->
  exists ticks step : Z,
    1 <= step /\ 0 <= ticks <= 5
    /\ axisStepSize scale = ofZ step
    /\ axisMax scale = ofZ (ticks * step)
    /\ Forall (fun v => leb v (axisMax scale) = true) (maxSteps this :: values)
    /\ Exists (fun v => exists q, v = Fin q /\ (inject_Z (ticks * step) < q + inject_Z step)%Q)
              (maxSteps this :: values).
Proof.
  intros result values scale Hheld Hpos Hnumber Hrange.
  destruct (scale_after_call this rows held Hheld Hpos Hnumber Hrange)
    as (m & Hle & Hm & Hall & Hstep & Hmax).
  fold result in Hstep, Hmax, Hm, Hall. fold values in Hm, Hall.
  assert (0 <= m)%Q as Hm0 by (eapply Qle_trans; eassumption).
  destruct (ticksOf_bounds m Hm0) as [Hticks Hbound].
  destruct (ticksOf_tight m Hm0) as [Hfive Htight].
  exists (ticksOf m), (stepOf m). unfold scale. cbn [getChartOptions axisStepSize axisMax].
  refine (conj (stepOf_pos m Hm0) (conj (conj Hticks Hfive) (conj Hstep (conj Hmax (conj _ _))))).
  - rewrite Hmax, Hheld. constructor.
    + cbn. apply Qle_bool_iff. eapply Qle_trans; eassumption.
    + eapply Forall_impl; [exact Hall|]. intros v Hv.
      now apply (leb_Fin_le v m).
  - apply Exists_exists. exists (Fin m). split.
    + destruct (foldl_max2_attained values (Fin held)) as [Hin|Hnan]; [|congruence].
      rewrite Hm in Hin. now rewrite Hheld.
    + now exists m.
Qed.

(** *** The ticks of the y axis *)

Variable NumberToString : number -> string.

Local Abbreviation yTickCallback := (yTickCallback NumberToString).

(** X18: with the options read after a call as in X16, the tick at [k]
    steps reads its number below the axis maximum and Days from the
    maximum on; an undefined tick reads undefined; a null tick counts as 0,
    it reads null unless the maximum is 0, where every tick from 0 on reads
    Days. *)
Theorem y_ticks_read_days_at_the_maximum (this : t) (rows : list DataRow) (held : Q) :
  let result := processDataForChart this rows in
  maxSteps this = Fin held ->
  (0 <= held)%Q ->
  isNumber (maxSteps this) ->
  Forall (fun v => inScaleRange v = true) (maxSteps this :: observedValues (rawData result.1)) ->
  exists ticks step : Z,
    1 <= step /\ 0 <= ticks <= 5
    /\ axisStepSize (getChartOptions result.2) = ofZ step
    /\ axisMax (getChartOptions result.2) = ofZ (ticks * step)
    /\ (forall k : Z,
          yTickCallback result.2 (TickNumber (ofZ (k * step)))
          = if k <? ticks then NumberToString (ofZ (k * step)) else "Days")
    /\ yTickCallback result.2 TickUndefined = "undefined"
    /\ yTickCallback result.2 TickNull = if 0 <? ticks then "null" else "Days".
Proof.
  intros result Hheld Hpos Hnumber Hrange.
  destruct (scale_after_call this rows held Hheld Hpos Hnumber Hrange)
    as (m & Hle & _ & _ & Hstep & Hmax).
  fold result in Hstep, Hmax.
  assert (0 <= m)%Q as Hm0 by (eapply Qle_trans; eassumption).
  pose proof (stepOf_pos m Hm0) as Hs.
  destruct (ticksOf_bounds m Hm0) as [Hticks _].
  destruct (ticksOf_tight m Hm0) as [Hfive _].
  exists (ticksOf m), (stepOf m).
  assert (forall k : Z,
            geb (ofZ (k * stepOf m)) (maxSteps result.2) = negb (k <? ticksOf m)) as Hge.
  { intros k. rewrite Hmax. unfold geb, leb, ofZ.
    destruct (Z.ltb_spec k (ticksOf m)) as [Hlt|Hge]; cbn [negb].
    - destruct (Qle_bool _ _) eqn:Hc; [|reflexivity].
      apply Qle_bool_iff in Hc. rewrite <- Zle_Qle in Hc. nia.
    - apply Qle_bool_iff. rewrite <- Zle_Qle. nia. }
  refine (conj Hs (conj (conj Hticks Hfive) (conj Hstep (conj Hmax (conj _ (conj _ _)))))).
  - intros k. unfold EINDataReader.yTickCallback. cbn [tickNumber]. rewrite Hge.
    now destruct (k <? ticksOf m).
  - unfold EINDataReader.yTickCallback. cbn [tickNumber]. rewrite Hmax. reflexivity.
  - unfold EINDataReader.yTickCallback. cbn [tickNumber].
    specialize (Hge 0). rewrite Z.mul_0_l in Hge. rewrite Hge.
    now destruct (0 <? ticksOf m).
Qed.

(** *** The window *)

(** X9: every record of the series has a valid date, and that date is not
    before the floor of the window. *)
Theorem series_within_window (this : t) (rows : list DataRow) (item : ProcessedDataItem) :
  item ∈ rawData (processDataForChart this rows).1 ->
  exists time floor,
    date item = Some time /\ windowFloor rows = Some floor /\ floor <= time.
Proof.
  intros Hitem. cbn [EINDataReader.processDataForChart fst rawData] in Hitem.
  pose proof (elem_of_sublist _ _ _ Hitem (unique_sublist DateParse LocalTZA rows)) as Hsorted.
  unfold dateFilteredMinProcessedData in Hsorted. rewrite sort_Permutation in Hsorted.
  apply list_elem_of_In, List.filter_In in Hsorted as [_ Hwindow].
  unfold inWindow in Hwindow. apply andb_true_iff in Hwindow as [_ Hge].
  fold (windowFloor rows) in Hge. unfold dateGe in Hge.
  destruct (date item) as [time|]; [|discriminate].
  destruct (windowFloor rows) as [floor|]; [|discriminate].
  exists time, floor. repeat split. lia.
Qed.

(** *** The store of dates *)

Lemma deref_old (h : list TimeValue) (d : TimeValue) (address : nat) :
  (address < length h)%nat -> deref (h ++ [d]) address = deref h address.
Proof. intros Hlt. unfold deref. now rewrite lookup_app_l. Qed.

Lemma deref_new (h : list TimeValue) (d : TimeValue) : deref (h ++ [d]) (length h) = d.
Proof. unfold deref. rewrite lookup_app_r by constructor. now rewrite Nat.sub_diag. Qed.

Lemma mapRow_invariant (st : MapState) (row : DataRow) :
  mapInvariant st -> mapInvariant (mapRow st row).
Proof.
  intros (Hlt & Hepoch & m & Hm & Hpos). unfold mapInvariant, EINDataReader.mapRow.
  cbn [heap minDate]. rewrite length_app. cbn [length].
  rewrite deref_new, !deref_old by lia. rewrite Hm.
  destruct (dateGe _ _) eqn:Hge.
  - refine (conj _ (conj Hepoch _)); [lia|].
    rewrite deref_new. unfold dateGe in Hge.
    destruct (newDate DateParse (row !! "Date")) as [time|]; [|discriminate].
    exists time. split; [reflexivity|]. lia.
  - refine (conj _ (conj Hepoch _)); [lia|].
    rewrite deref_old by lia. eauto.
Qed.

Lemma mapInvariant_start :
  mapInvariant {| heap := [epoch]; minDate := 0%nat; processedData := [] |}.
Proof.
  refine (conj _ (conj _ _)); [cbn; lia|reflexivity|]. exists 0. split; [reflexivity|lia].
Qed.

Lemma foldl_mapRow_invariant (l : list DataRow) :
  forall st : MapState, mapInvariant st -> mapInvariant (foldl mapRow st l).
Proof.
  induction l as [|row l IH]; intros st Hinv; [exact Hinv|].
  cbn [foldl]. apply IH. now apply mapRow_invariant.
Qed.

Lemma mapRows_invariant (rawData : list DataRow) : mapInvariant (mapRows DateParse rawData).
Proof. apply foldl_mapRow_invariant, mapInvariant_start. Qed.

Lemma mapRow_moved (st : MapState) (row : DataRow) :
  mapInvariant st -> minDate st <> 0%nat -> minDate (mapRow st row) <> 0%nat.
Proof.
  intros (Hlt & _) Hmoved. unfold EINDataReader.mapRow. cbn [minDate].
  destruct (dateGe _ _); [lia|exact Hmoved].
Qed.

Lemma foldl_mapRow_moved (l : list DataRow) :
  forall st : MapState,
    mapInvariant st -> minDate st <> 0%nat -> minDate (foldl mapRow st l) <> 0%nat.
Proof.
  induction l as [|row l IH]; intros st Hinv Hmoved; [exact Hmoved|].
  cbn [foldl]. apply IH; [now apply mapRow_invariant|now apply mapRow_moved].
Qed.

(** A row dated at the epoch or after it binds [minDate] to the [Date] of
    a record, if it was not bound to one before. *)
Lemma foldl_mapRow_binds (l : list DataRow) :
  forall st : MapState,
    mapInvariant st ->
    (exists row time, row ∈ l /\ newDate DateParse (row !! "Date") = Some time /\ 0 <= time) ->
    minDate (foldl mapRow st l) <> 0%nat.
Proof.
  induction l as [|row l IH]; intros st Hinv (row' & time & Hin & Hdate & Hpos).
  - now apply elem_of_nil in Hin.
  - cbn [foldl]. apply elem_of_cons in Hin as [->|Hin].
    + apply foldl_mapRow_moved; [now apply mapRow_invariant|].
      destruct Hinv as (Hlt & Hepoch & m & Hm & Hm0).
      unfold EINDataReader.mapRow. cbn [minDate].
      rewrite deref_new, deref_old, Hdate, Hm by lia.
      cbn [dateGe]. destruct (Z.leb_spec m time) as [_|Hlt']; [lia|].
      intros Hzero. rewrite Hzero, Hepoch in Hm. injection Hm as <-. lia.
    + apply IH; [now apply mapRow_invariant|]. now exists row', time.
Qed.

(** No [Date] of a row is later than the one [minDate] is bound to. *)
Lemma foldl_mapRow_latest (l : list DataRow) :
  forall (st : MapState) (m : Z),
    mapInvariant st ->
    deref (heap st) (minDate st) = Some m ->
    exists m',
      deref (heap (foldl mapRow st l)) (minDate (foldl mapRow st l)) = Some m'
      /\ m <= m'
      /\ Forall (fun row => forall t, newDate DateParse (row !! "Date") = Some t -> t <= m') l.
Proof.
  induction l as [|row l IH]; intros st m Hinv Hm.
  - exists m. repeat split; [exact Hm|lia|constructor].
  - cbn [foldl]. pose proof (mapRow_invariant st row Hinv) as Hinv'.
    destruct Hinv as (Hlt & _).
    assert (exists m1,
              deref (heap (mapRow st row)) (minDate (mapRow st row)) = Some m1
              /\ m <= m1
              /\ forall t, newDate DateParse (row !! "Date") = Some t -> t <= m1)
      as (m1 & Hm1 & Hle & Hrow).
    { unfold EINDataReader.mapRow. cbn [heap minDate].
      rewrite deref_new, (deref_old _ _ (minDate st)), Hm by lia.
      destruct (newDate DateParse (row !! "Date")) as [t|] eqn:Hdate; cbn [dateGe].
      - destruct (Z.leb_spec m t) as [Hge|Hlt'].
        + exists t. rewrite deref_new. repeat split; [exact Hge|]. intros ? [= <-]. lia.
        + exists m. rewrite deref_old, Hm by lia. repeat split; [lia|]. intros ? [= <-]. lia.
      - exists m. rewrite deref_old, Hm by lia. repeat split; [lia|]. discriminate. }
    destruct (IH (mapRow st row) m1 Hinv' Hm1) as (m' & Hm' & Hle' & Hrest).
    exists m'. repeat split; [exact Hm'|lia|].
    constructor; [|exact Hrest]. intros t Ht. specialize (Hrow t Ht). lia.
Qed.

Lemma latestDate_latest (rawData : list DataRow) :
  exists latest,
    latestDate rawData = Some latest
    /\ 0 <= latest
    /\ Forall (fun row => forall t, newDate DateParse (row !! "Date") = Some t -> t <= latest)
              (List.filter hasDateAndEstimate rawData).
Proof.
  unfold Notions.latestDate, mapRows. cbv zeta.
  destruct (foldl_mapRow_latest (List.filter hasDateAndEstimate rawData)
              {| heap := [epoch]; minDate := 0%nat; processedData := [] |} 0
              mapInvariant_start eq_refl)
    as (latest & Hlatest & Hpos & Hrows).
  now exists latest.
Qed.

Lemma windowFloor_twoMonthsBack (rawData : list DataRow) :
  windowFloor rawData = twoMonthsBack LocalTZA (latestDate rawData).
Proof.
  unfold Spec.windowFloor, moveMinDate, twoMonthsBack, Notions.latestDate. cbv zeta.
  destruct (mapRows_invariant rawData) as (Hlt & _).
  unfold deref at 1. now rewrite list_lookup_insert_eq.
Qed.

Lemma uniqueData_head (item : ProcessedDataItem) (rest : list ProcessedDataItem) :
  exists rest', uniqueData LocalTZA (item :: rest) = item :: rest'.
Proof.
  rewrite uniqueData_firsts. cbn [firstsNotIn].
  rewrite decide_False by apply not_elem_of_empty. now eexists.
Qed.

(** X11: as soon as one row that has a date and an estimate is dated at
    the epoch or after it, and the floor of the window is a valid date, the
    series is not empty and its first record is dated at the floor itself:
    [minDate] is then bound to the [Date] object of a record, the two calls
    that compute the floor move that object, and no record that is kept is
    dated before the floor. *)
Theorem series_starts_at_floor (this : t) (rows : list DataRow)
    (row : DataRow) (time floor : Z) :
  row ∈ rows ->
  hasDateAndEstimate row = true ->
  newDate DateParse (row !! "Date") = Some time ->
  0 <= time ->
  windowFloor rows = Some floor ->
  exists first rest,
    rawData (processDataForChart this rows).1 = first :: rest
    /\ date first = Some floor.
Proof.
  intros Hrow Hkept Hdate Hpos Hfloor.
  assert (minDate (mapRows DateParse rows) <> 0%nat) as Hmoved.
  { apply foldl_mapRow_binds; [exact mapInvariant_start|]. exists row, time.
    split; [|split; assumption]. apply list_elem_of_In, List.filter_In.
    split; [now apply list_elem_of_In|exact Hkept]. }
  destruct (foldl_mapRow_minDate DateParse (List.filter hasDateAndEstimate rows)
              {| heap := [epoch]; minDate := 0%nat; processedData := [] |})
    as [Hzero|(aliased & Haliased & Href)]; [now left|contradiction|].
  fold (mapRows DateParse rows) in Haliased, Href.
  cbn [EINDataReader.processDataForChart fst rawData].
  unfold dateFilteredMinProcessedData.
  set (st := mapRows DateParse rows) in *.
  set (h := moveMinDate LocalTZA st).
  assert (deref h (minDate st) = Some floor) as Hfloor' by exact Hfloor.
  rewrite Hfloor'.
  set (window := List.filter (inWindow (Some floor)) (map (readItem h) (processedData st))).
  assert (readItem h aliased ∈ window) as Hin.
  { apply list_elem_of_In, List.filter_In. split.
    - apply list_elem_of_In, list_elem_of_fmap. now exists aliased.
    - unfold inWindow, readItem. cbn [date]. rewrite Href, Hfloor'. cbn.
      apply Z.leb_le. lia. }
  assert (Forall (fun item => exists t, date item = Some t /\ floor <= t) window) as Hwindow.
  { apply List.Forall_forall. intros item Hitem. apply List.filter_In in Hitem as [_ Hitem].
    unfold inWindow in Hitem. apply andb_true_iff in Hitem as [_ Hge].
    destruct (date item) as [t|]; [|discriminate]. exists t. split; [reflexivity|].
    cbn in Hge. lia. }
  destruct (sort timeOf window) as [|first rest] eqn:Hsort.
  { apply sort_nil in Hsort. rewrite Hsort in Hin. now apply elem_of_nil in Hin. }
  destruct (uniqueData_head first rest) as [rest' ->].
  exists first, rest'. split; [reflexivity|].
  pose proof (sort_head_least timeOf window first rest Hsort) as Hleast.
  rewrite Forall_forall in Hleast. specialize (Hleast _ Hin).
  assert (first ∈ window) as Hfirst.
  { rewrite <- (sort_Permutation timeOf window), Hsort. apply list_elem_of_here. }
  rewrite Forall_forall in Hwindow. destruct (Hwindow first Hfirst) as (t & Ht & Hge).
  unfold timeOf, readItem in Hleast. cbn [date] in Hleast.
  rewrite Ht, Href, Hfloor' in Hleast. cbn in Hleast. rewrite Ht. f_equal. lia.
Qed.

(** *** Rows without a date that can be read *)

Lemma deref_shift (h : list TimeValue) (k a : nat) :
  (k <= length h)%nat ->
  deref (take k h ++ None :: drop k h) (shiftAddress k a) = deref h a.
Proof.
  intros Hk. unfold deref, shiftAddress, TimeValue in *.
  destruct (Nat.ltb_spec a k) as [Hlt|Hge].
  - rewrite lookup_app_l by (rewrite length_take; lia). now rewrite lookup_take_lt.
  - rewrite lookup_app_r by (rewrite length_take; lia).
    rewrite length_take, Nat.min_l by lia.
    replace (S a - k)%nat with (S (a - k)) by lia.
    change ((None :: drop k h) !! S (a - k)) with (drop k h !! (a - k)%nat).
    rewrite lookup_drop. f_equal. f_equal. lia.
Qed.

Lemma deref_invalid (h : list TimeValue) (k : nat) :
  (k <= length h)%nat -> deref (take k h ++ None :: drop k h) k = None.
Proof.
  intros Hk. unfold deref, TimeValue in *.
  rewrite lookup_app_r by (rewrite length_take; lia).
  rewrite length_take, Nat.min_l, Nat.sub_diag by lia. reflexivity.
Qed.

Lemma shiftAddress_inj (k a b : nat) : shiftAddress k a = shiftAddress k b -> a = b.
Proof.
  unfold shiftAddress. destruct (Nat.ltb_spec a k), (Nat.ltb_spec b k); lia.
Qed.

Lemma shiftAddress_other (k a : nat) : shiftAddress k a <> k.
Proof. unfold shiftAddress. destruct (Nat.ltb_spec a k); lia. Qed.

Lemma shiftItem_id (k : nat) (item : MappedItem) :
  (dateRef item < k)%nat -> shiftItem k item = item.
Proof.
  destruct item as [ref e f n]. unfold shiftItem, shiftAddress.
  cbn [dateRef mappedEstimate mappedFifthPercentile mappedNinetyFifthPercentile].
  intros Href. destruct (Nat.ltb_spec ref k); [reflexivity|lia].
Qed.

Lemma mapRow_withInvalid (k : nat) (extra : MappedItem) (st st' : MapState) (row : DataRow) :
  withInvalid k extra st st' -> withInvalid k extra (mapRow st row) (mapRow st' row).
Proof.
  intros (Hk & Hheap & Hmin & Hextra & before & after & Hdata & Hdata').
  assert (length (heap st') = S (length (heap st))) as Hlen.
  { rewrite Hheap, length_app, length_take, Nat.min_l by lia. cbn [length].
    rewrite length_drop. lia. }
  assert (heap st' ++ [newDate DateParse (row !! "Date")]
          = take k (heap st ++ [newDate DateParse (row !! "Date")])
            ++ None :: drop k (heap st ++ [newDate DateParse (row !! "Date")])) as Hheap'.
  { rewrite Hheap, take_app_le, drop_app_le by lia. now rewrite <- app_assoc. }
  assert (length (heap st') = shiftAddress k (length (heap st))) as Haddress.
  { unfold shiftAddress. destruct (Nat.ltb_spec (length (heap st)) k); lia. }
  unfold withInvalid, EINDataReader.mapRow. cbn [heap minDate processedData].
  rewrite length_app. cbn [length].
  refine (conj _ (conj Hheap' (conj _ (conj Hextra _)))); [lia| |].
  - rewrite Hheap', Hmin, Haddress, !deref_shift by (rewrite length_app; cbn; lia).
    now destruct (dateGe _ _).
  - exists before, (after ++
      [{| dateRef := length (heap st);
          mappedEstimate := numericField row "Estimate";
          mappedFifthPercentile := numericField row "5th Percentile";
          mappedNinetyFifthPercentile := numericField row "95th Percentile" |}]).
    split; [now rewrite Hdata, app_assoc|].
    rewrite Hdata', map_app, <- app_assoc. cbn [app map]. unfold shiftItem at 3.
    cbn [dateRef mappedEstimate mappedFifthPercentile mappedNinetyFifthPercentile].
    now rewrite Haddress.
Qed.

Lemma foldl_mapRow_withInvalid (k : nat) (extra : MappedItem) (l : list DataRow) :
  forall st st' : MapState,
    withInvalid k extra st st' ->
    withInvalid k extra (foldl mapRow st l) (foldl mapRow st' l).
Proof.
  induction l as [|row l IH]; intros st st' Hrel; [exact Hrel|].
  cbn [foldl]. apply IH. now apply mapRow_withInvalid.
Qed.

(** Every record refers to a cell of the store. *)
Lemma foldl_mapRow_refs (l : list DataRow) :
  forall st : MapState,
    Forall (fun item => (dateRef item < length (heap st))%nat) (processedData st) ->
    Forall (fun item => (dateRef item < length (heap (foldl mapRow st l)))%nat)
           (processedData (foldl mapRow st l)).
Proof.
  induction l as [|row l IH]; intros st Hst; [exact Hst|].
  cbn [foldl]. apply IH. unfold EINDataReader.mapRow. cbn [heap processedData].
  rewrite length_app. cbn [length]. apply Forall_app. split.
  - eapply Forall_impl; [exact Hst|]. cbn. intros; lia.
  - constructor; [cbn; lia|constructor].
Qed.

(** A row without a date that can be read takes a cell of the store and
    leaves [minDate] where it is. *)
Lemma mapRow_undated (st : MapState) (row : DataRow) :
  mapInvariant st ->
  Forall (fun item => (dateRef item < length (heap st))%nat) (processedData st) ->
  undated DateParse row = true ->
  exists extra, withInvalid (length (heap st)) extra st (mapRow st row).
Proof.
  intros (Hlt & _) Hrefs Hrow. unfold undated in Hrow.
  destruct (newDate DateParse (row !! "Date")) as [t|] eqn:Hdate; [discriminate|].
  exists {| dateRef := length (heap st);
            mappedEstimate := numericField row "Estimate";
            mappedFifthPercentile := numericField row "5th Percentile";
            mappedNinetyFifthPercentile := numericField row "95th Percentile" |}.
  unfold withInvalid, EINDataReader.mapRow. cbn [heap minDate processedData dateRef].
  rewrite Hdate, firstn_all, drop_all.
  refine (conj (le_n _) (conj eq_refl (conj _ (conj eq_refl _)))).
  - rewrite deref_new. cbn [dateGe]. unfold shiftAddress.
    destruct (Nat.ltb_spec (minDate st) (length (heap st))); [reflexivity|lia].
  - exists (processedData st), []. split; [now rewrite app_nil_r|].
    cbn [map]. f_equal. symmetry. rewrite <- (map_id (processedData st)) at 2.
    apply map_ext_Forall. eapply Forall_impl; [exact Hrefs|].
    intros item Href. cbn. now apply shiftItem_id.
Qed.

(** The records read off the two stores are the same, but for the one of
    the invalid date. *)
Lemma withInvalid_window (k : nat) (extra : MappedItem) (st st' : MapState) :
  mapInvariant st ->
  withInvalid k extra st st' ->
  deref (moveMinDate LocalTZA st') (minDate st') = deref (moveMinDate LocalTZA st) (minDate st)
  /\ List.filter (inWindow (deref (moveMinDate LocalTZA st') (minDate st')))
                 (map (readItem (moveMinDate LocalTZA st')) (processedData st'))
     = List.filter (inWindow (deref (moveMinDate LocalTZA st) (minDate st)))
                   (map (readItem (moveMinDate LocalTZA st)) (processedData st)).
Proof.
  intros (Hlt & _) (Hk & Hheap & Hmin & Hextra & before & after & Hdata & Hdata').
  assert (length (heap st') = S (length (heap st))) as Hlen.
  { rewrite Hheap, length_app, length_take, Nat.min_l by lia. cbn [length].
    rewrite length_drop. lia. }
  assert (deref (heap st') (minDate st') = deref (heap st) (minDate st)) as Hlatest
    by (rewrite Hheap, Hmin; now apply deref_shift).
  assert (shiftAddress k (minDate st) < length (heap st'))%nat as Hlt'
    by (unfold shiftAddress; destruct (Nat.ltb_spec (minDate st) k); lia).
  assert (forall a,
            deref (moveMinDate LocalTZA st') (shiftAddress k a)
            = deref (moveMinDate LocalTZA st) a) as Hshift.
  { intros a. unfold moveMinDate. cbv zeta. rewrite Hlatest, Hmin. unfold deref at 1 4.
    destruct (decide (a = minDate st)) as [->|Hne].
    - now rewrite !list_lookup_insert_eq.
    - rewrite !list_lookup_insert_ne by (try intros ?%shiftAddress_inj; congruence).
      fold (deref (heap st') (shiftAddress k a)). fold (deref (heap st) a).
      rewrite Hheap. now apply deref_shift. }
  assert (deref (moveMinDate LocalTZA st') k = None) as Hinvalid.
  { unfold moveMinDate. cbv zeta. unfold deref at 1.
    rewrite list_lookup_insert_ne by (rewrite Hmin; apply shiftAddress_other).
    fold (deref (heap st') k). rewrite Hheap. now apply deref_invalid. }
  assert (forall item,
            readItem (moveMinDate LocalTZA st') (shiftItem k item)
            = readItem (moveMinDate LocalTZA st) item) as Hread.
  { intros item. unfold readItem, shiftItem. cbn [dateRef mappedEstimate mappedFifthPercentile
      mappedNinetyFifthPercentile]. now rewrite Hshift. }
  split; [now rewrite Hmin, Hshift|].
  rewrite Hmin, Hshift, Hdata, Hdata', !map_app, !List.filter_app. cbn [map List.filter].
  assert (inWindow (deref (moveMinDate LocalTZA st) (minDate st))
                   (readItem (moveMinDate LocalTZA st') extra) = false) as ->.
  { unfold inWindow, readItem. cbn [date]. now rewrite Hextra, Hinvalid. }
  rewrite !map_map.
  now rewrite (map_ext _ _ Hread before), (map_ext _ _ Hread after).
Qed.

Lemma dateFiltered_drop_undated (pre : list DataRow) (row : DataRow) (post : list DataRow) :
  undated DateParse row = true ->
  dateFilteredMinProcessedData DateParse LocalTZA (pre ++ row :: post)
  = dateFilteredMinProcessedData DateParse LocalTZA (pre ++ post).
Proof.
  intros Hrow. unfold dateFilteredMinProcessedData, mapRows. cbv zeta.
  rewrite !List.filter_app. cbn [List.filter].
  destruct (hasDateAndEstimate row); [|reflexivity].
  rewrite !foldl_app. cbn [foldl].
  set (st := foldl mapRow {| heap := [epoch]; minDate := 0%nat; processedData := [] |}
                   (List.filter hasDateAndEstimate pre)).
  assert (mapInvariant st) as Hinv by apply foldl_mapRow_invariant, mapInvariant_start.
  assert (Forall (fun item => (dateRef item < length (heap st))%nat) (processedData st))
    as Hrefs by (apply foldl_mapRow_refs; constructor).
  destruct (mapRow_undated st row Hinv Hrefs Hrow) as [extra Hrel].
  pose proof (foldl_mapRow_withInvalid _ extra (List.filter hasDateAndEstimate post) _ _ Hrel)
    as Hrel'.
  pose proof (foldl_mapRow_invariant (List.filter hasDateAndEstimate post) st Hinv)
    as Hinv'.
  destruct (withInvalid_window _ extra _ _ Hinv' Hrel') as [_ Hwindow].
  now rewrite Hwindow.
Qed.

Lemma dateFiltered_undated (rest : list DataRow) :
  forall pre : list DataRow,
    dateFilteredMinProcessedData DateParse LocalTZA (pre ++ rest)
    = dateFilteredMinProcessedData DateParse LocalTZA
        (pre ++ List.filter (fun row => negb (undated DateParse row)) rest).
Proof.
  induction rest as [|row rest IH]; intros pre; [reflexivity|].
  cbn [List.filter]. destruct (undated DateParse row) eqn:Hrow; cbn [negb].
  - rewrite dateFiltered_drop_undated by assumption. apply IH.
  - rewrite (app_assoc pre [row] rest : pre ++ row :: rest = (pre ++ [row]) ++ rest), IH.
    now rewrite <- app_assoc.
Qed.

Lemma dateFiltered_kept (rows : list DataRow) :
  dateFilteredMinProcessedData DateParse LocalTZA (List.filter hasDateAndEstimate rows)
  = dateFilteredMinProcessedData DateParse LocalTZA rows.
Proof.
  unfold dateFilteredMinProcessedData, mapRows.
  assert (List.filter hasDateAndEstimate (List.filter hasDateAndEstimate rows)
          = List.filter hasDateAndEstimate rows) as ->; [|reflexivity].
  induction rows as [|row rows IH]; [reflexivity|]. cbn [List.filter].
  destruct (hasDateAndEstimate row) eqn:Hrow; [|exact IH].
  cbn [List.filter]. now rewrite Hrow, IH.
Qed.

(** X21: the rows that lack a date or an estimate, and the rows whose date
    the host cannot read, change nothing: with them or without them the
    call returns the same chart data and leaves the same scale. *)
Theorem rows_without_valid_date_are_ignored (this : t) (rows : list DataRow) :
  processDataForChart this rows
  = processDataForChart this
      (List.filter (fun row => negb (undated DateParse row))
                   (List.filter hasDateAndEstimate rows)).
Proof.
  pose proof (dateFiltered_undated (List.filter hasDateAndEstimate rows) []) as Hsame.
  cbn [app] in Hsame.
  unfold EINDataReader.processDataForChart.
  now rewrite <- Hsame, dateFiltered_kept.
Qed.

(** *** The floor, where local time is at a fixed offset from UTC *)

Variable offset : Z.
Hypothesis constantOffset : forall t isUTC, LocalTZA t isUTC = offset.

Lemma twoMonthsBack_first (t0 floor : Z) :
  twoMonthsBack LocalTZA (Some t0) = Some floor ->
  getDate LocalTZA (Some floor) = Some 1
  /\ TimeWithinDay (floor + offset) = TimeWithinDay (t0 + offset)
  /\ 59 * msPerDay <= t0 - floor <= 92 * msPerDay.
Proof.
  unfold twoMonthsBack, getMonth, getDate, setMonth, setDate.
  cbn [fmap option_fmap option_map compose].
  unfold LocalTime, UTC. rewrite !constantOffset.
  set (local0 := t0 + offset).
  pose proof (TimeWithinDay_range local0) as Htime.
  pose proof (MonthFromTime_range local0) as Hmonth.
  destruct (TimeClip _) as [t1|] eqn:Hfirst; [|discriminate].
  apply TimeClip_Some in Hfirst. rewrite !constantOffset.
  set (local1 := t1 + offset).
  assert (local1 = MakeDate (MakeDay (YearFromTime local0) (MonthFromTime local0 - 2)
                                     (DateFromTime local0)) (TimeWithinDay local0)) as Hlocal1
    by (unfold local1; lia).
  destruct (MakeDate_fields (MakeDay (YearFromTime local0) (MonthFromTime local0 - 2)
                                     (DateFromTime local0)) (TimeWithinDay local0) Htime)
    as [Hday1 Htime1].
  rewrite <- Hlocal1 in Hday1, Htime1.
  intros Hsecond. apply TimeClip_Some in Hsecond.
  set (localf := floor + offset).
  assert (localf = MakeDate (MakeDay (YearFromTime local1) (MonthFromTime local1) 1)
                            (TimeWithinDay local1)) as Hlocalf
    by (unfold localf; lia).
  rewrite Htime1 in Hlocalf.
  destruct (MakeDate_fields (MakeDay (YearFromTime local1) (MonthFromTime local1) 1)
                            (TimeWithinDay local0) Htime) as [Hdayf Htimef].
  rewrite <- Hlocalf in Hdayf, Htimef.
  destruct (first_of_month (YearFromTime local1) (MonthFromTime local1) localf
              (MonthFromTime_range local1) Hdayf) as (_ & _ & Hdate).
  refine (conj _ (conj Htimef _)); [now rewrite Hdate|].
  pose proof (MakeDay_fields local0) as Hfields0.
  pose proof (MakeDay_fields local1) as Hfields1.
  rewrite MakeDay_date in Hfields1.
  pose proof (DateFromTime_range local1) as Hdate1.
  pose proof (MakeDay_two_months (YearFromTime local0) (MonthFromTime local0)
                (DateFromTime local0) Hmonth) as Htwo.
  pose proof (Day_TimeWithinDay local0) as Hsplit0.
  pose proof (Day_TimeWithinDay localf) as Hsplitf.
  rewrite Htimef in Hsplitf.
  assert (t0 - floor = local0 - localf) as -> by (unfold local0, localf; lia).
  unfold msPerDay in *. lia.
Qed.

(** X10: where local time is at a fixed offset from UTC, the floor of the
    window is the first day of a month, at the time of day of the latest
    date and 59 to 92 days before it; the latest date is not before the
    epoch and not before the date of any row that has a date and an
    estimate. *)
Theorem window_floor_first_of_month (rawData : list DataRow) (floor : Z) :
  windowFloor rawData = Some floor ->
  exists latest,
    latestDate rawData = Some latest
    /\ 0 <= latest
    /\ Forall (fun row => forall t, newDate DateParse (row !! "Date") = Some t -> t <= latest)
              (List.filter hasDateAndEstimate rawData)
    /\ getDate LocalTZA (Some floor) = Some 1
    /\ TimeWithinDay (floor + offset) = TimeWithinDay (latest + offset)
    /\ 59 * msPerDay <= latest - floor <= 92 * msPerDay.
Proof.
  intros Hfloor. rewrite windowFloor_twoMonthsBack in Hfloor.
  destruct (latestDate_latest rawData) as (latest & Hlatest & Hpos & Hrows).
  rewrite Hlatest in Hfloor. exists latest.
  refine (conj Hlatest (conj Hpos (conj Hrows _))). now apply twoMonthsBack_first.
Qed.

End SeriesFacts.

(** ** The tooltip positioner *)

Section PositionerFacts.

Import JS EINDataReader Spec.

Lemma add_comm (a b : number) : add a b = add b a.
Proof. destruct a, b; cbn; try reflexivity. apply round64_comp, Qplus_comm. Qed.

Variable this : t.
Variable chartDatasets : list ChartDataset.

Local Abbreviation band := (bandOf this chartDatasets).
Local Abbreviation estimateTest := (Spec.estimateTest this chartDatasets).
Local Abbreviation percentileTest := (Spec.percentileTest this chartDatasets).
Local Abbreviation inRange := (Spec.inRange chartDatasets).

Lemma isEstimate_inRange (el : ActiveElement) :
  inRange el -> isEstimate this chartDatasets el = Ok (estimateTest el).
Proof.
  unfold Spec.inRange, isEstimate, Spec.estimateTest, labelIs. intros Hrange.
  destruct (datasetIndex el) as [index|]; [|reflexivity].
  destruct (lookup_lt_is_Some_2 chartDatasets index (Hrange index eq_refl)) as [dataset ->].
  reflexivity.
Qed.

Lemma isPercentile_inRange (el : ActiveElement) :
  inRange el -> isPercentile this chartDatasets el = Ok (percentileTest el).
Proof.
  unfold Spec.inRange, isPercentile, Spec.percentileTest, labelIs. intros Hrange.
  destruct (datasetIndex el) as [index|]; [|reflexivity].
  destruct (lookup_lt_is_Some_2 chartDatasets index (Hrange index eq_refl)) as [dataset ->].
  reflexivity.
Qed.

Lemma findM_pure {A : Type} (p : A -> result bool) (q : A -> bool) (l : list A) :
  Forall (fun a => p a = Ok (q a)) l -> findM p l = Ok (List.find q l).
Proof.
  induction 1 as [|a l Ha _ IH]; [reflexivity|].
  cbn [findM List.find]. rewrite Ha. cbn [bind]. now destruct (q a).
Qed.

Lemma filterM_pure {A : Type} (p : A -> result bool) (q : A -> bool) (l : list A) :
  Forall (fun a => p a = Ok (q a)) l -> filterM p l = Ok (List.filter q l).
Proof.
  induction 1 as [|a l Ha _ IH]; [reflexivity|].
  cbn [filterM List.filter]. rewrite Ha, IH. cbn [bind]. reflexivity.
Qed.

Lemma estimateTest_band (el : ActiveElement) : estimateTest el = inBand band Estimate el.
Proof.
  unfold Spec.estimateTest, inBand, bandOf.
  destruct (datasetIndex el) as [index|]; [|reflexivity].
  destruct (chartDatasets !! index) as [dataset|]; [|reflexivity].
  destruct (String.eqb (label dataset) (estimateTitleText this)); [reflexivity|].
  now repeat case_match.
Qed.

Hypothesis titles :
  estimateTitleText this <> fifthPercentileTitleText this
  /\ estimateTitleText this <> ninetyFifthPercentileTitleText this.

Lemma percentileTest_band (el : ActiveElement) :
  percentileTest el = inBand band LowBound el || inBand band HighBound el.
Proof.
  unfold Spec.percentileTest, inBand, bandOf.
  destruct (datasetIndex el) as [index|]; [|reflexivity].
  destruct (chartDatasets !! index) as [dataset|]; [|reflexivity].
  destruct (String.eqb_spec (label dataset) (estimateTitleText this)) as [Hest|_].
  - destruct (String.eqb_spec (label dataset) (fifthPercentileTitleText this));
      [destruct titles; congruence|].
    destruct (String.eqb_spec (label dataset) (ninetyFifthPercentileTitleText this));
      [destruct titles; congruence|]. reflexivity.
  - destruct (String.eqb (label dataset) (fifthPercentileTitleText this)); [reflexivity|].
    now destruct (String.eqb (label dataset) (ninetyFifthPercentileTitleText this)).
Qed.

(** *** At most one active element of each series *)

Lemma filter_band_absent (s : Band) (l : list ActiveElement) :
  s ∉ omap band l -> List.filter (inBand band s) l = [].
Proof.
  induction l as [|a l IH]; intros Habsent; [reflexivity|].
  cbn [List.filter]. unfold inBand at 1. cbn [omap list_omap] in Habsent.
  destruct (band a) as [s'|] eqn:Ha.
  - apply not_elem_of_cons in Habsent as [Hne Habsent].
    rewrite bool_decide_eq_false_2 by congruence. now apply IH.
  - rewrite bool_decide_eq_false_2 by congruence. now apply IH.
Qed.

Lemma find_filter_nil {A : Type} (q : A -> bool) (l : list A) :
  List.filter q l = [] -> List.find q l = None.
Proof.
  induction l as [|a l IH]; [reflexivity|]. cbn [List.filter List.find].
  destruct (q a); [discriminate|exact IH].
Qed.

Lemma find_weaker_none {A : Type} (q r : A -> bool) (l : list A) :
  List.find q l = None -> List.find (fun a => q a && r a) l = None.
Proof.
  induction l as [|a l IH]; [reflexivity|]. cbn [List.find].
  destruct (q a); [discriminate|]. exact IH.
Qed.

Lemma find_head_filter {A : Type} (q : A -> bool) (l : list A) :
  List.find q l = head (List.filter q l).
Proof.
  induction l as [|a l IH]; [reflexivity|]. cbn [List.find List.filter].
  now destruct (q a).
Qed.

(** With one Estimate element at most, the first Estimate element is the
    one to test for resolved coordinates. *)
Lemma find_resolved_estimate (l : list ActiveElement) :
  NoDup (omap band l) ->
  List.find (fun el => inBand band Estimate el && resolvedCoordinates el) l
  = match List.find (inBand band Estimate) l with
    | Some el => if resolvedCoordinates el then Some el else None
    | None => None
    end.
Proof.
  induction l as [|a l IH]; intros Hnodup; [reflexivity|].
  cbn [List.find]. cbn [omap list_omap] in Hnodup. unfold inBand at 1 3.
  destruct (band a) as [s|] eqn:Ha.
  - apply NoDup_cons in Hnodup as [Habsent Hnodup].
    destruct (decide (s = Estimate)) as [->|Hs].
    + rewrite !bool_decide_eq_true_2 by reflexivity. cbn [andb].
      destruct (resolvedCoordinates a); [reflexivity|].
      apply find_weaker_none, find_filter_nil, filter_band_absent, Habsent.
    + rewrite !bool_decide_eq_false_2 by congruence. cbn [andb]. now apply IH.
  - rewrite !bool_decide_eq_false_2 by congruence. cbn [andb]. now apply IH.
Qed.

(** With one element of each percentile series at most, the percentile
    elements are none, one, or the low and the high one in either order. *)
Lemma percentile_cases (l : list ActiveElement) :
  NoDup (omap band l) ->
  (List.filter (inBand band LowBound) l = [] /\ List.filter (inBand band HighBound) l = []
   /\ List.filter (percentileTest) l = [])
  \/ (exists low,
        List.filter (inBand band LowBound) l = [low]
        /\ List.filter (inBand band HighBound) l = []
        /\ List.filter (percentileTest) l = [low])
  \/ (exists high,
        List.filter (inBand band LowBound) l = []
        /\ List.filter (inBand band HighBound) l = [high]
        /\ List.filter (percentileTest) l = [high])
  \/ (exists low high,
        List.filter (inBand band LowBound) l = [low]
        /\ List.filter (inBand band HighBound) l = [high]
        /\ (List.filter (percentileTest) l = [low; high]
            \/ List.filter (percentileTest) l = [high; low])).
Proof.
  induction l as [|a l IH]; intros Hnodup; [left; repeat split|].
  cbn [omap list_omap] in Hnodup.
  assert (forall s, List.filter (inBand band s) (a :: l)
                    = if bool_decide (band a = Some s)
                      then a :: List.filter (inBand band s) l
                      else List.filter (inBand band s) l) as Hfilter by reflexivity.
  assert (List.filter percentileTest (a :: l)
          = if bool_decide (band a = Some LowBound) || bool_decide (band a = Some HighBound)
            then a :: List.filter percentileTest l
            else List.filter percentileTest l) as Hboth.
  { cbn [List.filter]. now rewrite percentileTest_band. }
  rewrite !Hfilter, Hboth. clear Hfilter Hboth.
  destruct (band a) as [[| |]|] eqn:Ha.
  - apply NoDup_cons in Hnodup as [_ Hnodup].
    rewrite !bool_decide_eq_false_2 by congruence. cbn [orb]. now apply IH.
  - apply NoDup_cons in Hnodup as [Habsent Hnodup].
    rewrite !(bool_decide_eq_true_2 (Some LowBound = Some LowBound)) by reflexivity.
    rewrite !(bool_decide_eq_false_2 (Some LowBound = Some HighBound)) by discriminate.
    cbn [orb].
    pose proof (filter_band_absent LowBound l Habsent) as Hnone.
    destruct (IH Hnodup)
      as [(_ & Hh & Hb)|[(low & Hlow & _)|[(high & _ & Hh & Hb)|(low & high & Hlow & _)]]];
      try congruence; rewrite Hnone, Hh, Hb.
    + right; left. exists a. repeat split.
    + right; right; right. exists a, high. repeat split. now left.
  - apply NoDup_cons in Hnodup as [Habsent Hnodup].
    rewrite !(bool_decide_eq_true_2 (Some HighBound = Some HighBound)) by reflexivity.
    rewrite !(bool_decide_eq_false_2 (Some HighBound = Some LowBound)) by discriminate.
    cbn [orb].
    pose proof (filter_band_absent HighBound l Habsent) as Hnone.
    destruct (IH Hnodup)
      as [(Hl & _ & Hb)|[(low & Hl & _ & Hb)|[(high & _ & Hhigh & _)|(low & high & _ & Hhigh & _)]]];
      try congruence; rewrite Hnone, Hl, Hb.
    + right; right; left. exists a. repeat split.
    + right; right; right. exists low, a. repeat split. now right.
  - rewrite !bool_decide_eq_false_2 by congruence. cbn [orb]. now apply IH.
Qed.

Lemma mean_average (coordinate : ActiveElement -> option number) (l : list ActiveElement) :
  mean coordinate l = average (map (fun el => pixel (coordinate el)) l).
Proof.
  unfold mean, average. rewrite length_map. f_equal.
  generalize (ofZ 0). induction l as [|a l IH]; intros start; [reflexivity|].
  cbn [foldl map]. apply IH.
Qed.

Lemma positionOnPercentiles_anchor (l : list ActiveElement) :
  Forall inRange l ->
  NoDup (omap band l) ->
  exists anchor,
    positionOnPercentiles this chartDatasets l = Ok anchor
    /\ percentileAnchor band l = Some anchor.
Proof.
  intros Hrange Hnodup. unfold positionOnPercentiles, percentileAnchor.
  rewrite (filterM_pure _ percentileTest)
    by (eapply Forall_impl; [exact Hrange|apply isPercentile_inRange]).
  cbn [bind]. rewrite find_head_filter.
  rewrite (List.filter_ext (fun el => inBand band LowBound el || inBand band HighBound el)
             percentileTest) by (intros; now rewrite percentileTest_band).
  destruct (percentile_cases l Hnodup)
    as [(-> & -> & ->)|[(low & -> & -> & ->)|[(high & -> & -> & ->)
        |(low & high & -> & -> & [-> | ->])]]].
  - eexists. split; [reflexivity|]. unfold withBias, centroid. cbn [x y].
    now rewrite !mean_average.
  - eexists. split; reflexivity.
  - eexists. split; reflexivity.
  - eexists. split; reflexivity.
  - eexists. split; [reflexivity|]. cbn [head]. unfold withBias, midpoint. cbn [x y].
    do 4 f_equal. exact (add_comm (pixel (elementY low)) (pixel (elementY high))).
Qed.

Lemma positioner_anchor (elements : list ActiveElement) (eventPosition : Point) :
  Forall inRange elements ->
  NoDup (omap band elements) ->
  Forall (fun el => band el = Some Estimate -> paired el) elements ->
  exists anchor,
    einCustomPositioner this chartDatasets elements eventPosition = Ok anchor
    /\ selectAnchor band elements eventPosition = Some anchor.
Proof.
  intros Hrange Hnodup Hpaired.
  destruct elements as [|el0 rest].
  { eexists. split; reflexivity. }
  unfold einCustomPositioner, selectAnchor.
  change (length (el0 :: rest) =? 0)%nat with false. cbv iota.
  remember (el0 :: rest) as l eqn:Hl. clear Hl el0 rest.
  rewrite (findM_pure _ (inBand band Estimate)).
  2:{ eapply Forall_impl; [exact Hrange|]. intros el Hel.
      now rewrite isEstimate_inRange, estimateTest_band. }
  cbn [bind]. rewrite find_resolved_estimate by assumption.
  destruct (List.find (inBand band Estimate) l) as [el|] eqn:Hfind;
    [|now apply positionOnPercentiles_anchor].
  apply List.find_some in Hfind as [Hin Hband].
  apply bool_decide_eq_true_1 in Hband.
  rewrite Forall_forall in Hpaired.
  pose proof (Hpaired el (proj2 (list_elem_of_In _ _) Hin) Hband) as Hpair.
  unfold paired in Hpair. unfold resolvedCoordinates.
  destruct (elementX el) as [px|] eqn:Hx; [|now apply positionOnPercentiles_anchor].
  destruct (elementY el) as [py|] eqn:Hy; [|now destruct (Hpair (mk_is_Some _ _ eq_refl))].
  eexists. split; [reflexivity|]. unfold position. now rewrite Hx, Hy.
Qed.

End PositionerFacts.

(** C5 (as amended): for active elements whose datasets exist, one of each
    named series at most, where the Estimate element that has an x
    coordinate has a y coordinate as well, the positioner of a reader (its
    titles are those the constructor sets) returns the anchor of the first
    rule that applies: the cursor when nothing is active; the position of
    the Estimate element when it has resolved coordinates; for the two
    percentile elements the x of the first and the midpoint of their y, for
    one alone its position; otherwise the mean of all positions; each moved
    by 0 along x and -10 along y. The position of an element is made of its
    own two coordinates, and sums, halves and means are those of the
    arithmetic of the language. *)
Theorem positioner_follows_priority (maxSteps stepSize : JS.number)
    (chartDatasets : list EINDataReader.ChartDataset)
    (elements : list EINDataReader.ActiveElement) (eventPosition : EINDataReader.Point) :
  let this :=
    {| EINDataReader.maxSteps := maxSteps;
       EINDataReader.stepSize := stepSize;
       EINDataReader.estimateTitleText := EINDataReader.estimateTitleText EINDataReader.constructor;
       EINDataReader.fifthPercentileTitleText :=
         EINDataReader.fifthPercentileTitleText EINDataReader.constructor;
       EINDataReader.ninetyFifthPercentileTitleText :=
         EINDataReader.ninetyFifthPercentileTitleText EINDataReader.constructor |} in
  Forall (Spec.inRange chartDatasets) elements ->
  NoDup (omap (Spec.bandOf this chartDatasets) elements) ->
  Forall (fun el => Spec.bandOf this chartDatasets el = Some Spec.Estimate -> Spec.paired el)
         elements ->
  exists anchor,
    EINDataReader.einCustomPositioner this chartDatasets elements eventPosition = JS.Ok anchor
    /\ Spec.selectAnchor (Spec.bandOf this chartDatasets) elements eventPosition = Some anchor.
Proof.
  intros this. apply positioner_anchor. split; discriminate.
Qed.

(** ** The positioner and the datasets that are missing *)

Section PositionerErrors.

Import JS EINDataReader Spec Notions.

Variable this : t.
Variable chartDatasets : list ChartDataset.

Local Abbreviation estimateTest := (Spec.estimateTest this chartDatasets).
Local Abbreviation percentileTest := (Spec.percentileTest this chartDatasets).
Local Abbreviation inRange := (Spec.inRange chartDatasets).

Lemma inRange_dec (el : ActiveElement) : inRange el \/ ~ inRange el.
Proof.
  unfold Spec.inRange. destruct (datasetIndex el) as [index|].
  - destruct (lt_dec index (length chartDatasets)) as [Hlt|Hge].
    + left. now intros ? [= <-].
    + right. intros Hrange. apply Hge. now apply Hrange.
  - left. discriminate.
Qed.

Lemma Forall_inRange_dec (l : list ActiveElement) : Forall inRange l \/ ~ Forall inRange l.
Proof.
  induction l as [|a l [IH|IH]]; [left; constructor| |].
  - destruct (inRange_dec a) as [Ha|Ha]; [left; now constructor|].
    right. intros Hall. now apply Forall_cons in Hall as [Hall _].
  - right. intros Hall. now apply Forall_cons in Hall as [_ Hall].
Qed.

Lemma isEstimate_dangling (el : ActiveElement) :
  ~ inRange el -> isEstimate this chartDatasets el = Throw "TypeError".
Proof.
  unfold Spec.inRange, isEstimate, labelIs. intros Hrange.
  destruct (datasetIndex el) as [index|]; [|now destruct Hrange].
  destruct (chartDatasets !! index) as [dataset|] eqn:Hlookup; [|reflexivity].
  destruct Hrange. intros ? [= <-]. now apply lookup_lt_Some in Hlookup.
Qed.

Lemma isPercentile_dangling (el : ActiveElement) :
  ~ inRange el -> isPercentile this chartDatasets el = Throw "TypeError".
Proof.
  unfold Spec.inRange, isPercentile, labelIs. intros Hrange.
  destruct (datasetIndex el) as [index|]; [|now destruct Hrange].
  destruct (chartDatasets !! index) as [dataset|] eqn:Hlookup; [|reflexivity].
  destruct Hrange. intros ? [= <-]. now apply lookup_lt_Some in Hlookup.
Qed.

(** The first Estimate element is found when every element before it
    names a dataset of the chart, whatever comes after it. *)
Lemma findM_first (pre : list ActiveElement) (el : ActiveElement) (post : list ActiveElement) :
  Forall inRange pre ->
  Forall (fun other => estimateTest other = false) pre ->
  inRange el ->
  estimateTest el = true ->
  findM (isEstimate this chartDatasets) (pre ++ el :: post) = Ok (Some el).
Proof.
  intros Hrange Hpre Hel Hest.
  induction pre as [|a pre IH]; cbn [app findM].
  - now rewrite (isEstimate_inRange this chartDatasets el Hel), Hest.
  - apply Forall_cons in Hrange as [Ha Hrange]. apply Forall_cons in Hpre as [Hna Hpre].
    rewrite (isEstimate_inRange this chartDatasets a Ha), Hna. cbn [bind]. now apply IH.
Qed.

(** What [find] returns on any list of active elements. *)
Lemma findM_cases (l : list ActiveElement) :
  (Forall inRange l /\ findM (isEstimate this chartDatasets) l = Ok None)
  \/ (exists pre el post,
        l = pre ++ el :: post /\ Forall inRange pre
        /\ Forall (fun other => estimateTest other = false) pre
        /\ inRange el /\ estimateTest el = true
        /\ findM (isEstimate this chartDatasets) l = Ok (Some el))
  \/ (~ Forall inRange l /\ findM (isEstimate this chartDatasets) l = Throw "TypeError").
Proof.
  induction l as [|a l IH]; [left; split; [constructor|reflexivity]|].
  cbn [findM]. destruct (inRange_dec a) as [Ha|Ha].
  - rewrite (isEstimate_inRange this chartDatasets a Ha). cbn [bind].
    destruct (estimateTest a) eqn:Hest.
    + right; left. exists [], a, l. repeat split; try constructor; assumption.
    + destruct IH as [[Hl ->]|[(pre & el & post & -> & Hpre & Hno & Hel & Hyes & ->)|[Hl ->]]].
      * left. split; [now constructor|reflexivity].
      * right; left. exists (a :: pre), el, post.
        repeat split; try assumption; now constructor.
      * right; right. split; [|reflexivity]. intros Hall. apply Hl.
        now apply Forall_cons in Hall as [_ Hall].
  - rewrite (isEstimate_dangling a Ha). right; right. split; [|reflexivity].
    intros Hall. apply Ha. now apply Forall_cons in Hall as [Hall _].
Qed.

Lemma filterM_dangling (l : list ActiveElement) :
  ~ Forall inRange l -> filterM (isPercentile this chartDatasets) l = Throw "TypeError".
Proof.
  induction l as [|a l IH]; intros Hl; [destruct Hl; constructor|].
  cbn [filterM]. destruct (inRange_dec a) as [Ha|Ha].
  - rewrite (isPercentile_inRange this chartDatasets a Ha). cbn [bind].
    rewrite IH; [reflexivity|]. intros Hall. apply Hl. now constructor.
  - now rewrite (isPercentile_dangling a Ha).
Qed.

Lemma positionOnPercentiles_cases (l : list ActiveElement) :
  (Forall inRange l /\ exists placed, positionOnPercentiles this chartDatasets l = Ok placed)
  \/ (~ Forall inRange l /\ positionOnPercentiles this chartDatasets l = Throw "TypeError").
Proof.
  unfold positionOnPercentiles. destruct (Forall_inRange_dec l) as [Hall|Hnot].
  - left. split; [exact Hall|].
    rewrite (filterM_pure _ percentileTest)
      by (eapply Forall_impl; [exact Hall|apply isPercentile_inRange]).
    cbn [bind]. destruct (List.filter percentileTest l) as [|first [|second rest]]; now eexists.
  - right. split; [exact Hnot|]. now rewrite filterM_dangling.
Qed.

(** X17: the positioner returns a point exactly when every active element
    names a dataset of the chart, or the first Estimate element has an x
    coordinate and every element before it names a dataset of the chart;
    in every other case reading the label of the dataset that is missing
    throws a TypeError. *)
Theorem positioner_throws_on_missing_dataset (elements : list ActiveElement)
    (eventPosition : Point) :
  ((exists placed, einCustomPositioner this chartDatasets elements eventPosition = Ok placed)
   <-> (Forall inRange elements
        \/ exists pre el post,
             elements = pre ++ el :: post
             /\ Forall inRange pre
             /\ Forall (fun other => estimateTest other = false) pre
             /\ inRange el /\ estimateTest el = true
             /\ resolved el = true))
  /\ (forall message,
        einCustomPositioner this chartDatasets elements eventPosition = Throw message ->
        message = "TypeError").
Proof.
  unfold einCustomPositioner.
  destruct elements as [|el0 rest].
  { cbn. split; [|discriminate]. split; [left; constructor|now eexists]. }
  change (length (el0 :: rest) =? 0)%nat with false. cbv iota.
  remember (el0 :: rest) as l eqn:Hl. clear Hl el0 rest.
  destruct (findM_cases l)
    as [[Hall Hfind]|[(pre & el & post & -> & Hpre & Hno & Hel & Hyes & Hfind)|[Hnot Hfind]]];
    rewrite Hfind; cbn [bind].
  - destruct (positionOnPercentiles_cases l) as [[_ [placed ->]]|[Hnot _]]; [|contradiction].
    split; [|discriminate]. split; [now left|now eexists].
  - unfold resolved. destruct (elementX el) as [coordinate|] eqn:Hx.
    + split; [|discriminate]. split; [|now eexists].
      intros _. right. exists pre, el, post. unfold resolved. rewrite Hx. repeat split; assumption.
    + destruct (positionOnPercentiles_cases (pre ++ el :: post))
        as [[Hall [placed ->]]|[Hnot ->]].
      * split; [|discriminate]. split; [now left|now eexists].
      * split; [|now intros ? [= <-]]. split; [intros [? [=]]|].
        intros [Hall|(pre' & el' & post' & Heq & Hpre' & Hno' & Hel' & Hyes' & Hres)];
          [contradiction|].
        exfalso. rewrite Heq in Hfind.
        rewrite (findM_first pre' el' post' Hpre' Hno' Hel' Hyes') in Hfind.
        injection Hfind as ->. unfold resolved in Hres. now rewrite Hx in Hres.
  - split; [|now intros ? [= <-]]. split; [intros [? [=]]|].
    intros [Hall|(pre' & el' & post' & -> & Hpre' & Hno' & Hel' & Hyes' & Hres)];
      [contradiction|].
    exfalso. rewrite (findM_first pre' el' post' Hpre' Hno' Hel' Hyes') in Hfind.
    discriminate.
Qed.

End PositionerErrors.

(** ** fetchData *)

Section FetchFacts.

Import JS EINDataReader Spec Notions.

Variable fetch : string -> Settled Response.

Lemma tryFetch_usable (url : string) :
  match tryFetch fetch url with
  | Fulfilled (Some rows) => usable fetch url = Some rows /\ failsNullish fetch url = false
  | Fulfilled None | Rejected Value => usable fetch url = None /\ failsNullish fetch url = false
  | Rejected Nullish => usable fetch url = None /\ failsNullish fetch url = true
  end.
Proof.
  unfold tryFetch, usable, failsNullish.
  destruct (fetch url) as [[[] [csvText|[]]]|[]]; cbn [ok text];
    try destruct (parseCSV csvText); split; reflexivity.
Qed.

Lemma omap_usable (url : string) (proxies : list string) :
  omap (usable fetch) (map (fun proxy => proxy +:+ encodeURIComponent url) proxies)
  = omap (fun proxy => usable fetch (proxy +:+ encodeURIComponent url)) proxies.
Proof.
  induction proxies as [|proxy proxies IH]; [reflexivity|].
  cbn [map omap list_omap]. now rewrite IH.
Qed.

Lemma tryProxies_usable (url : string) (proxies : list string) :
  Forall (fun proxy => failsNullish fetch (proxy +:+ encodeURIComponent url) = false) proxies ->
  tryProxies fetch url proxies
  = Fulfilled (default getSampleData
                 (head (omap (fun proxy => usable fetch (proxy +:+ encodeURIComponent url))
                             proxies))).
Proof.
  induction 1 as [|proxy proxies Hproxy _ IH]; [reflexivity|].
  cbn [tryProxies omap list_omap].
  pose proof (tryFetch_usable (proxy +:+ encodeURIComponent url)) as Htry.
  destruct (tryFetch fetch (proxy +:+ encodeURIComponent url)) as [[rows|]|[]];
    destruct Htry as [Husable Hnull]; rewrite Husable; [reflexivity|exact IH..|congruence].
Qed.

Lemma tryProxies_rejected (url : string) (before : list string) (proxy : string)
    (after : list string) :
  Forall (fun p => usable fetch (p +:+ encodeURIComponent url) = None) before ->
  Forall (fun p => failsNullish fetch (p +:+ encodeURIComponent url) = false) before ->
  failsNullish fetch (proxy +:+ encodeURIComponent url) = true ->
  tryProxies fetch url (before ++ proxy :: after) = Rejected Value.
Proof.
  intros Hnone Hbefore Hnull. induction before as [|p before IH]; cbn [app tryProxies].
  - pose proof (tryFetch_usable (proxy +:+ encodeURIComponent url)) as Htry.
    destruct (tryFetch fetch (proxy +:+ encodeURIComponent url)) as [[rows|]|[]];
      destruct Htry as [_ Hnot]; congruence.
  - apply Forall_cons in Hnone as [Hp Hnone]. apply Forall_cons in Hbefore as [Hp' Hbefore].
    pose proof (tryFetch_usable (p +:+ encodeURIComponent url)) as Htry.
    destruct (tryFetch fetch (p +:+ encodeURIComponent url)) as [[rows|]|[]];
      destruct Htry as [Husable Hnot]; try congruence; now apply IH.
Qed.

(** X1: when no proxy fails with [null] or [undefined] as the reason,
    fetchData is fulfilled: with the rows of the first address that gives
    rows, the sheet itself before the three proxies in their order, and with
    the sample data when no address gives rows. A text that parseCSV rejects
    counts as no rows: the error of parseCSV does not reach the caller. *)
Theorem fetchData_first_usable_source (sheet : string) (tab : Z) :
  let this := newSource sheet tab in
  Forall (fun proxy => failsNullish fetch (proxy +:+ encodeURIComponent (csvUrl this)) = false)
         (corsProxies this) ->
  fetchData fetch this
  = Fulfilled (default getSampleData (head (omap (usable fetch) (addresses this)))).
Proof.
  intros this Hproxies. unfold fetchData, addresses. cbn [omap list_omap].
  pose proof (tryFetch_usable (csvUrl this)) as Htry.
  rewrite (tryProxies_usable _ _ Hproxies), omap_usable.
  destruct (tryFetch fetch (csvUrl this)) as [[rows|]|[]];
    destruct Htry as [-> _]; reflexivity.
Qed.

(** X2: when the sheet gives no rows and a proxy fails with [null] or
    [undefined] as the reason before any proxy gave rows, fetchData is
    rejected, and the sample data is not used. *)
Theorem fetchData_rejected (sheet : string) (tab : Z) (before : list string)
    (proxy : string) (after : list string) :
  let this := newSource sheet tab in
  corsProxies this = before ++ proxy :: after ->
  usable fetch (csvUrl this) = None ->
  Forall (fun p => usable fetch (p +:+ encodeURIComponent (csvUrl this)) = None) before ->
  Forall (fun p => failsNullish fetch (p +:+ encodeURIComponent (csvUrl this)) = false) before ->
  failsNullish fetch (proxy +:+ encodeURIComponent (csvUrl this)) = true ->
  fetchData fetch this = Rejected Value.
Proof.
  intros this Hproxies Hdirect Hnone Hbefore Hnull. unfold fetchData. rewrite Hproxies.
  rewrite (tryProxies_rejected _ before proxy after Hnone Hbefore Hnull).
  pose proof (tryFetch_usable (csvUrl this)) as Htry.
  destruct (tryFetch fetch (csvUrl this)) as [[rows|]|[]]; destruct Htry as [Husable _];
    try reflexivity. congruence.
Qed.

End FetchFacts.

(** ** The reader on the sample host *)

Section SampleFacts.

Import JS EINDataReader Spec SampleHost.

(** Closed statements are settled by running the reader. *)
Ltac evaluate := vm_compute; repeat split.

Lemma labels_mark_first_of_month_witness :
  let chart := (processDataForChart DateParse LocalTZA constructor getSampleData).1 in
  rawData chart !! 0%nat = Some januaryFirst
  /\ labels chart !! 0%nat = Some "JAN"
  /\ rawData chart !! 1%nat = Some januaryFifteenth
  /\ (exists j other, (j < 1)%nat /\ rawData chart !! j = Some other
                      /\ monthYear LocalTZA other = monthYear LocalTZA januaryFifteenth)
  /\ labels chart !! 1%nat = Some "".
Proof.
  intros chart.
  assert (rawData chart !! 1%nat = Some januaryFifteenth) as Hsecond
    by (vm_compute; exact eq_refl).
  assert (rawData chart !! 0%nat = Some januaryFirst) as Hfirst
    by (vm_compute; exact eq_refl).
  assert (exists j other, (j < 1)%nat /\ rawData chart !! j = Some other
                          /\ monthYear LocalTZA other = monthYear LocalTZA januaryFifteenth)
    as Hbefore.
  { exists 0%nat, januaryFirst. split; [lia|]. split; [exact Hfirst|].
    vm_compute. reflexivity. }
  assert (forall j other, (j < 0)%nat -> rawData chart !! j = Some other ->
                          monthYear LocalTZA other <> monthYear LocalTZA januaryFirst)
    as Hnone by (intros j other Hj; lia).
  pose proof (labels_mark_first_of_month DateParse LocalTZA constructor getSampleData)
    as (_ & Hlabels & _).
  refine (conj Hfirst (conj _ (conj Hsecond (conj Hbefore _)))).
  - destruct (Hlabels 0%nat januaryFirst Hfirst) as (month & Hmonth & _ & Hlabel & _).
    injection Hmonth as <-. exact (Hlabel Hnone).
  - destruct (Hlabels 1%nat januaryFifteenth Hsecond) as (month & _ & _ & _ & Hlabel).
    exact (Hlabel Hbefore).
Defined.



(** C4, as the specification states it, fails: the running maximum starts
    at 0, so for a series of negative values the step and the axis maximum
    are those of 0 and not those of the largest observed value. *)
Lemma scale_of_negative_series :
  let result := processDataForChart DateParse LocalTZA constructor negativeRows in
  let rawMax := observedMax (rawData result.1) in
  rawMax = ofZ (-10)
  /\ Math_ceil (add (div (Math_ceil rawMax) (ofZ 5)) (ofZ 1)) = ofZ (-1)
  /\ getChartOptions result.2 = {| axisMax := ofZ 0; axisStepSize := ofZ 1 |}.
Proof. evaluate. Qed.

(** Nor does the amended claim hold outside its range. For a value beyond
    [2 ^ 53] the roundings show: the axis maximum is below the value and no
    multiple of the step. For the least positive number, half of it is
    rounded to 0 and the axis maximum is 0. *)
Example scale_outside_the_range :
  let large := processDataForChart DateParse LocalTZA constructor largeRows in
  let tiny := processDataForChart DateParse LocalTZA constructor tinyRows in
  (observedMax (rawData large.1) = ofZ 47930761257688344
   /\ getChartOptions large.2
      = {| axisMax := ofZ 47930761257688336; axisStepSize := ofZ 9586152251537668 |}
   /\ stepOf 47930761257688344 = 9586152251537670
   /\ 47930761257688336 mod 9586152251537668 = 9586152251537664)
  /\ (ltb (ofZ 0) (observedMax (rawData tiny.1)) = true
      /\ getChartOptions tiny.2 = {| axisMax := ofZ 0; axisStepSize := ofZ 2 |}).
Proof. evaluate. Qed.

Lemma fresh_reader_scale_witness :
  let result := processDataForChart DateParse LocalTZA constructor getSampleData in
  let values := observedValues (rawData result.1) in
  let rawMax := Math_max (ofZ 0 :: values) in
  let scale := getChartOptions result.2 in
  Forall (fun v => inScaleRange v = true) values
  /\ exists m : Q,
       rawMax = Fin m
       /\ 1 <= stepOf m /\ 0 <= ticksOf m <= 5
       /\ axisStepSize scale = ofZ (stepOf m)
       /\ axisMax scale = ofZ (ticksOf m * stepOf m)
       /\ leb rawMax (axisMax scale) = true
       /\ Forall (fun v => leb v (axisMax scale) = true) values.
Proof.
  intros result values rawMax scale.
  assert (Forall (fun v => inScaleRange v = true) values) as Hrange
    by (apply inScaleRange_all; vm_compute; reflexivity).
  split; [exact Hrange|].
  exact (proj1 (proj2 (proj2 (fresh_reader_scale DateParse LocalTZA getSampleData))) Hrange).
Defined.

Lemma positioner_follows_priority_witness :
  let band := bandOf constructor sampleDatasets in
  Forall (inRange sampleDatasets) percentileElements
  /\ NoDup (omap band percentileElements)
  /\ Forall (fun el => band el = Some Estimate -> paired el) percentileElements
  /\ exists anchor,
       einCustomPositioner constructor sampleDatasets percentileElements
                           {| x := ofZ 0; y := ofZ 0 |} = Ok anchor
       /\ selectAnchor band percentileElements {| x := ofZ 0; y := ofZ 0 |} = Some anchor.
Proof.
  intros band.
  assert (Forall (inRange sampleDatasets) percentileElements) as Hrange.
  { constructor; [|constructor; [|constructor]]; intros index [= <-]; cbn; lia. }
  assert (NoDup (omap band percentileElements)) as Hnodup.
  { apply (bool_decide_unpack _). vm_compute. exact I. }
  assert (Forall (fun el => band el = Some Estimate -> paired el) percentileElements)
    as Hpaired.
  { constructor; [|constructor; [|constructor]]; intros _ _; eexists; reflexivity. }
  refine (conj Hrange (conj Hnodup (conj Hpaired _))).
  exact (positioner_follows_priority (ofZ 0) (ofZ 1) sampleDatasets
           percentileElements {| x := ofZ 0; y := ofZ 0 |} Hrange Hnodup Hpaired).
Defined.

(** The anchors the specification lists as examples: the midpoint of the
    two percentile elements, the Estimate element whatever else is active,
    and the cursor, each moved by the bias. *)
Lemma positioner_examples :
  einCustomPositioner constructor sampleDatasets [activeAt 0 10 20; activeAt 1 10 40]
                      {| x := ofZ 7; y := ofZ 9 |}
  = Ok {| x := ofZ 10; y := ofZ 20 |}
  /\ einCustomPositioner constructor sampleDatasets
                         [activeAt 0 10 20; activeAt 2 5 5; activeAt 1 10 40]
                         {| x := ofZ 7; y := ofZ 9 |}
     = Ok {| x := ofZ 5; y := ofZ (-5) |}
  /\ einCustomPositioner constructor sampleDatasets [] {| x := ofZ 7; y := ofZ 9 |}
     = Ok {| x := ofZ 7; y := ofZ (-1) |}.
Proof. evaluate. Qed.

(** C5, as the specification states it, fails. Of two active elements of
    the Estimate series, the first without coordinates and the second at
    (5, 5), the second rule anchors at the second; the positioner looks at
    the first Estimate element only, finds no percentile element and
    returns the mean of all, which is not a number. And an Estimate element
    with an x but no y coordinate has no resolved coordinates, where the
    rules go on to the percentile element at (10, 20); the positioner
    anchors at that Estimate element. *)
Lemma positioner_skips_resolved_estimate :
  let band := bandOf constructor sampleDatasets in
  let cursor := {| x := ofZ 7; y := ofZ 9 |} in
  let halfResolved := {| datasetIndex := Some 2%nat; elementX := Some (ofZ 5); elementY := None |} in
  (selectAnchor band [unresolvedAt 2; activeAt 2 5 5] cursor = Some {| x := ofZ 5; y := ofZ (-5) |}
   /\ einCustomPositioner constructor sampleDatasets [unresolvedAt 2; activeAt 2 5 5] cursor
      = Ok {| x := NaN; y := NaN |})
  /\ (selectAnchor band [halfResolved; activeAt 0 10 20] cursor
      = Some {| x := ofZ 10; y := ofZ 10 |}
      /\ einCustomPositioner constructor sampleDatasets [halfResolved; activeAt 0 10 20] cursor
         = Ok {| x := ofZ 5; y := NaN |}).
Proof. evaluate. Qed.

(** C7, as the specification states it, fails for a header cell
    [__proto__]: the row of a line that has no field left for that column
    does not hold the empty string under that name, it holds nothing. *)
Lemma parseCSV_proto_column :
  exists row,
    parseCSV protoCSV = Ok [row]
    /\ headerCells "Date,Estimate,__proto__" = ["Date"; "Estimate"; "__proto__"]
    /\ fieldsOf "1/15/2024,45" = ["1/15/2024"; "45"]
    /\ columnValue ["Date"; "Estimate"; "__proto__"] ["1/15/2024"; "45"] "__proto__" = Some ""
    /\ row !! "__proto__" = None
    /\ row = <["Estimate" := "45"]> (<["Date" := "1/15/2024"]> ∅).
Proof. eexists. split; [vm_compute; reflexivity|]. evaluate. Qed.

(** C1: a second call on the same instance with the same rows returns the
    same chart data but leaves another scale, since the running maximum
    starts from the axis maximum the first call stored. *)
Theorem second_call_moves_scale :
  let rows := take 2 getSampleData in
  let first := processDataForChart DateParse LocalTZA constructor rows in
  let second := processDataForChart DateParse LocalTZA first.2 rows in
  first.1 = second.1
  /\ getChartOptions first.2 = {| axisMax := ofZ 75; axisStepSize := ofZ 15 |}
  /\ getChartOptions second.2 = {| axisMax := ofZ 80; axisStepSize := ofZ 16 |}.
Proof. evaluate. Qed.

(** C2: two rows of the latest day do not leave one record: the [Date] of
    the second is the object [minDate] is bound to, it is moved to the floor
    of the window before the sort, and both rows stay in the series, the
    later one first. *)
Theorem same_day_rows_both_kept :
  let csvText :=
    "Date,Estimate,5th Percentile,95th Percentile" +:+ String newline
    ("2/15/2024,48,32,68" +:+ String newline "2/15/2024,49,33,69") in
  let rows := [sampleRow "2/15/2024" "48" "32" "68"; sampleRow "2/15/2024" "49" "33" "69"] in
  parseCSV csvText = Ok rows
  /\ map (fun row => DateParse <$> (row !! "Date")) rows
     = [Some (Some 1707955200000); Some (Some 1707955200000)]
  /\ rawData (processDataForChart DateParse LocalTZA constructor rows).1
     = [ {| date := Some 1701388800000; estimate := ofZ 49;
            fifthPercentile := ofZ 33; ninetyFifthPercentile := ofZ 69 |};
         {| date := Some 1707955200000; estimate := ofZ 48;
            fifthPercentile := ofZ 32; ninetyFifthPercentile := ofZ 68 |} ].
Proof.
  intros csvText rows. split; [vm_compute; exact eq_refl|]. evaluate.
Qed.

(** C3: [minDate] is bound to the [Date] object of the latest record, so
    moving it to the floor of the window moves the date of that record: of
    the rows of 15 January and 15 February 2024 the series holds one record
    dated 1 December 2023, with the values of the February row, and none
    dated 15 February 2024. And [minDate] starts at the epoch: for a row of
    15 January 1960 alone the floor is 1 November 1969 and the series is
    empty. *)
Theorem latest_record_moved_to_floor :
  let rows := take 2 getSampleData in
  let chart := (processDataForChart DateParse LocalTZA constructor rows).1 in
  let early := [sampleRow "1/15/1960" "45" "28" "65"] in
  (map (fun row => DateParse <$> (row !! "Date")) rows
   = [Some (Some 1705276800000); Some (Some 1707955200000)]
   /\ windowFloor DateParse LocalTZA rows = Some 1701388800000
   /\ rawData chart
      = [ {| date := Some 1701388800000; estimate := ofZ 48;
             fifthPercentile := ofZ 32; ninetyFifthPercentile := ofZ 68 |};
          {| date := Some 1705276800000; estimate := ofZ 45;
             fifthPercentile := ofZ 28; ninetyFifthPercentile := ofZ 65 |} ]
   /\ labels chart = ["DEC"; "JAN"])
  /\ (map (fun row => DateParse <$> (row !! "Date")) early = [Some (Some (-314409600000))]
      /\ windowFloor DateParse LocalTZA early = Some (-5270400000)
      /\ rawData (processDataForChart DateParse LocalTZA constructor early).1 = []).
Proof. evaluate. Qed.

End SampleFacts.

(** ** More of the reader on the sample host *)

Section SampleExtras.

Import JS EINDataReader Spec Notions SampleHost.

Lemma fetchData_first_usable_source_witness :
  Forall (fun proxy =>
            failsNullish sampleFetch (proxy +:+ encodeURIComponent (csvUrl sampleSource)) = false)
         (corsProxies sampleSource)
  /\ fetchData sampleFetch sampleSource
     = Fulfilled (default getSampleData
                    (head (omap (usable sampleFetch) (addresses sampleSource)))).
Proof.
  assert (Forall (fun proxy =>
                    failsNullish sampleFetch (proxy +:+ encodeURIComponent (csvUrl sampleSource))
                    = false)
                 (corsProxies sampleSource)) as Hproxies
    by (repeat constructor; vm_compute; reflexivity).
  exact (conj Hproxies (fetchData_first_usable_source sampleFetch "sheet" 0 Hproxies)).
Defined.

Lemma fetchData_rejected_witness :
  corsProxies sampleSource
  = [] ++ "https://api.allorigins.win/raw?url="
       :: ["https://corsproxy.io/?"; "https://cors-anywhere.herokuapp.com/"]
  /\ usable brokenFetch (csvUrl sampleSource) = None
  /\ failsNullish brokenFetch
       ("https://api.allorigins.win/raw?url=" +:+ encodeURIComponent (csvUrl sampleSource))
     = true
  /\ fetchData brokenFetch sampleSource = Rejected Value.
Proof.
  refine (conj eq_refl (conj eq_refl (conj eq_refl _))).
  exact (fetchData_rejected brokenFetch "sheet" 0 [] "https://api.allorigins.win/raw?url="
           ["https://corsproxy.io/?"; "https://cors-anywhere.herokuapp.com/"]
           eq_refl eq_refl (List.Forall_nil _) (List.Forall_nil _) eq_refl).
Defined.

Lemma parseCSV_row_columns_witness :
  parseCSV sampleCSV = Ok sampleRows
  /\ sampleRow "2/15/2024" "48" "" "" ∈ sampleRows
  /\ exists header,
       head (nonBlankLines sampleCSV) = Some header
       /\ (forall key, is_Some (sampleRow "2/15/2024" "48" "" "" !! key)
                       <-> key ∈ headerCells header /\ key <> "__proto__")
       /\ exists date estimate,
            sampleRow "2/15/2024" "48" "" "" !! "Date" = Some date /\ date <> ""
            /\ sampleRow "2/15/2024" "48" "" "" !! "Estimate" = Some estimate /\ estimate <> "".
Proof.
  assert (parseCSV sampleCSV = Ok sampleRows) as Hparse
    by (vm_compute; exact eq_refl).
  assert (sampleRow "2/15/2024" "48" "" "" ∈ sampleRows) as Hrow
    by (apply list_elem_of_further, list_elem_of_here).
  exact (conj Hparse (conj Hrow (parseCSV_row_columns sampleCSV sampleRows _ Hparse Hrow))).
Defined.

Lemma parseCSVLine_unquoted_witness :
  hasQuote "1/15/2024, 45 ,28,65" = false
  /\ parseCSVLine "1/15/2024, 45 ,28,65" = map trim (split comma "1/15/2024, 45 ,28,65").
Proof. exact (conj eq_refl (parseCSVLine_unquoted "1/15/2024, 45 ,28,65" eq_refl)). Defined.

Lemma parseCSVLine_comma_witness :
  inQuotes (scanLoop (quoted "5,000") scanStart) = false
  /\ parseCSVLine (quoted "5,000" +:+ String comma "7")
     = parseCSVLine (quoted "5,000") ++ parseCSVLine "7".
Proof. exact (conj eq_refl (parseCSVLine_comma (quoted "5,000") "7" eq_refl)). Defined.

Lemma normalized_series_sorted_one_per_day_witness :
  let rows := take 2 getSampleData in
  let sorted := dateFilteredMinProcessedData DateParse LocalTZA rows in
  flooredRecord ∈ rawData (processDataForChart DateParse LocalTZA constructor rows).1
  /\ exists pre post,
       sorted = pre ++ flooredRecord :: post
       /\ Forall (fun other => calendarDay LocalTZA other <> calendarDay LocalTZA flooredRecord) pre.
Proof.
  intros rows sorted.
  assert (flooredRecord ∈ rawData (processDataForChart DateParse LocalTZA constructor rows).1)
    as Hin.
  { apply (list_elem_of_lookup_2 _ 0%nat). vm_compute. exact eq_refl. }
  exact (conj Hin (proj2 (proj2 (proj2 (proj2
           (normalized_series_sorted_one_per_day DateParse LocalTZA constructor rows))))
           flooredRecord Hin)).
Defined.

Lemma series_within_window_witness :
  let rows := take 2 getSampleData in
  flooredRecord ∈ rawData (processDataForChart DateParse LocalTZA constructor rows).1
  /\ exists time floor,
       date flooredRecord = Some time
       /\ windowFloor DateParse LocalTZA rows = Some floor /\ floor <= time.
Proof.
  intros rows.
  assert (flooredRecord ∈ rawData (processDataForChart DateParse LocalTZA constructor rows).1)
    as Hin.
  { apply (list_elem_of_lookup_2 _ 0%nat). vm_compute. exact eq_refl. }
  exact (conj Hin (series_within_window DateParse LocalTZA constructor rows flooredRecord Hin)).
Defined.

Lemma window_floor_first_of_month_witness :
  let rows := take 2 getSampleData in
  (forall t isUTC, LocalTZA t isUTC = 0)
  /\ windowFloor DateParse LocalTZA rows = Some 1701388800000
  /\ exists latest,
       latestDate DateParse rows = Some latest
       /\ 0 <= latest
       /\ Forall (fun row => forall t, newDate DateParse (row !! "Date") = Some t -> t <= latest)
                 (List.filter hasDateAndEstimate rows)
       /\ getDate LocalTZA (Some 1701388800000) = Some 1
       /\ TimeWithinDay (1701388800000 + 0) = TimeWithinDay (latest + 0)
       /\ 59 * msPerDay <= latest - 1701388800000 <= 92 * msPerDay.
Proof.
  intros rows.
  assert (forall t isUTC, LocalTZA t isUTC = 0) as Hoffset by reflexivity.
  assert (windowFloor DateParse LocalTZA rows = Some 1701388800000) as Hfloor
    by (vm_compute; reflexivity).
  exact (conj Hoffset (conj Hfloor
           (window_floor_first_of_month DateParse LocalTZA 0 Hoffset rows 1701388800000 Hfloor))).
Defined.

Lemma series_starts_at_floor_witness :
  let rows := take 2 getSampleData in
  let row := sampleRow "1/15/2024" "45" "28" "65" in
  row ∈ rows
  /\ hasDateAndEstimate row = true
  /\ newDate DateParse (row !! "Date") = Some 1705276800000
  /\ 0 <= 1705276800000
  /\ windowFloor DateParse LocalTZA rows = Some 1701388800000
  /\ exists first rest,
       rawData (processDataForChart DateParse LocalTZA constructor rows).1 = first :: rest
       /\ date first = Some 1701388800000.
Proof.
  intros rows row.
  assert (row ∈ rows) as Hrow by apply list_elem_of_here.
  assert (hasDateAndEstimate row = true) as Hkept by (vm_compute; reflexivity).
  assert (newDate DateParse (row !! "Date") = Some 1705276800000) as Hdate
    by (vm_compute; reflexivity).
  assert (0 <= 1705276800000) as Hpos by lia.
  assert (windowFloor DateParse LocalTZA rows = Some 1701388800000) as Hfloor
    by (vm_compute; reflexivity).
  exact (conj Hrow (conj Hkept (conj Hdate (conj Hpos (conj Hfloor
           (series_starts_at_floor DateParse LocalTZA constructor rows row
              1705276800000 1701388800000 Hrow Hkept Hdate Hpos Hfloor)))))).
Defined.

Lemma keys_identify_day_and_month_witness :
  validDate januaryFirst
  /\ validDate januaryFifteenth
  /\ (dateKey LocalTZA januaryFirst = dateKey LocalTZA januaryFifteenth
      <-> calendarDay LocalTZA januaryFirst = calendarDay LocalTZA januaryFifteenth)
  /\ (labelCheckWithYear LocalTZA januaryFirst = labelCheckWithYear LocalTZA januaryFifteenth
      <-> monthYear LocalTZA januaryFirst = monthYear LocalTZA januaryFifteenth).
Proof.
  assert (validDate januaryFirst) as Hfirst by (eexists; reflexivity).
  assert (validDate januaryFifteenth) as Hsecond by (eexists; reflexivity).
  exact (conj Hfirst (conj Hsecond
           (keys_identify_day_and_month LocalTZA januaryFirst januaryFifteenth Hfirst Hsecond))).
Defined.

Lemma reused_reader_scale_witness :
  let rows := take 2 getSampleData in
  let this := (processDataForChart DateParse LocalTZA constructor rows).2 in
  let result := processDataForChart DateParse LocalTZA this rows in
  let values := observedValues (rawData result.1) in
  let scale := getChartOptions result.2 in
  maxSteps this = Fin 75
  /\ (0 <= 75)%Q
  /\ isNumber (maxSteps this)
  /\ Forall (fun v => inScaleRange v = true) (maxSteps this :: values)
  /\ exists ticks step : Z,
       1 <= step /\ 0 <= ticks <= 5
       /\ axisStepSize scale = ofZ step
       /\ axisMax scale = ofZ (ticks * step)
       /\ Forall (fun v => leb v (axisMax scale) = true) (maxSteps this :: values)
       /\ Exists (fun v => exists q, v = Fin q /\ (inject_Z (ticks * step) < q + inject_Z step)%Q)
                 (maxSteps this :: values).
Proof.
  intros rows this result values scale.
  assert (maxSteps this = Fin 75) as Hheld by (vm_compute; reflexivity).
  assert (0 <= 75)%Q as Hpos by (vm_compute; discriminate).
  assert (isNumber (maxSteps this)) as Hnumber.
  { rewrite Hheld. exists 75, 0. split; [lia|]. split; reflexivity. }
  assert (Forall (fun v => inScaleRange v = true) (maxSteps this :: values)) as Hrange
    by (apply inScaleRange_all; vm_compute; reflexivity).
  exact (conj Hheld (conj Hpos (conj Hnumber (conj Hrange
           (reused_reader_scale DateParse LocalTZA this rows 75 Hheld Hpos Hnumber Hrange))))).
Defined.

Lemma y_ticks_read_days_at_the_maximum_witness :
  let rows := take 2 getSampleData in
  let result := processDataForChart DateParse LocalTZA constructor rows in
  maxSteps constructor = Fin 0
  /\ (0 <= 0)%Q
  /\ isNumber (maxSteps constructor)
  /\ Forall (fun v => inScaleRange v = true)
            (maxSteps constructor :: observedValues (rawData result.1))
  /\ exists ticks step : Z,
       1 <= step /\ 0 <= ticks <= 5
       /\ axisStepSize (getChartOptions result.2) = ofZ step
       /\ axisMax (getChartOptions result.2) = ofZ (ticks * step)
       /\ (forall k : Z,
             yTickCallback NumberToString result.2 (TickNumber (ofZ (k * step)))
             = if k <? ticks then NumberToString (ofZ (k * step)) else "Days")
       /\ yTickCallback NumberToString result.2 TickUndefined = "undefined"
       /\ yTickCallback NumberToString result.2 TickNull = if 0 <? ticks then "null" else "Days".
Proof.
  intros rows result.
  assert (maxSteps constructor = Fin 0) as Hheld by reflexivity.
  assert (0 <= 0)%Q as Hpos by (vm_compute; discriminate).
  assert (isNumber (maxSteps constructor)) as Hnumber.
  { exists 0, 0. split; [lia|]. split; reflexivity. }
  assert (Forall (fun v => inScaleRange v = true)
                 (maxSteps constructor :: observedValues (rawData result.1))) as Hrange
    by (apply inScaleRange_all; vm_compute; reflexivity).
  exact (conj Hheld (conj Hpos (conj Hnumber (conj Hrange
           (y_ticks_read_days_at_the_maximum DateParse LocalTZA NumberToString constructor rows 0
              Hheld Hpos Hnumber Hrange))))).
Defined.

Lemma positioner_throws_on_missing_dataset_witness :
  let elements := [activeAt 2 5 5; danglingElement] in
  (exists pre el post,
     elements = pre ++ el :: post
     /\ Forall (inRange sampleDatasets) pre
     /\ Forall (fun other => estimateTest constructor sampleDatasets other = false) pre
     /\ inRange sampleDatasets el /\ estimateTest constructor sampleDatasets el = true
     /\ resolved el = true)
  /\ exists placed,
       einCustomPositioner constructor sampleDatasets elements {| x := ofZ 7; y := ofZ 9 |}
       = Ok placed.
Proof.
  intros elements.
  assert (exists pre el post,
            elements = pre ++ el :: post
            /\ Forall (inRange sampleDatasets) pre
            /\ Forall (fun other => estimateTest constructor sampleDatasets other = false) pre
            /\ inRange sampleDatasets el /\ estimateTest constructor sampleDatasets el = true
            /\ resolved el = true) as Hfirst.
  { exists [], (activeAt 2 5 5), [danglingElement].
    refine (conj eq_refl (conj (List.Forall_nil _) (conj (List.Forall_nil _) (conj _ (conj eq_refl eq_refl))))).
    intros index [= <-]. cbn. lia. }
  exact (conj Hfirst
           (proj2 (proj1 (positioner_throws_on_missing_dataset constructor sampleDatasets
                            elements {| x := ofZ 7; y := ofZ 9 |}))
                  (or_intror Hfirst))).
Defined.

Lemma parseCSV_value_of_column_witness :
  parseCSV sampleCSV = Ok sampleRows
  /\ sampleRow "2/15/2024" "48" "" "" ∈ sampleRows
  /\ exists header line,
       head (nonBlankLines sampleCSV) = Some header
       /\ line ∈ tail (nonBlankLines sampleCSV)
       /\ sampleRow "2/15/2024" "48" "" "" !! "__proto__" = None
       /\ forall index name,
            name <> "__proto__" ->
            headerCells header !! index = Some name ->
            name ∉ drop (S index) (headerCells header) ->
            sampleRow "2/15/2024" "48" "" "" !! name
            = Some (default "" (parseCSVLine (trim line) !! index)).
Proof.
  assert (parseCSV sampleCSV = Ok sampleRows) as Hparse
    by (vm_compute; exact eq_refl).
  assert (sampleRow "2/15/2024" "48" "" "" ∈ sampleRows) as Hrow
    by (apply list_elem_of_further, list_elem_of_here).
  exact (conj Hparse (conj Hrow (parseCSV_value_of_column sampleCSV sampleRows _ Hparse Hrow))).
Defined.

Lemma parseCSV_without_date_or_estimate_column_witness :
  (2 <= length (nonBlankLines lowerCaseCSV))%nat
  /\ head (nonBlankLines lowerCaseCSV) = Some "date,Estimate"
  /\ ("Date" ∉ headerCells "date,Estimate" \/ "Estimate" ∉ headerCells "date,Estimate")
  /\ parseCSV lowerCaseCSV = Ok [].
Proof.
  assert (2 <= length (nonBlankLines lowerCaseCSV))%nat as Hlen by (vm_compute; lia).
  assert (head (nonBlankLines lowerCaseCSV) = Some "date,Estimate") as Hhead by reflexivity.
  assert ("Date" ∉ headerCells "date,Estimate" \/ "Estimate" ∉ headerCells "date,Estimate")
    as Hmissing by (left; apply (bool_decide_unpack _); vm_compute; exact I).
  exact (conj Hlen (conj Hhead (conj Hmissing
           (parseCSV_without_date_or_estimate_column lowerCaseCSV "date,Estimate"
              Hlen Hhead Hmissing)))).
Defined.

(** What the sample network and the sample rows give. *)
Example fetchData_examples :
  encodeURIComponent (csvUrl sampleSource)
  = "https%3A%2F%2Fdocs.google.com%2Fspreadsheets%2Fd%2Fsheet%2Fexport%3Fformat%3Dcsv%26gid%3D0"
  /\ fetchData sampleFetch sampleSource = Fulfilled sampleRows
  /\ fetchData (fun _ => Rejected Value) sampleSource = Fulfilled getSampleData
  /\ fetchData brokenFetch sampleSource = Rejected Value.
Proof. split; [reflexivity|]. split; [vm_compute; exact eq_refl|]. split; reflexivity. Qed.

End SampleExtras.
